(** * BugReportService: the deduplication core of [BugReportController]

    A shallow embedding of [src/controllers/BugReportController.ts]
    (fingerprinting, duplicate lookup, submission, update) together with the
    parts of the SQL migration the controller relies on (the
    [increment_bug_duplicate_count] function and the update-timestamp
    trigger), followed by the properties of the specification that concern
    them.

    Conventions of the model.
    - A JavaScript string is a [string]: a sequence of code units, each in the
      range U+0000..U+00FF (one [ascii] per code unit). Where the other code
      units matter, in the bytes that reach the digest of a fingerprint, the
      tenant id and the screen name are lists of 16-bit code units ([Utf16]).
    - Instants are integers counting milliseconds. A request sees two
      clocks: [new Date()] of the server ([newDate]) and [NOW()] of the
      database ([now]), which stamps the rows. The server's time zone is the
      function [LocalTZA] of ECMAScript, and [setDate(getDate() - 7)] is
      computed through local time as the language defines it.
    - Among rows of equal sort key the database is free to return any order,
      and need not choose the same one twice: every query takes the order it
      is answered in as a parameter ([tie], [before]).
    - The Supabase client never throws: every call returns [{data, error}].
      Whether a call fails for an infrastructure reason is decided by the
      environment of the request (see [Env]).
    - Row identifiers (UUIDs drawn by the database) are natural numbers handed
      out by a counter kept with the table.
    - The SQL of the repository defines the function and the trigger on the
      table [bug_reports], since merged into [ghp_bug_reports], the table the
      controller addresses; they are taken to act on that table.

    The reading handlers of the controller, the authentication middleware,
    the schemas and the routes are embedded as well, and the development
    ends with properties of the service as a whole: what every reachable
    table satisfies, and how writing and reading fit together. *)

From Stdlib Require Import ZArith NArith Arith List Bool Lia Ascii String.
From Stdlib Require Import DecimalString Sorted.
Import ListNotations.
Open Scope string_scope.
Open Scope list_scope.

(* ================================================================== *)
(** ** JavaScript strings *)
(* ================================================================== *)

Module Js.

Definition chars (s : string) : list ascii := list_ascii_of_string s.
Definition str (l : list ascii) : string := string_of_list_ascii l.

Definition code (c : ascii) : N := N_of_ascii c.

(** The class [\s] of a regular expression, which is also the set of
    characters [trim] removes: TAB, LF, VT, FF, CR, SPACE and NBSP. *)
Definition isWhiteSpace (c : ascii) : bool :=
  let n := code c in
  (((9 <=? n) && (n <=? 13)) || (n =? 32) || (n =? 160))%N.

Definition isLowerAlpha (c : ascii) : bool :=
  let n := code c in ((97 <=? n) && (n <=? 122))%N.

Definition isDigit (c : ascii) : bool :=
  let n := code c in ((48 <=? n) && (n <=? 57))%N.

(** [String.prototype.toLowerCase] on one code unit: A-Z and the upper-case
    letters of Latin-1 (U+00C0..U+00DE without the multiplication sign). *)
Definition lowerChar (c : ascii) : ascii :=
  let n := code c in
  if (((65 <=? n) && (n <=? 90))
      || ((192 <=? n) && (n <=? 222) && negb (n =? 215)))%N
  then ascii_of_N (n + 32) else c.

Definition toLowerCase (s : string) : string := str (map lowerChar (chars s)).

Fixpoint dropWhile {A} (p : A -> bool) (l : list A) : list A :=
  match l with
  | [] => []
  | x :: l' => if p x then dropWhile p l' else l
  end.

Definition trimStart (l : list ascii) : list ascii := dropWhile isWhiteSpace l.
Definition trimEnd (l : list ascii) : list ascii :=
  rev (dropWhile isWhiteSpace (rev l)).

(** [String.prototype.trim] *)
Definition trim (s : string) : string := str (trimEnd (trimStart (chars s))).

(** [s.substring(0, n)] *)
Definition substring0 (n : nat) (s : string) : string :=
  str (firstn n (chars s)).

(** [s.length] *)
Definition length (s : string) : nat := List.length (chars s).

(** Truthiness of a string: only the empty string is falsy. *)
Definition truthy (s : string) : bool :=
  match s with EmptyString => false | _ => true end.

(** The UTF-8 bytes of a string, as Node's [hash.update(string)] feeds them
    to the digest. *)
Definition utf8Char (c : ascii) : list Z :=
  let n := Z.of_N (code c) in
  if (n <? 128)%Z then [n] else [192 + n / 64; 128 + n mod 64]%Z.

Definition utf8 (s : string) : list Z := flat_map utf8Char (chars s).

End Js.

(* ================================================================== *)
(** ** SHA-256 (FIPS 180-4), the digest behind [crypto.createHash('sha256')] *)
(* ================================================================== *)

Module SHA256.
Local Open Scope Z_scope.

Definition word (x : Z) : Z := x mod 4294967296.
Definition add (x y : Z) : Z := word (x + y).
Definition rotr (n x : Z) : Z :=
  Z.lor (Z.shiftr x n) (word (Z.shiftl x (32 - n))).
Definition shr (n x : Z) : Z := Z.shiftr x n.
Definition complement (x : Z) : Z := Z.lxor x 4294967295.

Definition Ch (x y z : Z) : Z := Z.lxor (Z.land x y) (Z.land (complement x) z).
Definition Maj (x y z : Z) : Z :=
  Z.lxor (Z.lxor (Z.land x y) (Z.land x z)) (Z.land y z).
Definition Sigma0 (x : Z) : Z := Z.lxor (Z.lxor (rotr 2 x) (rotr 13 x)) (rotr 22 x).
Definition Sigma1 (x : Z) : Z := Z.lxor (Z.lxor (rotr 6 x) (rotr 11 x)) (rotr 25 x).
Definition sigma0 (x : Z) : Z := Z.lxor (Z.lxor (rotr 7 x) (rotr 18 x)) (shr 3 x).
Definition sigma1 (x : Z) : Z := Z.lxor (Z.lxor (rotr 17 x) (rotr 19 x)) (shr 10 x).

Definition K : list Z :=
  [ 1116352408; 1899447441; 3049323471; 3921009573; 961987163; 1508970993;
    2453635748; 2870763221; 3624381080; 310598401; 607225278; 1426881987;
    1925078388; 2162078206; 2614888103; 3248222580; 3835390401; 4022224774;
    264347078; 604807628; 770255983; 1249150122; 1555081692; 1996064986;
    2554220882; 2821834349; 2952996808; 3210313671; 3336571891; 3584528711;
    113926993; 338241895; 666307205; 773529912; 1294757372; 1396182291;
    1695183700; 1986661051; 2177026350; 2456956037; 2730485921; 2820302411;
    3259730800; 3345764771; 3516065817; 3600352804; 4094571909; 275423344;
    430227734; 506948616; 659060556; 883997877; 958139571; 1322822218;
    1537002063; 1747873779; 1955562222; 2024104815; 2227730452; 2361852424;
    2428436474; 2756734187; 3204031479; 3329325298 ].

(** The eight working variables a..h, and the chaining value. *)
Record State := mkState
  { sa : Z; sb : Z; sc : Z; sd : Z; se : Z; sf : Z; sg : Z; sh : Z }.

Definition H0 : State :=
  mkState 1779033703 3144134277 1013904242 2773480762
          1359893119 2600822924 528734635 1541459225.

(** Padding: a 1 bit, zero bits up to 56 mod 64 bytes, the bit length on
    eight bytes, most significant first. *)
Definition lengthBytes (bits : Z) : list Z :=
  map (fun i => (bits / 256 ^ i) mod 256) [7; 6; 5; 4; 3; 2; 1; 0].

Definition pad (msg : list Z) : list Z :=
  let len := Z.of_nat (List.length msg) in
  msg ++ [128] ++ repeat 0 (Z.to_nat ((55 - len) mod 64))
      ++ lengthBytes (8 * len).

(** Big-endian words of a byte sequence. *)
Fixpoint words (bytes : list Z) : list Z :=
  match bytes with
  | b3 :: b2 :: b1 :: b0 :: rest =>
      (((b3 * 256 + b2) * 256 + b1) * 256 + b0) :: words rest
  | _ => []
  end.

(** The message schedule: [n] more words after the ones in [w]. *)
Fixpoint schedule (n : nat) (w : list Z) : list Z :=
  match n with
  | O => w
  | S n' =>
      let t := List.length w in
      let at_ k := nth (t - k) w 0 in
      schedule n' (w ++ [add (add (sigma1 (at_ 2%nat)) (at_ 7%nat))
                             (add (sigma0 (at_ 15%nat)) (at_ 16%nat))])
  end.

Definition round (s : State) (kw : Z * Z) : State :=
  let (k, w) := kw in
  let t1 := add (add (add (add (sh s) (Sigma1 (se s))) (Ch (se s) (sf s) (sg s))) k) w in
  let t2 := add (Sigma0 (sa s)) (Maj (sa s) (sb s) (sc s)) in
  mkState (add t1 t2) (sa s) (sb s) (sc s) (add (sd s) t1) (se s) (sf s) (sg s).

Definition compress (h : State) (block : list Z) : State :=
  let w := schedule 48 (words block) in
  let s := fold_left round (combine K w) h in
  mkState (add (sa h) (sa s)) (add (sb h) (sb s)) (add (sc h) (sc s))
          (add (sd h) (sd s)) (add (se h) (se s)) (add (sf h) (sf s))
          (add (sg h) (sg s)) (add (sh h) (sh s)).

(** The padded message, one 64-byte block after the other. *)
Fixpoint blocks (fuel : nat) (h : State) (bytes : list Z) : State :=
  match fuel, bytes with
  | S fuel', _ :: _ => blocks fuel' (compress h (firstn 64 bytes)) (skipn 64 bytes)
  | _, _ => h
  end.

Definition hash (msg : list Z) : State :=
  let p := pad msg in blocks (List.length p) H0 p.

Definition hexAlphabet : list ascii := Js.chars "0123456789abcdef".

Definition hexDigit (n : Z) : ascii :=
  nth (Z.to_nat (n mod 16)) hexAlphabet "0"%char.

Definition hexWord (w : Z) : list ascii :=
  map (fun i => hexDigit (w / 16 ^ i)) [7; 6; 5; 4; 3; 2; 1; 0].

(** [.digest('hex')] *)
Definition hexDigest (s : State) : string :=
  Js.str (hexWord (sa s) ++ hexWord (sb s) ++ hexWord (sc s) ++ hexWord (sd s)
       ++ hexWord (se s) ++ hexWord (sf s) ++ hexWord (sg s) ++ hexWord (sh s)).

(** [crypto.createHash('sha256').update(input).digest('hex')] *)
Definition sha256Hex (input : string) : string := hexDigest (hash (Js.utf8 input)).

End SHA256.

(* ================================================================== *)
(** ** Fingerprint generator *)
(* ================================================================== *)

(** [.replace(/[^a-z0-9\s]/g, '')] *)
Definition keptByRegex (c : ascii) : bool :=
  Js.isLowerAlpha c || Js.isDigit c || Js.isWhiteSpace c.

Definition replaceDisallowed (s : string) : string :=
  Js.str (filter keptByRegex (Js.chars s)).

(** The normalisation inside [generateFingerprint]:
    [description.toLowerCase().replace(/[^a-z0-9\s]/g, '').trim().substring(0, 200)] *)
Definition normalize (description : string) : string :=
  Js.substring0 200 (Js.trim (replaceDisallowed (Js.toLowerCase description))).

(** [screenName || ''] for an optional string. *)
Definition orEmpty (screenName : option string) : string :=
  match screenName with
  | Some s => if Js.truthy s then s else ""
  | None => ""
  end.

(** The template [`${appId}:${normalized}:${screenName || ''}`]. *)
Definition fingerprintInput (appId description : string)
    (screenName : option string) : string :=
  appId ++ ":" ++ normalize description ++ ":" ++ orEmpty screenName.

Definition generateFingerprint (appId description : string)
    (screenName : option string) : string :=
  Js.substring0 64 (SHA256.sha256Hex (fingerprintInput appId description screenName)).

(* ================================================================== *)
(** ** Strings as UTF-16 code units *)
(* ================================================================== *)

(** A JavaScript string is a sequence of 16-bit code units. The strings of
    [Js] are the ones whose units are all below 256; [Utf16] has every
    string, for the place where the difference shows: the bytes that
    [hash.update(input)] hands to the digest. *)
Module Utf16.

Local Open Scope Z_scope.

Definition isCodeUnit (c : Z) : bool := (0 <=? c) && (c <? 65536).

(** A list of integers that is a string: every unit has sixteen bits. *)
Definition isString (s : list Z) : bool := forallb isCodeUnit s.

(** Leading surrogates, D800 to DBFF, and trailing surrogates, DC00 to DFFF. *)
Definition isHigh (c : Z) : bool := (55296 <=? c) && (c <=? 56319).
Definition isLow (c : Z) : bool := (56320 <=? c) && (c <=? 57343).

(** The code point of a surrogate pair. *)
Definition codePoint (hi lo : Z) : Z := 65536 + (hi - 55296) * 1024 + (lo - 56320).

(** The UTF-8 bytes of one code point. *)
Definition utf8Point (p : Z) : list Z :=
  if p <? 128 then [p]
  else if p <? 2048 then [192 + p / 64; 128 + p mod 64]
  else if p <? 65536 then
    [224 + p / 4096; 128 + (p / 64) mod 64; 128 + p mod 64]
  else
    [240 + p / 262144; 128 + (p / 4096) mod 64; 128 + (p / 64) mod 64;
     128 + p mod 64].

(** The bytes EF BF BD of U+FFFD, which the encoder writes for a surrogate
    that is not part of a pair. *)
Definition replacement : list Z := [239; 191; 189].

(** The bytes that [hash.update(input)] reads from a string: its UTF-8
    encoding, a surrogate pair as the four bytes of its code point and a
    lone surrogate as U+FFFD. *)
Fixpoint utf8 (s : list Z) : list Z :=
  match s with
  | [] => []
  | c :: rest =>
      if isHigh c then
        match rest with
        | d :: rest' =>
            if isLow d then utf8Point (codePoint c d) ++ utf8 rest'
            else replacement ++ utf8 rest
        | [] => replacement
        end
      else if isLow c then replacement ++ utf8 rest
      else utf8Point c ++ utf8 rest
  end.

(** [s.isWellFormed()]: no surrogate outside a pair. *)
Fixpoint isWellFormed (s : list Z) : bool :=
  match s with
  | [] => true
  | c :: rest =>
      if isHigh c then
        match rest with
        | d :: rest' => isLow d && isWellFormed rest'
        | [] => false
        end
      else negb (isLow c) && isWellFormed rest
  end.

(** The code units of a string of [Js]. *)
Definition ofString (s : string) : list Z :=
  map (fun c => Z.of_N (Js.code c)) (Js.chars s).

(** [screenName || ''] *)
Definition orEmpty (screenName : option (list Z)) : list Z :=
  match screenName with
  | Some (c :: s) => c :: s
  | _ => []
  end.

(** The template [`${appId}:${normalized}:${screenName || ''}`], on the code
    units of the tenant id and of the screen name. *)
Definition fingerprintInput (appId : list Z) (description : string)
    (screenName : option (list Z)) : list Z :=
  appId ++ [58] ++ ofString (normalize description) ++ [58] ++ orEmpty screenName.

(** [generateFingerprint] for a tenant id and a screen name of any code
    units; on strings of [Js] it is the [generateFingerprint] above. *)
Definition generateFingerprint (appId : list Z) (description : string)
    (screenName : option (list Z)) : string :=
  Js.substring0 64
    (SHA256.hexDigest
       (SHA256.hash (utf8 (fingerprintInput appId description screenName)))).

End Utf16.

(* ================================================================== *)
(** ** JSON values of a request body *)
(* ================================================================== *)

#[local] Set Warnings "-register-all".
Inductive JsValue : Type :=
| JsUndefined
| JsNull
| JsBool (b : bool)
| JsNumber (n : Z)
| JsString (s : string)
| JsArray (items : list JsValue)
| JsObject (props : list (string * JsValue)).

(** Truthiness: [undefined], [null], [false], [0] and [''] are falsy.
    Numbers are kept to the integers; the code only tests them for truth. *)
Definition truthy (v : JsValue) : bool :=
  match v with
  | JsUndefined | JsNull => false
  | JsBool b => b
  | JsNumber n => negb (n =? 0)%Z
  | JsString s => Js.truthy s
  | JsArray _ | JsObject _ => true
  end.

Definition isUndefined (v : JsValue) : bool :=
  match v with JsUndefined => true | _ => false end.

(** [body[k]] for a parsed JSON object: the last occurrence of a key wins,
    an absent key reads as [undefined]. *)
Definition getProp (props : list (string * JsValue)) (k : string) : JsValue :=
  match find (fun kv => String.eqb (fst kv) k) (rev props) with
  | Some kv => snd kv
  | None => JsUndefined
  end.

(** [x || null] for an optional string. *)
Definition orNull (x : option string) : option string :=
  match x with
  | Some s => if Js.truthy s then Some s else None
  | None => None
  end.

(* ================================================================== *)
(** ** The table [ghp_bug_reports] and the Supabase client *)
(* ================================================================== *)

(** One row. The four columns an update can write hold the JSON value that
    was written ([JsNull] for SQL NULL): the column typing and the CHECK
    constraints of the table are not part of the model. *)
Record Report := mkReport
  { id : nat;
    app_id : string;
    user_id : option string;
    description : string;
    priority : string;
    status : JsValue;
    screenshot_url : option string;
    screenshot_urls : option (list string);
    app_version : option string;
    build_number : option string;
    ios_version : option string;
    device_model : option string;
    screen_name : option string;
    fingerprint : string;
    canonical_id : option nat;
    duplicate_count : Z;
    claude_analysis : JsValue;
    suggested_fix : JsValue;
    fix_status : JsValue;
    created_at : Z;
    updated_at : Z }.

Definition set_id (v : nat) (r : Report) : Report :=
  mkReport v (app_id r) (user_id r) (description r) (priority r) (status r)
    (screenshot_url r) (screenshot_urls r) (app_version r) (build_number r)
    (ios_version r) (device_model r) (screen_name r) (fingerprint r)
    (canonical_id r) (duplicate_count r) (claude_analysis r) (suggested_fix r)
    (fix_status r) (created_at r) (updated_at r).

Definition set_status (v : JsValue) (r : Report) : Report :=
  mkReport (id r) (app_id r) (user_id r) (description r) (priority r) v
    (screenshot_url r) (screenshot_urls r) (app_version r) (build_number r)
    (ios_version r) (device_model r) (screen_name r) (fingerprint r)
    (canonical_id r) (duplicate_count r) (claude_analysis r) (suggested_fix r)
    (fix_status r) (created_at r) (updated_at r).

Definition set_fingerprint (v : string) (r : Report) : Report :=
  mkReport (id r) (app_id r) (user_id r) (description r) (priority r) (status r)
    (screenshot_url r) (screenshot_urls r) (app_version r) (build_number r)
    (ios_version r) (device_model r) (screen_name r) v
    (canonical_id r) (duplicate_count r) (claude_analysis r) (suggested_fix r)
    (fix_status r) (created_at r) (updated_at r).

Definition set_canonical_id (v : option nat) (r : Report) : Report :=
  mkReport (id r) (app_id r) (user_id r) (description r) (priority r) (status r)
    (screenshot_url r) (screenshot_urls r) (app_version r) (build_number r)
    (ios_version r) (device_model r) (screen_name r) (fingerprint r)
    v (duplicate_count r) (claude_analysis r) (suggested_fix r)
    (fix_status r) (created_at r) (updated_at r).

Definition set_duplicate_count (v : Z) (r : Report) : Report :=
  mkReport (id r) (app_id r) (user_id r) (description r) (priority r) (status r)
    (screenshot_url r) (screenshot_urls r) (app_version r) (build_number r)
    (ios_version r) (device_model r) (screen_name r) (fingerprint r)
    (canonical_id r) v (claude_analysis r) (suggested_fix r)
    (fix_status r) (created_at r) (updated_at r).

Definition set_claude_analysis (v : JsValue) (r : Report) : Report :=
  mkReport (id r) (app_id r) (user_id r) (description r) (priority r) (status r)
    (screenshot_url r) (screenshot_urls r) (app_version r) (build_number r)
    (ios_version r) (device_model r) (screen_name r) (fingerprint r)
    (canonical_id r) (duplicate_count r) v (suggested_fix r)
    (fix_status r) (created_at r) (updated_at r).

Definition set_suggested_fix (v : JsValue) (r : Report) : Report :=
  mkReport (id r) (app_id r) (user_id r) (description r) (priority r) (status r)
    (screenshot_url r) (screenshot_urls r) (app_version r) (build_number r)
    (ios_version r) (device_model r) (screen_name r) (fingerprint r)
    (canonical_id r) (duplicate_count r) (claude_analysis r) v
    (fix_status r) (created_at r) (updated_at r).

Definition set_fix_status (v : JsValue) (r : Report) : Report :=
  mkReport (id r) (app_id r) (user_id r) (description r) (priority r) (status r)
    (screenshot_url r) (screenshot_urls r) (app_version r) (build_number r)
    (ios_version r) (device_model r) (screen_name r) (fingerprint r)
    (canonical_id r) (duplicate_count r) (claude_analysis r) (suggested_fix r)
    v (created_at r) (updated_at r).

Definition set_created_at (v : Z) (r : Report) : Report :=
  mkReport (id r) (app_id r) (user_id r) (description r) (priority r) (status r)
    (screenshot_url r) (screenshot_urls r) (app_version r) (build_number r)
    (ios_version r) (device_model r) (screen_name r) (fingerprint r)
    (canonical_id r) (duplicate_count r) (claude_analysis r) (suggested_fix r)
    (fix_status r) v (updated_at r).

Definition set_updated_at (v : Z) (r : Report) : Report :=
  mkReport (id r) (app_id r) (user_id r) (description r) (priority r) (status r)
    (screenshot_url r) (screenshot_urls r) (app_version r) (build_number r)
    (ios_version r) (device_model r) (screen_name r) (fingerprint r)
    (canonical_id r) (duplicate_count r) (claude_analysis r) (suggested_fix r)
    (fix_status r) (created_at r) v.

(** The table, with the source of fresh identifiers. *)
Record Store := mkStore { rows : list Report; next_id : nat }.

Definition emptyStore : Store := mkStore [] 0.

(** The [error] of a Supabase result. *)
Record PostgrestError := mkError { code : string; message : string }.

(** What [.single()] reports when the query yields no row (or several). *)
Definition noRows : PostgrestError :=
  mkError "PGRST116" "JSON object requested, multiple (or no) rows returned".

(** A Supabase result [{data, error}]: one of the two is set. *)
Inductive Result (A : Type) : Type :=
| Data (data : A)
| Error (error : PostgrestError).
Arguments Data {A} data.
Arguments Error {A} error.

(** What surrounds one request. In the database: the instant [NOW()] gives
    to the statements of the request, and the order in which a sorted query
    returns two rows that its ORDER BY leaves equal ([tie r x]: [r] comes
    before [x]). On the server: the instant [new Date()] gives when the
    lookup starts, which is before the insert and on another clock, and the
    time zone, as the offset [LocalTZA(t, isUTC)] of ECMAScript. Then, for
    every call to the store, whether it fails for a reason of the
    infrastructure, and what the screenshot bucket answers to an upload (a
    public URL, or nothing when the upload failed). *)
Record Env := mkEnv
  { now : Z;
    tie : Report -> Report -> bool;
    newDate : Z;
    LocalTZA : Z -> bool -> Z;
    selectFault : option PostgrestError;
    insertFault : option PostgrestError;
    rpcFault : option PostgrestError;
    updateFault : option PostgrestError;
    storage : string -> string -> option string }.

Module Supabase.

(** The filters of the query builder. *)
Definition eq_text (col : Report -> string) (v : string) (q : list Report) :=
  filter (fun r => String.eqb (col r) v) q.

Definition eq_id (v : nat) (q : list Report) :=
  filter (fun r => Nat.eqb (id r) v) q.

Definition gte (col : Report -> Z) (v : Z) (q : list Report) :=
  filter (fun r => (v <=? col r)%Z) q.

Definition is_null {A} (col : Report -> option A) (q : list Report) :=
  filter (fun r => match col r with None => true | Some _ => false end) q.

(** [.order(col, { ascending: true })]: the database sorts by the column
    alone. Where two rows have the same key it is free to put either first,
    and [before r x] is what it decides; whatever that is, the result holds
    the rows of the query, sorted by the column. *)
Fixpoint insertAsc (before : Report -> Report -> bool) (col : Report -> Z)
    (r : Report) (sorted : list Report) :=
  match sorted with
  | [] => [r]
  | x :: rest =>
      if ((col r <? col x) || ((col r =? col x) && before r x))%Z
      then r :: sorted else x :: insertAsc before col r rest
  end.

Definition order_asc (before : Report -> Report -> bool) (col : Report -> Z)
    (q : list Report) : list Report :=
  fold_right (insertAsc before col) [] q.

Definition limit (n : nat) (q : list Report) : list Report := firstn n q.

(** [.single()]: exactly one row, or the error PGRST116. *)
Definition single (q : list Report) : Result Report :=
  match q with
  | [r] => Data r
  | _ => Error noRows
  end.

(** A call that reaches the store, or fails on the way. *)
Definition attempt {A} (fault : option PostgrestError) (r : Result A) : Result A :=
  match fault with
  | Some e => Error e
  | None => r
  end.

(** [.insert(row).select().single()]: the database draws the identifier and
    stamps the row ([DEFAULT gen_random_uuid()], [DEFAULT NOW()]). *)
Definition insert (env : Env) (payload : Report) (st : Store)
  : Result Report * Store :=
  match insertFault env with
  | Some e => (Error e, st)
  | None =>
      let r := set_id (next_id st)
                 (set_created_at (now env) (set_updated_at (now env) payload)) in
      (Data r, mkStore (rows st ++ [r]) (S (next_id st)))
  end.

(** One assignment [column = value] of an UPDATE. The columns the service
    never addresses in an update are refused. *)
Definition setColumn (column : string) (v : JsValue) (r : Report) : option Report :=
  if String.eqb column "status" then Some (set_status v r)
  else if String.eqb column "fix_status" then Some (set_fix_status v r)
  else if String.eqb column "suggested_fix" then Some (set_suggested_fix v r)
  else if String.eqb column "claude_analysis" then Some (set_claude_analysis v r)
  else if String.eqb column "fingerprint" then
    match v with JsString s => Some (set_fingerprint s r) | _ => None end
  else if String.eqb column "canonical_id" then
    match v with
    | JsNull => Some (set_canonical_id None r)
    | JsNumber n => Some (set_canonical_id (Some (Z.to_nat n)) r)
    | _ => None
    end
  else if String.eqb column "duplicate_count" then
    match v with JsNumber n => Some (set_duplicate_count n r) | _ => None end
  else None.

Fixpoint assign (updates : list (string * JsValue)) (r : Report) : option Report :=
  match updates with
  | [] => Some r
  | (column, v) :: rest =>
      match setColumn column v r with
      | Some r' => assign rest r'
      | None => None
      end
  end.

(** The trigger [update_bug_report_timestamp], BEFORE UPDATE FOR EACH ROW:
    [NEW.updated_at = NOW()]. *)
Definition update_bug_report_timestamp (env : Env) (new : Report) : Report :=
  set_updated_at (now env) new.

(** The rows of an UPDATE ... WHERE id = [target], all or nothing. *)
Fixpoint updateWhereId (env : Env) (target : nat)
    (change : Report -> option Report) (q : list Report) : option (list Report) :=
  match q with
  | [] => Some []
  | r :: rest =>
      match updateWhereId env target change rest with
      | None => None
      | Some rest' =>
          if Nat.eqb (id r) target then
            match change r with
            | Some r' => Some (update_bug_report_timestamp env r' :: rest')
            | None => None
            end
          else Some (r :: rest')
      end
  end.

Definition invalidColumn : PostgrestError :=
  mkError "PGRST204" "Could not find or assign a column of the update".

(** [.update(updates).eq('id', id).select().single()] *)
Definition update (env : Env) (updates : list (string * JsValue)) (target : nat)
    (st : Store) : Result Report * Store :=
  match updateFault env with
  | Some e => (Error e, st)
  | None =>
      match updateWhereId env target (assign updates) (rows st) with
      | None => (Error invalidColumn, st)
      | Some rows' => (single (eq_id target rows'), mkStore rows' (next_id st))
      end
  end.

(** [.rpc('increment_bug_duplicate_count', { p_canonical_id })], the SQL
    function of the migration:
    [UPDATE ... SET duplicate_count = duplicate_count + 1, updated_at = NOW()
     WHERE id = p_canonical_id]. *)
Definition increment_bug_duplicate_count (env : Env) (p_canonical_id : nat)
    (st : Store) : Result unit * Store :=
  match rpcFault env with
  | Some e => (Error e, st)
  | None =>
      match updateWhereId env p_canonical_id
              (fun r => Some (set_updated_at (now env)
                                (set_duplicate_count (duplicate_count r + 1) r)))
              (rows st) with
      | None => (Error invalidColumn, st)
      | Some rows' => (Data tt, mkStore rows' (next_id st))
      end
  end.

End Supabase.

(* ================================================================== *)
(** ** Request handlers: state, exceptions, responses *)
(* ================================================================== *)

(** The calls a handler made to the store, in order. *)
Inductive StoreCall : Type :=
| CallSelect (fingerprint appId : string)
| CallInsert (payload : Report)
| CallIncrement (p_canonical_id : nat)
| CallUpdate (target : nat) (updates : list (string * JsValue)).

Record World := mkWorld { db : Store; calls : list StoreCall }.

(** A computation either completes with a value or throws. *)
Inductive Completion (A : Type) : Type :=
| Normal (a : A)
| Throw (e : PostgrestError).
Arguments Normal {A} a.
Arguments Throw {A} e.

Definition M (A : Type) : Type := World -> Completion A * World.

Definition ret {A} (a : A) : M A := fun w => (Normal a, w).

Definition throw {A} (e : PostgrestError) : M A := fun w => (Throw e, w).

Definition bind {A B} (m : M A) (k : A -> M B) : M B :=
  fun w =>
    match m w with
    | (Normal a, w') => k a w'
    | (Throw e, w') => (Throw e, w')
    end.

(** [try { m } catch (error) { handler(error) }] *)
Definition tryCatch {A} (m : M A) (handler : PostgrestError -> M A) : M A :=
  fun w =>
    match m w with
    | (Normal a, w') => (Normal a, w')
    | (Throw e, w') => handler e w'
    end.

(** [await] of a call to the store: the call is recorded and the table
    replaced by what the call leaves. *)
Definition await {A} (call : StoreCall) (op : Store -> Result A * Store)
  : M (Result A) :=
  fun w =>
    let (r, st') := op (db w) in
    (Normal r, mkWorld st' (calls w ++ [call])).

Notation "x <- m ;; k" := (bind m (fun x => k))
  (at level 61, m at next level, right associativity).

(** The body of a response. *)
Inductive Json : Type :=
| ErrorJson (error : string)
| SubmittedJson (id : nat) (status : JsValue) (isDuplicate : bool)
    (canonicalId : option nat) (screenshotCount : nat)
| ReportJson (bugReport : Report).

Record Response := mkResponse { statusCode : nat; json : Json }.

(** The body of POST /api/v1/bug-reports. The three required fields are
    checked by the handler and arrive as any JSON value; the optional
    strings have the type the schema of the route lets through. *)
Module Req.
Record SubmitBody := mkSubmitBody
  { appId : JsValue;
    description : JsValue;
    priority : JsValue;
    screenshotBase64 : JsValue;
    screenshotBase64s : JsValue;
    appVersion : option string;
    buildNumber : option string;
    iosVersion : option string;
    deviceModel : option string;
    screenName : option string }.

(** The request: its body, and the id of the authenticated user if any. *)
Record Submit := mkSubmit { body : SubmitBody; user : option string }.
End Req.

(** Dates, after ECMAScript. A time value counts the milliseconds since the
    epoch, in UTC; [LocalTime] and [UTC] move it to and from the zone of the
    server. *)
Definition msPerDay : Z := 86400000.

Definition Day (t : Z) : Z := t / msPerDay.
Definition TimeWithinDay (t : Z) : Z := t mod msPerDay.
Definition MakeDate (day time : Z) : Z := day * msPerDay + time.

Definition LocalTime (env : Env) (t : Z) : Z := (t + LocalTZA env t true)%Z.
Definition UTC (env : Env) (t : Z) : Z := (t - LocalTZA env t false)%Z.

(** [d.setDate(d.getDate() - n)]: in local time, the day of the month goes
    back by [n] and the time within the day stays; the result is read back
    as UTC. [MakeDay(YearFromTime(t), MonthFromTime(t), DateFromTime(t) - n)]
    counts days from the first of the month of [t], which makes it the day
    number [Day(t) - n], also across the start of a month or of a year. *)
Definition setDateBack (env : Env) (n : Z) (tv : Z) : Z :=
  let t := LocalTime env tv in
  UTC env (MakeDate (Day t - n) (TimeWithinDay t)).

(** [findDuplicate]: the result of the lookup is read through [data] alone;
    [data?.id || null] is the id of the row found, or null. An id is a
    non-empty string, hence truthy here and in [submitBugReport]. *)
Definition findDuplicate (env : Env) (fingerprint_ appId : string)
  : M (option nat) :=
  let sevenDaysAgo := setDateBack env 7 (newDate env) in
  res <- await (CallSelect fingerprint_ appId)
           (fun st =>
              (Supabase.attempt (selectFault env)
                 (Supabase.single
                    (Supabase.limit 1
                       (Supabase.order_asc (tie env) created_at
                          (Supabase.is_null canonical_id
                             (Supabase.gte created_at sevenDaysAgo
                                (Supabase.eq_text app_id appId
                                   (Supabase.eq_text fingerprint fingerprint_
                                      (rows st)))))))),
               st)) ;;
  match res with
  | Data data => ret (Some (id data))
  | Error _ => ret None
  end.

(** [uploadScreenshot]: the public URL, or null when the bucket refused. *)
Definition uploadScreenshot (env : Env) (appId base64Data : string)
  : option string :=
  storage env appId base64Data.

(** [if (url) screenshotUrls.push(url)] for one payload. *)
Definition uploadOne (env : Env) (appId base64 : string) : list string :=
  match uploadScreenshot env appId base64 with
  | Some url => if Js.truthy url then [url] else []
  | None => []
  end.

(** The screenshots of a submission: the array when there is one, else the
    single legacy payload. *)
Definition uploadScreenshots (env : Env) (appId : string) (b : Req.SubmitBody)
  : list string :=
  match Req.screenshotBase64s b with
  | JsArray items =>
      flat_map (fun base64 =>
                  match base64 with
                  | JsString s => if Js.truthy s then uploadOne env appId s else []
                  | _ => []
                  end) items
  | _ =>
      match Req.screenshotBase64 b with
      | JsString s => if Js.truthy s then uploadOne env appId s else []
      | _ => []
      end
  end.

(** [!appId || typeof appId !== 'string'] fails. *)
Definition validAppId (v : JsValue) : option string :=
  match v with
  | JsString s => if Js.truthy s then Some s else None
  | _ => None
  end.

(** [!description || typeof description !== 'string' ||
     description.trim().length < 5] fails. *)
Definition validDescription (v : JsValue) : option string :=
  match v with
  | JsString s =>
      if Js.truthy s && (5 <=? Js.length (Js.trim s))%nat then Some s else None
  | _ => None
  end.

(** [!priority || !['low', 'medium', 'high'].includes(priority)] fails. *)
Definition validPriority (v : JsValue) : option string :=
  match v with
  | JsString s =>
      if Js.truthy s
         && existsb (String.eqb s) ["low"; "medium"; "high"]
      then Some s else None
  | _ => None
  end.

(** The object given to [.insert]; the columns it leaves out are NULL, and
    the database fills [id], [created_at] and [updated_at]. *)
Definition newReport (appId : string) (userId : option string)
    (description_ priority_ : string) (screenshotUrls : list string)
    (b : Req.SubmitBody) (fingerprint_ : string)
    (existingCanonicalId : option nat) : Report :=
  {| id := 0;
     app_id := appId;
     user_id := userId;
     description := Js.trim description_;
     priority := priority_;
     status := match existingCanonicalId with
               | Some _ => JsString "duplicate"
               | None => JsString "open"
               end;
     screenshot_url := hd_error screenshotUrls;
     screenshot_urls := match screenshotUrls with
                        | [] => None
                        | _ => Some screenshotUrls
                        end;
     app_version := orNull (Req.appVersion b);
     build_number := orNull (Req.buildNumber b);
     ios_version := orNull (Req.iosVersion b);
     device_model := orNull (Req.deviceModel b);
     screen_name := orNull (Req.screenName b);
     fingerprint := fingerprint_;
     canonical_id := existingCanonicalId;
     duplicate_count := match existingCanonicalId with
                        | Some _ => 0
                        | None => 1
                        end;
     claude_analysis := JsNull;
     suggested_fix := JsNull;
     fix_status := JsNull;
     created_at := 0;
     updated_at := 0 |}.

(** POST /api/v1/bug-reports *)
Definition submitBugReport (env : Env) (req : Req.Submit) : M Response :=
  tryCatch
    (let b := Req.body req in
     let userId := orNull (Req.user req) in
     match validAppId (Req.appId b) with
     | None => ret (mkResponse 400 (ErrorJson "appId is required"))
     | Some appId =>
     match validDescription (Req.description b) with
     | None => ret (mkResponse 400
                      (ErrorJson "description is required (min 5 characters)"))
     | Some description_ =>
     match validPriority (Req.priority b) with
     | None => ret (mkResponse 400
                      (ErrorJson "priority must be low, medium, or high"))
     | Some priority_ =>
         let fingerprint_ :=
           generateFingerprint appId description_ (Req.screenName b) in
         existingCanonicalId <- findDuplicate env fingerprint_ appId ;;
         let screenshotUrls := uploadScreenshots env appId b in
         let payload := newReport appId userId description_ priority_
                          screenshotUrls b fingerprint_ existingCanonicalId in
         res <- await (CallInsert payload) (Supabase.insert env payload) ;;
         match res with
         | Error error => throw error
         | Data data =>
             _ <- match existingCanonicalId with
                  | Some canonicalId =>
                      _ <- await (CallIncrement canonicalId)
                             (Supabase.increment_bug_duplicate_count env canonicalId) ;;
                      ret tt
                  | None => ret tt
                  end ;;
             ret (mkResponse 201
                    (SubmittedJson (id data) (status data)
                       (match existingCanonicalId with
                        | Some _ => true
                        | None => false
                        end)
                       existingCanonicalId (List.length screenshotUrls)))
         end
     end end end)
    (fun error => ret (mkResponse 500 (ErrorJson (message error)))).

(** The object [updates] of [updateBugReport], key after key. *)
Definition buildUpdates (body : list (string * JsValue))
  : list (string * JsValue) :=
  let status_ := getProp body "status" in
  let fixStatus := getProp body "fixStatus" in
  let suggestedFix := getProp body "suggestedFix" in
  let claudeAnalysis := getProp body "claudeAnalysis" in
  (if truthy status_ then [("status", status_)] else [])
  ++ (if truthy fixStatus then [("fix_status", fixStatus)] else [])
  ++ (if isUndefined suggestedFix then [] else [("suggested_fix", suggestedFix)])
  ++ (if isUndefined claudeAnalysis then []
      else [("claude_analysis", claudeAnalysis)]).

(** PATCH /api/v1/bug-reports/:id *)
Definition updateBugReport (env : Env) (target : nat)
    (body : list (string * JsValue)) : M Response :=
  tryCatch
    (let updates := buildUpdates body in
     match updates with
     | [] => ret (mkResponse 400 (ErrorJson "No valid fields to update"))
     | _ :: _ =>
         res <- await (CallUpdate target updates)
                  (Supabase.update env updates target) ;;
         match res with
         | Error error =>
             if String.eqb (code error) "PGRST116"
             then ret (mkResponse 404 (ErrorJson "Bug report not found"))
             else throw error
         | Data data => ret (mkResponse 200 (ReportJson data))
         end
     end)
    (fun error => ret (mkResponse 500 (ErrorJson (message error)))).

(** Running a handler on a table: the response, the table it leaves and the
    calls it made. *)
Definition run (h : M Response) (st : Store) : option Response * World :=
  match h (mkWorld st []) with
  | (Normal r, w) => (Some r, w)
  | (Throw _, w) => (None, w)
  end.

Definition response (h : M Response) (st : Store) : option Response :=
  fst (run h st).

Definition after (h : M Response) (st : Store) : Store := db (snd (run h st)).

Definition issued (h : M Response) (st : Store) : list StoreCall :=
  calls (snd (run h st)).

(* ================================================================== *)
(** ** The reading handlers of the controller *)
(* ================================================================== *)

Module SupabaseRead.

(** [.order(col, { ascending: false })]: as for the ascending order, the
    database decides which of two rows with the same key comes first
    ([before r x]), and may decide otherwise at every query. *)
Fixpoint insertDesc (before : Report -> Report -> bool) (col : Report -> Z)
    (r : Report) (sorted : list Report) :=
  match sorted with
  | [] => [r]
  | x :: rest =>
      if ((col x <? col r) || ((col x =? col r) && before r x))%Z
      then r :: sorted else x :: insertDesc before col r rest
  end.

Definition order_desc (before : Report -> Report -> bool) (col : Report -> Z)
    (q : list Report) : list Report :=
  fold_right (insertDesc before col) [] q.

(** [.range(from, to)]: the client sends [offset = from] and
    [limit = to - from + 1]. *)
Definition range (from to : Z) (q : list Report) : list Report :=
  firstn (Z.to_nat (to - from + 1)) (skipn (Z.to_nat from) q).

(** [.eq('status', v)] for a string [v]. *)
Definition eq_status (v : string) (q : list Report) : list Report :=
  filter (fun r => match status r with
                   | JsString s => String.eqb s v
                   | _ => false
                   end) q.

(** [.eq('canonical_id', v)] *)
Definition eq_canonical (v : nat) (q : list Report) : list Report :=
  filter (fun r => match canonical_id r with
                   | Some c => Nat.eqb c v
                   | None => false
                   end) q.

(** A select of several rows: the rows, or the failure of the call. *)
Definition select (fault : option PostgrestError) (q : list Report)
  : Result (list Report) :=
  Supabase.attempt fault (Data q).

End SupabaseRead.

(** [await] of a call that only reads the table. *)
Definition reading {A} (op : Store -> Result A) : M (Result A) :=
  fun w => (Normal (op (db w)), w).

(** The query string of GET /api/v1/bug-reports. A parameter is absent, a
    string, or (when repeated or nested) an array or an object; [limit] and
    [offset] are absent or strings of decimal digits, as the schema of the
    route lets them through, and are kept as the numbers [Number] reads. *)
Module Query.
Record ListQuery := mkListQuery
  { appId : JsValue;
    status : JsValue;
    priority : JsValue;
    limit : option nat;
    offset : option nat }.
End Query.

(** A value of the object a tally builds: a count, or the text that the
    sum of a function and a number is. *)
Inductive Tally : Type :=
| Count (n : nat)
| Text (s : string).

(** The bodies the reading handlers answer with. *)
Inductive QueryJson : Type :=
| QueryError (error : string)
| ListJson (bugReports : list Report) (limit offset : nat) (hasMore : bool)
| OneJson (bugReport : Report)
| DuplicatesJson (duplicates : list Report) (count : nat)
| StatsJson (total : nat) (byStatus byPriority : list (string * Tally)).

Record QueryResponse := mkQueryResponse { queryStatus : nat; queryJson : QueryJson }.

(** [if (status && typeof status === 'string') query = query.eq('status', status)] *)
Definition withStatus (v : JsValue) (q : list Report) : list Report :=
  match v with
  | JsString s => if Js.truthy s then SupabaseRead.eq_status s q else q
  | _ => q
  end.

Definition withPriority (v : JsValue) (q : list Report) : list Report :=
  match v with
  | JsString s => if Js.truthy s then Supabase.eq_text priority s q else q
  | _ => q
  end.

(** GET /api/v1/bug-reports. The filters narrow the rows before they are
    ordered and cut to the range, in whatever order the builder received
    them. What the database does to the query is given with it: the order
    of rows created at the same instant ([before]) and whether the call
    fails ([fault]). *)
Definition getBugReports (before : Report -> Report -> bool)
    (fault : option PostgrestError) (q : Query.ListQuery) : M QueryResponse :=
  tryCatch
    (let limit := match Query.limit q with Some n => n | None => 50 end in
     let offset := match Query.offset q with Some n => n | None => 0 end in
     match validAppId (Query.appId q) with
     | None => ret (mkQueryResponse 400
                      (QueryError "appId query parameter is required"))
     | Some appId =>
         res <- reading (fun st =>
                  SupabaseRead.select fault
                    (SupabaseRead.range (Z.of_nat offset)
                       (Z.of_nat offset + Z.of_nat limit - 1)
                       (SupabaseRead.order_desc before created_at
                          (withPriority (Query.priority q)
                             (withStatus (Query.status q)
                                (Supabase.is_null canonical_id
                                   (Supabase.eq_text app_id appId (rows st)))))))) ;;
         match res with
         | Error error => throw error
         | Data data =>
             ret (mkQueryResponse 200
                    (ListJson data limit offset
                       (Nat.eqb (List.length data) limit)))
         end
     end)
    (fun error => ret (mkQueryResponse 500 (QueryError (message error)))).

(** GET /api/v1/bug-reports/:id *)
Definition getBugReport (fault : option PostgrestError) (target : nat)
  : M QueryResponse :=
  tryCatch
    (res <- reading (fun st =>
              Supabase.attempt fault
                (Supabase.single (Supabase.eq_id target (rows st)))) ;;
     match res with
     | Error error =>
         if String.eqb (code error) "PGRST116"
         then ret (mkQueryResponse 404 (QueryError "Bug report not found"))
         else throw error
     | Data data => ret (mkQueryResponse 200 (OneJson data))
     end)
    (fun error => ret (mkQueryResponse 500 (QueryError (message error)))).

(** GET /api/v1/bug-reports/:id/duplicates *)
Definition getDuplicates (before : Report -> Report -> bool)
    (fault : option PostgrestError) (target : nat) : M QueryResponse :=
  tryCatch
    (res <- reading (fun st =>
              SupabaseRead.select fault
                (SupabaseRead.order_desc before created_at
                   (SupabaseRead.eq_canonical target (rows st)))) ;;
     match res with
     | Error error => throw error
     | Data data =>
         ret (mkQueryResponse 200 (DuplicatesJson data (List.length data)))
     end)
    (fun error => ret (mkQueryResponse 500 (QueryError (message error)))).

(** The members a plain object inherits from [Object.prototype], each with
    the name of the function it holds. *)
Definition inheritedMembers : list (string * string) :=
  [ ("constructor", "Object");
    ("__defineGetter__", "__defineGetter__");
    ("__defineSetter__", "__defineSetter__");
    ("hasOwnProperty", "hasOwnProperty");
    ("__lookupGetter__", "__lookupGetter__");
    ("__lookupSetter__", "__lookupSetter__");
    ("isPrototypeOf", "isPrototypeOf");
    ("propertyIsEnumerable", "propertyIsEnumerable");
    ("toString", "toString");
    ("valueOf", "valueOf");
    ("toLocaleString", "toLocaleString") ].

(** The own properties of the object, as an association list read by key;
    the order in which the keys are printed plays no part. *)
Fixpoint ownProp (o : list (string * Tally)) (k : string) : option Tally :=
  match o with
  | [] => None
  | (k', v) :: rest => if String.eqb k' k then Some v else ownProp rest k
  end.

Fixpoint setProp (o : list (string * Tally)) (k : string) (v : Tally)
  : list (string * Tally) :=
  match o with
  | [] => [(k, v)]
  | (k', v') :: rest =>
      if String.eqb k' k then (k, v) :: rest else (k', v') :: setProp rest k v
  end.

(** [o[k] = (o[k] || 0) + 1] on an object created by [{}]. An own count goes
    up by one. A key that names an inherited function reads as that function
    first, and [function + 1] is the text of the function followed by "1";
    such a text then grows by "1" at each turn. The accessor [__proto__]
    reads as an object and refuses the text it is assigned, so it leaves the
    object as it was. *)
Definition bump (o : list (string * Tally)) (k : string)
  : list (string * Tally) :=
  match ownProp o k with
  | Some (Count n) => setProp o k (Count (S n))
  | Some (Text s) =>
      if Js.truthy s then setProp o k (Text (s ++ "1")%string) else setProp o k (Count 1)
  | None =>
      if String.eqb k "__proto__" then o
      else
        match find (fun m => String.eqb (fst m) k) inheritedMembers with
        | Some m =>
            setProp o k (Text ("function " ++ snd m ++ "() { [native code] }1")%string)
        | None => setProp o k (Count 1)
        end
  end.

(** [rows.forEach(r => { o[key(r)] = (o[key(r)] || 0) + 1 })] from [{}]. *)
Definition tally (keys : list string) : list (string * Tally) :=
  fold_left bump keys [].

(** [String(v)], the property key a value gives; a number is an integer
    below 10^21 in magnitude and reads in decimal. *)
Fixpoint toPropertyKey (v : JsValue) : string :=
  match v with
  | JsUndefined => "undefined"
  | JsNull => "null"
  | JsBool true => "true"
  | JsBool false => "false"
  | JsNumber n => NilZero.string_of_int (Z.to_int n)
  | JsString s => s
  | JsArray items =>
      (fix join (l : list JsValue) : string :=
         let element x :=
           match x with
           | JsUndefined | JsNull => ""
           | _ => toPropertyKey x
           end in
         match l with
         | [] => ""
         | [x] => element x
         | x :: rest => (element x ++ "," ++ join rest)%string
         end) items
  | JsObject _ => "[object Object]"
  end.

(** GET /api/v1/bug-reports/stats *)
Definition getStats (statusFault priorityFault : option PostgrestError)
    (appId_ : JsValue) : M QueryResponse :=
  tryCatch
    (match validAppId appId_ with
     | None => ret (mkQueryResponse 400
                      (QueryError "appId query parameter is required"))
     | Some appId =>
         statusRes <- reading (fun st =>
                        SupabaseRead.select statusFault
                          (Supabase.is_null canonical_id
                             (Supabase.eq_text app_id appId (rows st)))) ;;
         match statusRes with
         | Error statusError => throw statusError
         | Data statusCounts =>
             priorityRes <- reading (fun st =>
                              SupabaseRead.select priorityFault
                                (Supabase.is_null canonical_id
                                   (Supabase.eq_text app_id appId (rows st)))) ;;
             match priorityRes with
             | Error priorityError => throw priorityError
             | Data priorityCounts =>
                 ret (mkQueryResponse 200
                        (StatsJson (List.length statusCounts)
                           (tally (map (fun r => toPropertyKey (status r)) statusCounts))
                           (tally (map priority priorityCounts))))
             end
         end
     end)
    (fun error => ret (mkQueryResponse 500 (QueryError (message error)))).

(** What a reading handler answers on a table, and the table it leaves. *)
Definition answer (h : M QueryResponse) (st : Store) : option QueryResponse :=
  match fst (h (mkWorld st [])) with
  | Normal r => Some r
  | Throw _ => None
  end.

Definition leaves (h : M QueryResponse) (st : Store) : Store :=
  db (snd (h (mkWorld st []))).

(* ================================================================== *)
(** ** Authentication middleware *)
(* ================================================================== *)

(** What the identity service answers to [auth.getUser()] of a client that
    sends a given Authorization header: a user (by id), no user (an error, or
    an empty answer), or an exception on the way. *)
Inductive IdentityAnswer : Type :=
| KnownUser (userId : string)
| NoUser
| Thrown.

(** A middleware answers the request, or hands it on. *)
Inductive Next (A : Type) : Type :=
| Respond (r : Response)
| Continue (a : A).
Arguments Respond {A} r.
Arguments Continue {A} a.

(** [s.split(' ')] *)
Fixpoint splitOn (sep : ascii) (l : list ascii) : list (list ascii) :=
  match l with
  | [] => [[]]
  | c :: rest =>
      if Ascii.eqb c sep then [] :: splitOn sep rest
      else match splitOn sep rest with
           | segment :: segments => (c :: segment) :: segments
           | [] => [[c]]
           end
  end.

(** [authHeader.split(' ')[1]], as the template [`Bearer ${token}`] prints it. *)
Definition bearerToken (authHeader : string) : string :=
  match splitOn " "%char (Js.chars authHeader) with
  | _ :: token :: _ => Js.str token
  | _ => "undefined"
  end.

(** [!authHeader || !authHeader.startsWith('Bearer ')] fails. *)
Definition bearerHeader (authorization : option string) : option string :=
  match authorization with
  | Some authHeader =>
      if Js.truthy authHeader && String.prefix "Bearer " authHeader
      then Some authHeader else None
  | None => None
  end.

(** [authenticate] of middleware/auth.ts *)
Definition authenticate (getUser : string -> IdentityAnswer)
    (authorization : option string) : Next string :=
  match bearerHeader authorization with
  | None => Respond (mkResponse 401
                       (ErrorJson "Unauthorized: Missing or invalid token"))
  | Some authHeader =>
      match getUser ("Bearer " ++ bearerToken authHeader)%string with
      | KnownUser userId => Continue userId
      | NoUser => Respond (mkResponse 401 (ErrorJson "Unauthorized: Invalid token"))
      | Thrown => Respond (mkResponse 500
                             (ErrorJson "Internal Server Error during authentication"))
      end
  end.

(** [optionalAuth]: the user when the token names one, null in every other
    case. *)
Definition optionalAuth (getUser : string -> IdentityAnswer)
    (authorization : option string) : Next (option string) :=
  match bearerHeader authorization with
  | None => Continue None
  | Some authHeader =>
      match getUser ("Bearer " ++ bearerToken authHeader)%string with
      | KnownUser userId => Continue (Some userId)
      | NoUser => Continue None
      | Thrown => Continue None
      end
  end.

(* ================================================================== *)
(** ** The schemas of the routes *)
(* ================================================================== *)

Module Schema.

(** [z.string().min(lo).max(hi)] *)
Definition stringBetween (lo hi : Z) (v : JsValue) : bool :=
  match v with
  | JsString s =>
      ((lo <=? Z.of_nat (Js.length s)) && (Z.of_nat (Js.length s) <=? hi))%Z
  | _ => false
  end.

(** [z.enum([...])] *)
Definition enum (values : list string) (v : JsValue) : bool :=
  match v with
  | JsString s => existsb (String.eqb s) values
  | _ => false
  end.

(** [.optional()] *)
Definition optional (p : JsValue -> bool) (v : JsValue) : bool :=
  match v with
  | JsUndefined => true
  | _ => p v
  end.

(** [z.string().max(hi).optional()] for a field that is absent or a string. *)
Definition optionalText (hi : Z) (v : option string) : bool :=
  match v with
  | Some s => (Z.of_nat (Js.length s) <=? hi)%Z
  | None => true
  end.

(** [z.record(z.string(), z.any())]: an object that is not an array. *)
Definition record (v : JsValue) : bool :=
  match v with
  | JsObject _ => true
  | _ => false
  end.

Definition BugReportPriorityEnum : JsValue -> bool :=
  enum ["low"; "medium"; "high"].

Definition BugReportStatusEnum : JsValue -> bool :=
  enum ["open"; "in_progress"; "resolved"; "wont_fix"; "duplicate"].

Definition FixStatusEnum : JsValue -> bool :=
  enum ["pending"; "accepted"; "rejected"; "implemented"].

(** [SubmitBugReportSchema], the body. *)
Definition SubmitBugReportSchema (b : Req.SubmitBody) : bool :=
  stringBetween 1 100 (Req.appId b)
  && stringBetween 5 5000 (Req.description b)
  && BugReportPriorityEnum (Req.priority b)
  && optional (stringBetween 0 7000000) (Req.screenshotBase64 b)
  && optionalText 50 (Req.appVersion b)
  && optionalText 50 (Req.buildNumber b)
  && optionalText 50 (Req.iosVersion b)
  && optionalText 100 (Req.deviceModel b)
  && optionalText 200 (Req.screenName b).

(** [UpdateBugReportSchema], the body. *)
Definition UpdateBugReportSchema (body : list (string * JsValue)) : bool :=
  optional BugReportStatusEnum (getProp body "status")
  && optional FixStatusEnum (getProp body "fixStatus")
  && optional (stringBetween 0 5000) (getProp body "suggestedFix")
  && optional record (getProp body "claudeAnalysis").

End Schema.

(* ================================================================== *)
(** ** The routes *)
(* ================================================================== *)

(** What reaches the router: the Authorization header and the address of the
    client, when there is one. *)
Record Incoming := mkIncoming { authorization : option string; ip : option string }.

(** [keyGenerator] of the limiter: [authReq.user?.id || req.ip || 'anonymous'] *)
Definition keyGenerator (user : option string) (ip_ : option string) : string :=
  match orNull user with
  | Some userId => userId
  | None => match orNull ip_ with
            | Some address => address
            | None => "anonymous"
            end
  end.

(** [bugReportLimiter]: the library decides, per key, whether the window is
    used up, and then answers 429 with the message. *)
Definition bugReportLimiter (usedUp : string -> bool) (user : option string)
    (ip_ : option string) : Next unit :=
  if usedUp (keyGenerator user ip_)
  then Respond (mkResponse 429
         (ErrorJson "Too many bug reports submitted. Please wait a minute before submitting another."))
  else Continue tt.

(** What the router answers: the response of a middleware or of the
    handler, or that of [errorHandler] when the handler rejects. *)
Inductive RouteResponse : Type :=
| Answered (r : Response)
| Failed (statusCode : nat) (error : string).

(** [errorHandler]: a PostgREST error carries no status code; the message
    defaults to 'Internal Server Error'. *)
Definition errorHandler (err : PostgrestError) : RouteResponse :=
  Failed 500 (if Js.truthy (message err) then message err
              else "Internal Server Error").

(** [wrapAsync(fn)]: [fn(req, res, next).catch(next)] *)
Definition wrapAsync (fn : M Response) : M RouteResponse :=
  fun w =>
    match fn w with
    | (Normal r, w') => (Normal (Answered r), w')
    | (Throw e, w') => (Normal (errorHandler e), w')
    end.

Section Routes.

(** The middleware [validate(schema)] is not part of the sources at hand: it
    is taken as given, a function of the body that answers the request or
    hands a body on. *)
Variable validateSubmit : Req.SubmitBody -> Next Req.SubmitBody.
Variable validateUpdate :
  list (string * JsValue) -> Next (list (string * JsValue)).

(** POST /api/v1/bug-reports: limiter, optional authentication, validation,
    handler. The limiter runs on the request as it arrives, before any
    middleware has attached a user. *)
Definition postBugReport (usedUp : string -> bool)
    (getUser : string -> IdentityAnswer) (env : Env) (req : Incoming)
    (body : Req.SubmitBody) : M RouteResponse :=
  match bugReportLimiter usedUp None (ip req) with
  | Respond r => ret (Answered r)
  | Continue _ =>
      match optionalAuth getUser (authorization req) with
      | Respond r => ret (Answered r)
      | Continue user =>
          match validateSubmit body with
          | Respond r => ret (Answered r)
          | Continue body' =>
              wrapAsync (submitBugReport env (Req.mkSubmit body' user))
          end
      end
  end.

(** PATCH /api/v1/bug-reports/:id: authentication, validation, handler. *)
Definition patchBugReport (getUser : string -> IdentityAnswer) (env : Env)
    (req : Incoming) (target : nat) (body : list (string * JsValue))
  : M RouteResponse :=
  match authenticate getUser (authorization req) with
  | Respond r => ret (Answered r)
  | Continue _ =>
      match validateUpdate body with
      | Respond r => ret (Answered r)
      | Continue body' => wrapAsync (updateBugReport env target body')
      end
  end.

End Routes.

(* ================================================================== *)
(** ** Running the handlers *)
(* ================================================================== *)

(** The value a computation completes with on a given table. *)
Definition eval {A} (m : M A) (st : Store) : Completion A :=
  fst (m (mkWorld st [])).

(** One request to the service. *)
Inductive Operation : Type :=
| Submit (env : Env) (req : Req.Submit)
| Update (env : Env) (target : nat) (body : list (string * JsValue)).

Definition handler (op : Operation) : M Response :=
  match op with
  | Submit env req => submitBugReport env req
  | Update env target body => updateBugReport env target body
  end.

(** The tables reached from the empty one by requests served one after the
    other, whatever their input and whatever the store does to each call. *)
Inductive reachable : Store -> Prop :=
| reachable_empty : reachable emptyStore
| reachable_step (st : Store) (op : Operation) :
    reachable st -> reachable (after (handler op) st).

(** Any requests, served one after the other. *)
Definition serveAll (ops : list Operation) (st : Store) : Store :=
  fold_left (fun s op => after (handler op) s) ops st.

(** Submissions served one after the other. *)
Definition submitAll (batch : list (Env * Req.Submit)) (st : Store) : Store :=
  fold_left (fun s er => after (submitBugReport (fst er) (snd er)) s) batch st.

(** The start of the window of [findDuplicate]. *)
Definition windowStart (env : Env) : Z := setDateBack env 7 (newDate env).

(** The rows the filters of [findDuplicate] keep. *)
Definition candidates (env : Env) (fp appId : string) (st : Store) : list Report :=
  Supabase.is_null canonical_id
    (Supabase.gte created_at (windowStart env)
       (Supabase.eq_text app_id appId
          (Supabase.eq_text fingerprint fp (rows st)))).

(** The outcome of the lookup of [findDuplicate], as a function of the table. *)
Definition lookup (env : Env) (fp appId : string) (st : Store) : option nat :=
  match Supabase.attempt (selectFault env)
          (Supabase.single (Supabase.limit 1
             (Supabase.order_asc (tie env) created_at (candidates env fp appId st))))
  with
  | Data data => Some (id data)
  | Error _ => None
  end.

(** The row the database makes of an inserted object. *)
Definition stamped (env : Env) (st : Store) (payload : Report) : Report :=
  set_id (next_id st) (set_created_at (now env) (set_updated_at (now env) payload)).

(** What the SQL function does to one row it addresses. *)
Definition incremented (env : Env) (r : Report) : Report :=
  Supabase.update_bug_report_timestamp env
    (set_updated_at (now env) (set_duplicate_count (duplicate_count r + 1) r)).

(** The three checks of the handler, together. *)
Definition validated (req : Req.Submit) (appId description_ priority_ : string)
  : Prop :=
  validAppId (Req.appId (Req.body req)) = Some appId /\
  validDescription (Req.description (Req.body req)) = Some description_ /\
  validPriority (Req.priority (Req.body req)) = Some priority_.

(** The object a valid submission inserts on a given table. *)
Definition payloadOf (env : Env) (req : Req.Submit)
    (appId description_ priority_ : string) (st : Store) : Report :=
  let fp := generateFingerprint appId description_ (Req.screenName (Req.body req)) in
  newReport appId (orNull (Req.user req)) description_ priority_
    (uploadScreenshots env appId (Req.body req)) (Req.body req) fp
    (lookup env fp appId st).

(** The row an update makes of a row it addresses, before the trigger. *)
Definition written (body : list (string * JsValue)) (r : Report) : Report :=
  let r1 := if truthy (getProp body "status")
            then set_status (getProp body "status") r else r in
  let r2 := if truthy (getProp body "fixStatus")
            then set_fix_status (getProp body "fixStatus") r1 else r1 in
  let r3 := if isUndefined (getProp body "suggestedFix") then r2
            else set_suggested_fix (getProp body "suggestedFix") r2 in
  if isUndefined (getProp body "claudeAnalysis") then r3
  else set_claude_analysis (getProp body "claudeAnalysis") r3.

(** The rows an update leaves. *)
Definition rowsUpdated (env : Env) (target : nat)
    (body : list (string * JsValue)) (q : list Report) : list Report :=
  map (fun r => if Nat.eqb (id r) target
                then Supabase.update_bug_report_timestamp env (written body r)
                else r) q.

(* ================================================================== *)
(** ** Text and digests *)
(* ================================================================== *)

(** The character list the normalisation computes. *)
Definition normalizeChars (l : list ascii) : list ascii :=
  firstn 200 (Js.trimEnd (Js.trimStart (filter keptByRegex (map Js.lowerChar l)))).

(** A list starts clean when it is empty or its first element fails [p]. *)
Definition headFails {A} (p : A -> bool) (l : list A) : Prop :=
  match l with [] => True | x :: _ => p x = false end.

(** The text ends in a white-space character. *)
Definition endsWithWhiteSpace (s : string) : bool :=
  match rev (Js.chars s) with
  | c :: _ => Js.isWhiteSpace c
  | [] => false
  end.

(** All the words of a given length over an alphabet. *)
Fixpoint wordsOver (alphabet : list ascii) (n : nat) : list (list ascii) :=
  match n with
  | O => [[]]
  | S n' => flat_map (fun c => map (cons c) (wordsOver alphabet n')) alphabet
  end.

(** A well-formed string read from the left: it is empty, or starts with a
    unit that is no surrogate, or starts with a surrogate pair. *)
Inductive Parsed : list Z -> Prop :=
  | parsed_nil : Parsed []
  | parsed_unit c rest :
      (0 <= c < 65536)%Z -> Utf16.isHigh c = false -> Utf16.isLow c = false ->
      Parsed rest -> Parsed (c :: rest)
  | parsed_pair hi lo rest :
      Utf16.isHigh hi = true -> Utf16.isLow lo = true ->
      Parsed rest -> Parsed (hi :: lo :: rest).

(** Two messages with different bytes and the same SHA-256 digest. *)
Definition sha256Collision (m1 m2 : list Z) : Prop :=
  m1 <> m2 /\
  SHA256.hexDigest (SHA256.hash m1) = SHA256.hexDigest (SHA256.hash m2).

(* ================================================================== *)
(** ** The resolver, in the words of the specification *)
(* ================================================================== *)

(** Seven days, as a duration: seven times twenty-four hours. *)
Definition sevenDays : Z := 7 * 24 * 60 * 60 * 1000.

(** The specification's side of the resolver: the records it may consider,
    in the words of the contract (same tenant, canonical, same fingerprint,
    created no earlier than the start of the window). *)
Definition eligible (fp tenant : string) (since : Z) (r : Report) : Prop :=
  app_id r = tenant /\ canonical_id r = None /\ fingerprint r = fp /\
  (since <= created_at r)%Z.


(* ================================================================== *)
(** ** Consistency of a table *)
(* ================================================================== *)

(** Identifiers come from the counter: every row is older than the next id. *)
Definition idsBelowNext (st : Store) : Prop :=
  forall r, In r (rows st) -> id r < next_id st.

(** Identifiers are fresh and unique. *)
Definition wellFormed (st : Store) : Prop :=
  idsBelowNext st /\ NoDup (map id (rows st)).

(** A record is canonical, or points at another record of its tenant that
    is canonical. *)
Definition rooted (st : Store) (r : Report) : Prop :=
  match canonical_id r with
  | None => True
  | Some c =>
      c <> id r /\
      exists root, In root (rows st) /\ id root = c /\
                   app_id root = app_id r /\ canonical_id root = None
  end.

Definition noChain (st : Store) : Prop := forall r, In r (rows st) -> rooted st r.

Definition consistent (st : Store) : Prop := wellFormed st /\ noChain st.

(** A change of rows that keeps identifier, tenant and link of each. *)
Definition keepsKeys (g : Report -> Report) : Prop :=
  forall r, id (g r) = id r /\ app_id (g r) = app_id r /\
            canonical_id (g r) = canonical_id r.

(* ================================================================== *)
(** ** What an update may change *)
(* ================================================================== *)

(** The columns no update addresses, the last-update stamp apart. *)
Definition frame (r r' : Report) : Prop :=
  id r' = id r /\ app_id r' = app_id r /\ user_id r' = user_id r /\
  description r' = description r /\ priority r' = priority r /\
  screenshot_url r' = screenshot_url r /\
  screenshot_urls r' = screenshot_urls r /\
  app_version r' = app_version r /\ build_number r' = build_number r /\
  ios_version r' = ios_version r /\ device_model r' = device_model r /\
  screen_name r' = screen_name r /\
  fingerprint r' = fingerprint r /\ canonical_id r' = canonical_id r /\
  duplicate_count r' = duplicate_count r /\ created_at r' = created_at r.

(** A column an update may write: it keeps its value, or takes the value the
    request carries for it. *)
Definition keptOrSet (supplied : bool) (v old new : JsValue) : Prop :=
  if supplied then new = v else new = old.

(** How an update relates a row before and after. *)
Definition updated (env : Env) (target : nat) (body : list (string * JsValue))
    (r r' : Report) : Prop :=
  if Nat.eqb (id r) target then
    frame r r' /\
    keptOrSet (truthy (getProp body "status")) (getProp body "status")
      (status r) (status r') /\
    keptOrSet (truthy (getProp body "fixStatus")) (getProp body "fixStatus")
      (fix_status r) (fix_status r') /\
    keptOrSet (negb (isUndefined (getProp body "suggestedFix")))
      (getProp body "suggestedFix") (suggested_fix r) (suggested_fix r') /\
    keptOrSet (negb (isUndefined (getProp body "claudeAnalysis")))
      (getProp body "claudeAnalysis") (claude_analysis r) (claude_analysis r') /\
    updated_at r' = now env
  else r' = r.

(** A field of the body is supplied when the body carries a value for it. *)
Definition supplied (body : list (string * JsValue)) (field : string) : Prop :=
  getProp body field <> JsUndefined.

(** An updatable column keeps its value, or takes the supplied one. *)
Definition keptOrSupplied (body : list (string * JsValue)) (field : string)
    (old new : JsValue) : Prop :=
  new = old \/ (supplied body field /\ new = getProp body field).

(** What an update may do to a row: nothing outside the four columns and the
    last-update stamp, and to each of the four only what was supplied. *)
Definition writesOnlySupplied (env : Env) (body : list (string * JsValue))
    (r r' : Report) : Prop :=
  frame r r' /\
  keptOrSupplied body "status" (status r) (status r') /\
  keptOrSupplied body "fixStatus" (fix_status r) (fix_status r') /\
  keptOrSupplied body "suggestedFix" (suggested_fix r) (suggested_fix r') /\
  keptOrSupplied body "claudeAnalysis" (claude_analysis r) (claude_analysis r') /\
  (updated_at r' = updated_at r \/ updated_at r' = now env).

(** A field reads the same in two bodies, or is falsy in the first and
    absent from the second. *)
Definition sameOrFalsyAbsent (body body' : list (string * JsValue))
    (field : string) : Prop :=
  getProp body' field = getProp body field \/
  (truthy (getProp body field) = false /\ getProp body' field = JsUndefined).

(* ================================================================== *)
(** ** Clusters of one fingerprint *)
(* ================================================================== *)


(** The records whose canonical_id points at a given record. *)
Definition duplicatesOf (c : nat) (st : Store) : list Report :=
  filter (fun r => match canonical_id r with
                   | Some c' => Nat.eqb c' c
                   | None => false
                   end) (rows st).




(* ================================================================== *)
(** ** Sample requests and tables *)
(* ================================================================== *)

(** A description whose cleaned text has a white-space character in position
    200: 199 letters, a space, one more letter. *)
Definition longDescription : string :=
  Js.str (repeat "a"%char 199 ++ [" "%char; "b"%char]).

(** A row, given its deduplication columns and its creation time. *)
Definition sampleRow (i : nat) (appId fp : string) (canonical : option nat)
    (count created : Z) : Report :=
  mkReport i appId None "crash on launch" "high"
    (match canonical with Some _ => JsString "duplicate" | None => JsString "open" end)
    None None None None None None None fp canonical count
    JsNull JsNull JsNull created created.

(** A server on UTC. *)
Definition utc : Z -> bool -> Z := fun _ _ => 0%Z.

(** A database that returns rows of equal key in the order of the table. *)
Definition tableOrder : Report -> Report -> bool := fun _ _ => true.

(** New York around two changes of the clocks of 2024: forward by an hour
    on 10 March at 07:00 UTC, back by an hour on 3 November at 06:00 UTC.
    A local time that occurs twice, or that is skipped, is read with the
    offset before the change. *)
Definition newYork (t : Z) (isUTC : bool) : Z :=
  let hour := 3600000%Z in
  let forward := 1710054000000%Z in
  let back := 1730613600000%Z in
  if isUTC then
    if (t <? forward)%Z then (-5 * hour)%Z
    else if (t <? back)%Z then (-4 * hour)%Z else (-5 * hour)%Z
  else
    if (t <? forward - 4 * hour)%Z then (-5 * hour)%Z
    else if (t <? back - 4 * hour)%Z then (-4 * hour)%Z else (-5 * hour)%Z.

(** At instant [t] on both clocks, with the store up and no screenshot
    stored. *)
Definition quietEnv (t : Z) : Env :=
  mkEnv t tableOrder t utc None None None None (fun _ _ => None).

(** Three canonical records of one fingerprint, created at 100 < 200 < 300,
    stored out of order, and a duplicate. *)
Definition threeCanonicals : Store :=
  mkStore [ sampleRow 0 "app1" "fp" None 1 200;
            sampleRow 1 "app1" "fp" None 1 100;
            sampleRow 2 "app1" "fp" (Some 1) 0 150;
            sampleRow 3 "app1" "fp" None 1 300 ] 4.

(** The scenario of the specification: two reports of tenant app1 whose
    descriptions have the same cleaned text. *)
Definition crashBody (d p : string) : Req.SubmitBody :=
  Req.mkSubmitBody (JsString "app1") (JsString d) (JsString p)
    JsUndefined JsUndefined None None None None None.

Definition firstReport : Req.Submit :=
  Req.mkSubmit (crashBody "Crash on launch!!" "high") None.

Definition secondReport : Req.Submit :=
  Req.mkSubmit (crashBody "crash on launch" "low") None.

(** The table after the first report, and after the second. *)
Definition afterFirst : Store :=
  after (submitBugReport (quietEnv 1000) firstReport) emptyStore.

Definition afterSecond : Store :=
  after (submitBugReport (quietEnv 2000) secondReport) afterFirst.

(** The columns of the deduplication, row by row. *)
Definition dedupColumns (st : Store) : list (nat * option nat * Z) :=
  map (fun r => (id r, canonical_id r, duplicate_count r)) (rows st).

(** The store cannot be reached: the client reports the failed fetch. *)
Definition fetchFailed : PostgrestError := mkError "" "TypeError: fetch failed".


Definition springEnv : Env :=
  mkEnv 1710244800000 tableOrder 1710244800000 newYork None None None None
    (fun _ _ => None).

(** At instant [t], with the increment failing. *)
Definition incrementDown (t : Z) : Env :=
  mkEnv t tableOrder t utc None None (Some fetchFailed) None (fun _ _ => None).

(** At instant [t], with the lookup failing. *)
Definition lookupDown (t : Z) : Env :=
  mkEnv t tableOrder t utc (Some fetchFailed) None None None (fun _ _ => None).

Definition crashFingerprint : string :=
  generateFingerprint "app1" "crash on launch" None.

(** The scenario, with a third report exactly seven days after the first. *)
Definition threeReports : list (Env * Req.Submit) :=
  [ (quietEnv 1000, firstReport);
    (quietEnv 2000, secondReport);
    (quietEnv (1000 + sevenDays), firstReport) ].

(* ================================================================== *)
(** ** Vocabulary of the further properties *)
(* ================================================================== *)

(** The columns that neither an update nor the increment touches, as far as
    the content of a report goes. *)
Definition sameReport (r r' : Report) : Prop :=
  id r' = id r /\ app_id r' = app_id r /\ user_id r' = user_id r /\
  description r' = description r /\ priority r' = priority r /\
  screen_name r' = screen_name r /\ fingerprint r' = fingerprint r /\
  canonical_id r' = canonical_id r /\ created_at r' = created_at r /\
  screenshot_url r' = screenshot_url r /\ screenshot_urls r' = screenshot_urls r.

(** The row the increment makes of a row: the target counts one more. *)
Definition incrementRow (env : Env) (c : nat) (r : Report) : Report :=
  if Nat.eqb (id r) c then incremented env r else r.

(** The row an update makes of a row. *)
Definition updateRow (env : Env) (target : nat) (body : list (string * JsValue))
    (r : Report) : Report :=
  if Nat.eqb (id r) target
  then Supabase.update_bug_report_timestamp env (written body r) else r.

(** The tables one request can make of a table. *)
Inductive stepsTo (st : Store) : Store -> Prop :=
| step_nothing : stepsTo st st
| step_insert (env : Env) (req : Req.Submit) (a d p : string) :
    validated req a d p ->
    lookup env (generateFingerprint a d (Req.screenName (Req.body req))) a st = None ->
    stepsTo st (mkStore (rows st ++ [stamped env st (payloadOf env req a d p st)])
                        (S (next_id st)))
| step_duplicate (env : Env) (req : Req.Submit) (a d p : string) (c : nat)
    (counted : bool) :
    validated req a d p ->
    lookup env (generateFingerprint a d (Req.screenName (Req.body req))) a st = Some c ->
    (counted = false -> rpcFault env <> None) ->
    stepsTo st
      (mkStore (map (if counted then incrementRow env c else fun r => r)
                    (rows st ++ [stamped env st (payloadOf env req a d p st)]))
               (S (next_id st)))
| step_update (env : Env) (target : nat) (body : list (string * JsValue)) :
    stepsTo st (mkStore (map (updateRow env target body) (rows st)) (next_id st)).

(** Requests served one after the other, none of whose increments fails. *)
Inductive countingRun : Store -> Prop :=
| counting_empty : countingRun emptyStore
| counting_step (st : Store) (op : Operation) :
    countingRun st ->
    match op with
    | Submit env _ => rpcFault env = None
    | Update _ _ _ => True
    end ->
    countingRun (after (handler op) st).

(** The record passed the checks of a submission. *)
Definition wellShaped (r : Report) : Prop :=
  Js.truthy (app_id r) = true /\
  In (priority r) ["low"; "medium"; "high"] /\
  Js.trim (description r) = description r /\
  5 <= Js.length (description r).

(** The count a record shows: at least one on a canonical record, zero on a
    duplicate. *)
Definition countShape (r : Report) : Prop :=
  match canonical_id r with
  | None => (1 <= duplicate_count r)%Z
  | Some _ => duplicate_count r = 0%Z
  end.

(** The count of a canonical record is itself and its duplicates. *)
Definition countsItsDuplicates (st : Store) : Prop :=
  forall c, In c (rows st) -> canonical_id c = None ->
            duplicate_count c = (1 + Z.of_nat (List.length (duplicatesOf (id c) st)))%Z.

(** Trimming both ends, on characters. *)
Definition trimChars (l : list ascii) : list ascii := Js.trimEnd (Js.trimStart l).

(** A duplicate has the fingerprint of the record it points at. *)
Definition mirrorsCanonical (st : Store) (r : Report) : Prop :=
  match canonical_id r with
  | None => True
  | Some c =>
      exists root, In root (rows st) /\ id root = c /\
                   fingerprint root = fingerprint r
  end.

(** Newest first: no later row is newer than an earlier one. *)
Definition newestFirst (l : list Report) : Prop :=
  StronglySorted (fun r r' => (created_at r' <= created_at r)%Z) l.

(** What the list handler keeps of a table for a tenant, before ordering and
    paging. *)
Definition matching (appId : string) (q : Query.ListQuery) (st : Store)
  : list Report :=
  withPriority (Query.priority q)
    (withStatus (Query.status q)
       (Supabase.is_null canonical_id (Supabase.eq_text app_id appId (rows st)))).

(** The same request for another page. *)
Definition pageOf (q : Query.ListQuery) (offset_ limit_ : nat) : Query.ListQuery :=
  Query.mkListQuery (Query.appId q) (Query.status q) (Query.priority q)
    (Some limit_) (Some offset_).

(** A filter of the list request is in force when it is a non-empty string;
    the rows it lets through carry that value. *)
Definition passesFilter (filter_ : JsValue) (value : JsValue) : Prop :=
  forall s, filter_ = JsString s -> s <> "" -> value = JsString s.

(** No two of the rows were created at the same instant. *)
Definition distinctTimes (l : list Report) : Prop := NoDup (map created_at l).

(** The rows a list request shows: those of the answer when it is a list,
    none otherwise. *)
Definition listed (before : Report -> Report -> bool)
    (fault : option PostgrestError) (q : Query.ListQuery) (st : Store)
  : list Report :=
  match answer (getBugReports before fault q) st with
  | Some (mkQueryResponse _ (ListJson data _ _ _)) => data
  | _ => []
  end.

(** A key that names nothing a plain object inherits. *)
Definition plainKey (k : string) : Prop :=
  k <> "__proto__" /\
  find (fun m => String.eqb (fst m) k) inheritedMembers = None.

(** The entry a tally holds for a key met [n] times: none, or the count. *)
Definition countOf (n : nat) : option Tally :=
  match n with
  | 0 => None
  | S _ => Some (Count n)
  end.

(** The count a tally shows for a key, zero when it shows none. *)
Definition countIn (o : list (string * Tally)) (k : string) : nat :=
  match ownProp o k with
  | Some (Count n) => n
  | _ => 0
  end.

(** The canonical records of a tenant. *)
Definition ofTenant (appId : string) (r : Report) : bool :=
  String.eqb (app_id r) appId
  && match canonical_id r with None => true | Some _ => false end.

(** The number of rows of a table that pass a test. *)
Definition numberOf (p : Report -> bool) (st : Store) : nat :=
  List.length (filter p (rows st)).

(** A text without a space. *)
Definition noSpace (t : string) : bool :=
  forallb (fun c => negb (Ascii.eqb c " ")) (Js.chars t).

(** Running a route on a table: what it answers, the table it leaves and
    the calls it made. *)
Definition routeAnswer (h : M RouteResponse) (st : Store) : option RouteResponse :=
  match fst (h (mkWorld st [])) with
  | Normal r => Some r
  | Throw _ => None
  end.

Definition routeAfter (h : M RouteResponse) (st : Store) : Store :=
  db (snd (h (mkWorld st []))).

Definition routeIssued (h : M RouteResponse) (st : Store) : list StoreCall :=
  calls (snd (h (mkWorld st []))).

(** The column an update writes for a field of its body, and what a record
    holds in it. *)
Definition columnOf (field : string) : string :=
  if String.eqb field "status" then "status"
  else if String.eqb field "fixStatus" then "fix_status"
  else if String.eqb field "suggestedFix" then "suggested_fix"
  else "claude_analysis".

Definition columnValue (field : string) (r : Report) : JsValue :=
  if String.eqb field "status" then status r
  else if String.eqb field "fixStatus" then fix_status r
  else if String.eqb field "suggestedFix" then suggested_fix r
  else claude_analysis r.

(** The two screenshot columns agree: the list is null or non-empty, of
    non-empty addresses, and the single column holds its first address. *)
Definition screenshotsAgree (r : Report) : Prop :=
  match screenshot_urls r with
  | Some urls =>
      urls <> [] /\ screenshot_url r = hd_error urls /\
      Forall (fun url => Js.truthy url = true) urls
  | None => screenshot_url r = None
  end.

(* ================================================================== *)
(** ** Checks of the digest against published test vectors *)
(* ================================================================== *)

Example sha_abc : SHA256.sha256Hex "abc" =
  "ba7816bf8f01cfea414140de5dae2223b00361a396177a9cb410ff61f20015ad".
Proof. vm_compute. reflexivity. Qed.

Example sha_empty : SHA256.sha256Hex "" =
  "e3b0c44298fc1c149afbf4c8996fb92427ae41e4649b934ca495991b7852b855".
Proof. vm_compute. reflexivity. Qed.

Example sha_two_blocks : SHA256.sha256Hex
  "aaaaaaaaaaaaaaaaaaaaaaaaaaaaaaaaaaaaaaaaaaaaaaaaaaaaaaaaaaaaaaaaaaaaaa" =
  "6bd5e5034855a11241f0dee8fc72850ffd9955b28347a86428b5fa19119f6ad0".
Proof. vm_compute. reflexivity. Qed.

Example sha_55 : SHA256.sha256Hex
  "aaaaaaaaaaaaaaaaaaaaaaaaaaaaaaaaaaaaaaaaaaaaaaaaaaaaaaa" =
  "9f4390f8d30c2dd92ec9f095b65e2b9ae9b0a925a5258e241c9f1e910f734318".
Proof. vm_compute. reflexivity. Qed.

Example sha_56 : SHA256.sha256Hex
  "aaaaaaaaaaaaaaaaaaaaaaaaaaaaaaaaaaaaaaaaaaaaaaaaaaaaaaaa" =
  "b35439a4ac6f0948b6d6f9e3c6af0f5f590ce20f1bde7090ef7970686ec6738a".
Proof. vm_compute. reflexivity. Qed.

(** "caf\u00e9 x": a character above U+007F takes two bytes. *)
Example sha_latin1 :
  SHA256.sha256Hex ("caf" ++ String (ascii_of_nat 233) " x") =
  "06c7baac6912b915966971b1e47734224e6237ceb0cc71c3154e68b0e4470722".
Proof. vm_compute. reflexivity. Qed.

Example fingerprint_scenario :
  generateFingerprint "app1" "Crash on launch!!" None =
  "f5c3b6bbd66679c846eb51232dd92577dc755df6fc12bb375050117917fee72a".
Proof. vm_compute. reflexivity. Qed.

(* ================================================================== *)
(** ** Normalisation: auxiliary facts *)
(* ================================================================== *)

Section NormalisationFacts.

Lemma chars_str (l : list ascii) : Js.chars (Js.str l) = l.
Proof. apply list_ascii_of_string_of_list_ascii. Qed.

Lemma str_chars (s : string) : Js.str (Js.chars s) = s.
Proof. apply string_of_list_ascii_of_string. Qed.

Lemma str_inj (l1 l2 : list ascii) : Js.str l1 = Js.str l2 -> l1 = l2.
Proof.
  intro H. rewrite <- (chars_str l1), <- (chars_str l2). now rewrite H.
Qed.

Lemma normalize_chars (s : string) :
  Js.chars (normalize s) = normalizeChars (Js.chars s).
Proof.
  unfold normalize, normalizeChars, Js.substring0, Js.trim, replaceDisallowed,
    Js.toLowerCase.
  now rewrite !chars_str.
Qed.

Lemma lowerChar_kept (c : ascii) : keptByRegex c = true -> Js.lowerChar c = c.
Proof.
  destruct c as [[] [] [] [] [] [] [] []]; vm_compute; congruence.
Qed.

Lemma map_lowerChar_kept (l : list ascii) :
  Forall (fun c => keptByRegex c = true) l -> map Js.lowerChar l = l.
Proof.
  induction 1 as [|c l Hc _ IH]; simpl; [reflexivity|].
  now rewrite lowerChar_kept, IH.
Qed.

Lemma filter_all {A} (p : A -> bool) (l : list A) :
  Forall (fun x => p x = true) l -> filter p l = l.
Proof.
  induction 1 as [|x l Hx _ IH]; simpl; [reflexivity|]. now rewrite Hx, IH.
Qed.

Lemma Forall_dropWhile {A} (P : A -> Prop) p (l : list A) :
  Forall P l -> Forall P (Js.dropWhile p l).
Proof.
  induction 1 as [|x l Hx Hl IH]; simpl; [constructor|].
  destruct (p x); [assumption | now constructor].
Qed.

Lemma dropWhile_headFails {A} (p : A -> bool) (l : list A) :
  headFails p (Js.dropWhile p l).
Proof.
  induction l as [|x l IH]; simpl; [exact I|].
  destruct (p x) eqn:E; [assumption | exact E].
Qed.

Lemma dropWhile_fixed {A} (p : A -> bool) (l : list A) :
  headFails p l <-> Js.dropWhile p l = l.
Proof.
  destruct l as [|x l]; simpl; [tauto|].
  destruct (p x) eqn:E; split; intro H; try reflexivity; try discriminate.
  exfalso. pose proof (dropWhile_headFails p l) as Hh.
  assert (Hlen : List.length (Js.dropWhile p l) <= List.length l).
  { clear. induction l as [|y l IH]; simpl; [lia|]. destruct (p y); simpl; lia. }
  rewrite H in Hlen. simpl in Hlen. lia.
Qed.

Lemma headFails_app {A} (p : A -> bool) (l k : list A) :
  l <> [] -> headFails p l -> headFails p (l ++ k).
Proof. destruct l; simpl; congruence. Qed.

Lemma headFails_trimEnd (l : list ascii) :
  headFails Js.isWhiteSpace l -> headFails Js.isWhiteSpace (Js.trimEnd l).
Proof.
  unfold Js.trimEnd. induction l as [|x l IH] using rev_ind; [trivial|].
  intro H. rewrite rev_app_distr. simpl.
  destruct (Js.isWhiteSpace x) eqn:E.
  - apply IH. destruct l; simpl in *; [exact I | exact H].
  - simpl. rewrite rev_involutive. exact H.
Qed.

Lemma headFails_firstn {A} (p : A -> bool) n (l : list A) :
  headFails p l -> headFails p (firstn n l).
Proof. destruct n, l; simpl; trivial. Qed.

Lemma Forall_firstn' {A} (P : A -> Prop) n (l : list A) :
  Forall P l -> Forall P (firstn n l).
Proof.
  intro H. revert n. induction H as [|x l Hx _ IH]; intros [|n]; simpl;
    constructor; auto.
Qed.

Lemma Forall_trimEnd (P : ascii -> Prop) (l : list ascii) :
  Forall P l -> Forall P (Js.trimEnd l).
Proof.
  intro H. unfold Js.trimEnd. apply Forall_rev, Forall_dropWhile, Forall_rev, H.
Qed.

Lemma normalizeChars_kept (l : list ascii) :
  Forall (fun c => keptByRegex c = true) (normalizeChars l).
Proof.
  unfold normalizeChars, Js.trimStart.
  apply Forall_firstn', Forall_trimEnd, Forall_dropWhile.
  apply Forall_forall. intros c Hc. now apply filter_In in Hc.
Qed.

Lemma normalizeChars_head (l : list ascii) :
  headFails Js.isWhiteSpace (normalizeChars l).
Proof.
  unfold normalizeChars, Js.trimStart.
  apply headFails_firstn, headFails_trimEnd, dropWhile_headFails.
Qed.

Lemma normalizeChars_length (l : list ascii) :
  List.length (normalizeChars l) <= 200.
Proof. unfold normalizeChars. apply firstn_le_length. Qed.

Lemma trimEnd_fixed (l : list ascii) :
  Js.trimEnd l = l <->
  match rev l with c :: _ => Js.isWhiteSpace c | [] => false end = false.
Proof.
  unfold Js.trimEnd. split; intro H.
  - assert (Hd : Js.dropWhile Js.isWhiteSpace (rev l) = rev l).
    { rewrite <- H at 2. now rewrite rev_involutive. }
    apply dropWhile_fixed in Hd. destruct (rev l); [reflexivity | exact Hd].
  - assert (Hd : Js.dropWhile Js.isWhiteSpace (rev l) = rev l).
    { apply dropWhile_fixed. destruct (rev l); [exact I | exact H]. }
    rewrite Hd. apply rev_involutive.
Qed.

Lemma normalizeChars_again (l : list ascii) :
  normalizeChars (normalizeChars l) = Js.trimEnd (normalizeChars l).
Proof.
  set (t := normalizeChars l).
  unfold normalizeChars at 1.
  rewrite (map_lowerChar_kept t) by apply normalizeChars_kept.
  rewrite (filter_all _ t) by apply normalizeChars_kept.
  assert (Hs : Js.trimStart t = t)
    by (apply dropWhile_fixed, normalizeChars_head).
  rewrite Hs. apply firstn_all2.
  transitivity (List.length t); [|apply normalizeChars_length].
  unfold Js.trimEnd. rewrite length_rev.
  transitivity (List.length (rev t)); [|now rewrite length_rev].
  generalize (rev t). clear.
  induction l as [|y l IH]; simpl; [lia|].
  destruct (Js.isWhiteSpace y); simpl; lia.
Qed.

End NormalisationFacts.

(* ================================================================== *)
(** ** Normalisation: idempotence *)
(* ================================================================== *)

(** C6, as stated, fails: the text is cut to 200 characters after it was
    trimmed, so the cut can end in a space, which the next pass trims off. *)
Lemma normalize_not_idempotent :
  normalize (normalize longDescription) <> normalize longDescription.
Proof. vm_compute. discriminate. Qed.

(** When a second pass changes nothing. *)
Lemma normalize_fixed (s : string) :
  normalize (normalize s) = normalize s <-> endsWithWhiteSpace (normalize s) = false.
Proof.
  unfold endsWithWhiteSpace.
  rewrite <- trimEnd_fixed, (normalize_chars s), <- normalizeChars_again.
  rewrite <- !normalize_chars.
  split; intro H.
  - now rewrite H.
  - rewrite <- (str_chars (normalize (normalize s))), H. apply str_chars.
Qed.

(** A cleaned text within the 200 characters does not end in white space. *)
Lemma short_text_ends_clean (s : string) :
  Js.length (Js.trim (replaceDisallowed (Js.toLowerCase s))) <= 200 ->
  endsWithWhiteSpace (normalize s) = false.
Proof.
  intro Hlen. unfold endsWithWhiteSpace.
  rewrite normalize_chars. unfold normalizeChars.
  unfold Js.length, Js.trim, replaceDisallowed, Js.toLowerCase in Hlen.
  rewrite !chars_str in Hlen.
  rewrite firstn_all2 by exact Hlen.
  unfold Js.trimEnd. rewrite rev_involutive.
  match goal with |- context [Js.dropWhile ?p ?l] =>
    pose proof (dropWhile_headFails p l) as Hh;
    destruct (Js.dropWhile p l) end; [reflexivity | exact Hh].
Qed.

(** C6, amended: normalising a normalised description is a no-op exactly when
    the normalised description does not end in a white-space character; this
    is the case of every description whose cleaned text has at most 200
    characters. *)
Theorem normalize_idempotent_iff (s : string) :
  (normalize (normalize s) = normalize s
   <-> endsWithWhiteSpace (normalize s) = false) /\
  (Js.length (Js.trim (replaceDisallowed (Js.toLowerCase s))) <= 200 ->
   normalize (normalize s) = normalize s).
Proof.
  split; [apply normalize_fixed|].
  intro Hlen. apply normalize_fixed. now apply short_text_ends_clean.
Qed.

Lemma normalize_idempotent_iff_witness :
  normalize (normalize "Crash on launch!!") = normalize "Crash on launch!!".
Proof.
  apply (proj2 (normalize_idempotent_iff "Crash on launch!!")).
  vm_compute. repeat constructor.
Defined.

(** The description of the scenario is normalised once and for all. *)
Example normalize_scenario :
  normalize "Crash on launch!!" = "crash on launch" /\
  normalize (normalize "Crash on launch!!") = normalize "Crash on launch!!".
Proof. vm_compute. split; reflexivity. Qed.

(* ================================================================== *)
(** ** Fingerprint: what is hashed, and the shape of the digest *)
(* ================================================================== *)

Section FingerprintFacts.

Lemma chars_append (s t : string) :
  Js.chars (s ++ t)%string = Js.chars s ++ Js.chars t.
Proof.
  induction s as [|c s IH]; simpl; [reflexivity|].
  unfold Js.chars in *. simpl. now rewrite IH.
Qed.

Lemma append_inv_tail (s1 s2 t : string) :
  (s1 ++ t)%string = (s2 ++ t)%string -> s1 = s2.
Proof.
  intro H. apply (f_equal Js.chars) in H. rewrite !chars_append in H.
  apply app_inv_tail in H.
  rewrite <- (str_chars s1), <- (str_chars s2). now rewrite H.
Qed.

(** The tenant is a prefix of what is hashed: two tenants give two inputs. *)
Lemma fingerprintInput_tenant (app1 app2 d : string) (sn : option string) :
  fingerprintInput app1 d sn = fingerprintInput app2 d sn -> app1 = app2.
Proof. unfold fingerprintInput. apply append_inv_tail. Qed.

Lemma code_inj (c1 c2 : ascii) : Js.code c1 = Js.code c2 -> c1 = c2.
Proof.
  unfold Js.code. intro H.
  rewrite <- (ascii_N_embedding c1), <- (ascii_N_embedding c2). now rewrite H.
Qed.

Lemma cons_eq_inv {A} (x y : A) (l k : list A) :
  x :: l = y :: k -> x = y /\ l = k.
Proof. intro H. now inversion H. Qed.

Lemma utf8Char_prefix_free (c1 c2 : ascii) (r1 r2 : list Z) :
  Js.utf8Char c1 ++ r1 = Js.utf8Char c2 ++ r2 -> c1 = c2 /\ r1 = r2.
Proof.
  unfold Js.utf8Char.
  assert (B1 : (Js.code c1 < 256)%N) by apply N_ascii_bounded.
  assert (B2 : (Js.code c2 < 256)%N) by apply N_ascii_bounded.
  set (n1 := Z.of_N (Js.code c1)). set (n2 := Z.of_N (Js.code c2)).
  assert (E : n1 = n2 -> c1 = c2).
  { intro Hn. apply code_inj, N2Z.inj. exact Hn. }
  assert (R1 : (0 <= n1 < 256)%Z) by (unfold n1; lia).
  assert (R2 : (0 <= n2 < 256)%Z) by (unfold n2; lia).
  clearbody n1 n2.
  destruct (Z.ltb_spec n1 128) as [L1|L1], (Z.ltb_spec n2 128) as [L2|L2];
    cbn [app]; intro Heq; apply cons_eq_inv in Heq; destruct Heq as [Hn Hr].
  - auto.
  - exfalso. pose proof (Z.div_pos n2 64). lia.
  - exfalso. pose proof (Z.div_pos n1 64). lia.
  - apply cons_eq_inv in Hr. destruct Hr as [Hm Hr]. split; [apply E|exact Hr].
    rewrite (Z.div_mod n1 64), (Z.div_mod n2 64) by lia. lia.
Qed.

(** The UTF-8 encoding loses nothing. *)
Lemma utf8_inj (s t : string) : Js.utf8 s = Js.utf8 t -> s = t.
Proof.
  unfold Js.utf8. intro H.
  rewrite <- (str_chars s), <- (str_chars t). f_equal.
  revert H. generalize (Js.chars t). generalize (Js.chars s).
  induction l as [|c l IH]; intros [|c' l']; simpl; intro H.
  - reflexivity.
  - exfalso. unfold Js.utf8Char in H.
    destruct (Z.of_N (Js.code c') <? 128)%Z; discriminate.
  - exfalso. unfold Js.utf8Char in H.
    destruct (Z.of_N (Js.code c) <? 128)%Z; discriminate.
  - apply utf8Char_prefix_free in H. destruct H as [-> H]. f_equal. now apply IH.
Qed.

Section Utf16Facts.

Local Open Scope Z_scope.

Lemma Parsed_wellFormed_upto (n : nat) (s : list Z) :
  (List.length s <= n)%nat ->
  Utf16.isString s = true -> Utf16.isWellFormed s = true -> Parsed s.
Proof.
  revert s. induction n as [|n IH]; intros [|c rest] Hlen Hs Hw;
    [apply parsed_nil | cbn [List.length] in Hlen; lia | apply parsed_nil |].
  cbn [List.length] in Hlen.
  cbn [Utf16.isString forallb] in Hs. apply andb_prop in Hs. destruct Hs as [Hc Hs].
  cbn [Utf16.isWellFormed] in Hw.
  destruct (Utf16.isHigh c) eqn:Eh.
  - destruct rest as [|d rest']; [discriminate|].
    apply andb_prop in Hw. destruct Hw as [Hl Hw].
    cbn [forallb] in Hs. apply andb_prop in Hs. destruct Hs as [_ Hs].
    apply parsed_pair; auto. apply IH; auto. cbn [List.length] in Hlen. lia.
  - apply andb_prop in Hw. destruct Hw as [Hl Hw].
    apply parsed_unit; auto.
    + unfold Utf16.isCodeUnit in Hc. lia.
    + now destruct (Utf16.isLow c).
    + apply IH; auto. lia.
Qed.

Lemma Parsed_wellFormed (s : list Z) :
  Utf16.isString s = true -> Utf16.isWellFormed s = true -> Parsed s.
Proof. apply (Parsed_wellFormed_upto (List.length s)). lia. Qed.

Lemma utf8_unit (c : Z) (rest : list Z) :
  Utf16.isHigh c = false -> Utf16.isLow c = false ->
  Utf16.utf8 (c :: rest) = Utf16.utf8Point c ++ Utf16.utf8 rest.
Proof. intros Eh El. cbn [Utf16.utf8]. now rewrite Eh, El. Qed.

Lemma utf8_pair (hi lo : Z) (rest : list Z) :
  Utf16.isHigh hi = true -> Utf16.isLow lo = true ->
  Utf16.utf8 (hi :: lo :: rest)
  = Utf16.utf8Point (Utf16.codePoint hi lo) ++ Utf16.utf8 rest.
Proof. intros Eh El. cbn [Utf16.utf8]. now rewrite Eh, El. Qed.

(** A well-formed string is encoded piece by piece. *)
Lemma utf8_app (s t : list Z) :
  Parsed s -> Utf16.utf8 (s ++ t) = Utf16.utf8 s ++ Utf16.utf8 t.
Proof.
  induction 1 as [|c rest Hc Eh El _ IH|hi lo rest Eh El _ IH].
  - reflexivity.
  - change ((c :: rest) ++ t) with (c :: (rest ++ t)).
    rewrite !utf8_unit, IH by assumption. now rewrite app_assoc.
  - change ((hi :: lo :: rest) ++ t) with (hi :: lo :: (rest ++ t)).
    rewrite !utf8_pair, IH by assumption. now rewrite app_assoc.
Qed.

Lemma codePoint_range (hi lo : Z) :
  Utf16.isHigh hi = true -> Utf16.isLow lo = true ->
  65536 <= Utf16.codePoint hi lo < 1114112.
Proof. unfold Utf16.isHigh, Utf16.isLow, Utf16.codePoint. lia. Qed.

Lemma codePoint_inj (hi lo hi' lo' : Z) :
  Utf16.isHigh hi = true -> Utf16.isLow lo = true ->
  Utf16.isHigh hi' = true -> Utf16.isLow lo' = true ->
  Utf16.codePoint hi lo = Utf16.codePoint hi' lo' -> hi = hi' /\ lo = lo'.
Proof. unfold Utf16.isHigh, Utf16.isLow, Utf16.codePoint. lia. Qed.

(** No encoding of a code point starts another one. *)
Lemma utf8Point_prefix_free (p q : Z) (r1 r2 : list Z) :
  0 <= p < 1114112 -> 0 <= q < 1114112 ->
  Utf16.utf8Point p ++ r1 = Utf16.utf8Point q ++ r2 -> p = q /\ r1 = r2.
Proof.
  intros Hp Hq. unfold Utf16.utf8Point.
  destruct (Z.ltb_spec p 128), (Z.ltb_spec p 2048), (Z.ltb_spec p 65536);
    try lia;
    destruct (Z.ltb_spec q 128), (Z.ltb_spec q 2048), (Z.ltb_spec q 65536);
    try lia;
    cbn [app]; intro Heq;
    repeat match goal with
           | H : _ :: _ = _ :: _ |- _ =>
               let E := fresh "E" in
               apply cons_eq_inv in H; destruct H as [E H]
           end;
    first [ split; [|assumption]; Z.to_euclidean_division_equations; lia
          | exfalso; Z.to_euclidean_division_equations; lia ].
Qed.

Lemma utf8Point_nonempty (p : Z) : Utf16.utf8Point p <> [].
Proof.
  unfold Utf16.utf8Point.
  destruct (p <? 128), (p <? 2048), (p <? 65536); discriminate.
Qed.

(** On well-formed strings the encoding loses nothing. *)
Lemma utf8_inj_Parsed (s : list Z) :
  Parsed s -> forall t, Parsed t -> Utf16.utf8 s = Utf16.utf8 t -> s = t.
Proof.
  induction 1 as [|c rest Hc Eh El _ IH|hi lo rest Eh El _ IH];
    intros t Ht; destruct Ht as [|c' rest' Hc' Eh' El' Ht|hi' lo' rest' Eh' El' Ht];
    repeat match goal with
           | Eh : Utf16.isHigh ?c = false, El : Utf16.isLow ?c = false
             |- context [Utf16.utf8 (?c :: ?r)] => rewrite (utf8_unit c r Eh El)
           | Eh : Utf16.isHigh ?h = true, El : Utf16.isLow ?l = true
             |- context [Utf16.utf8 (?h :: ?l :: ?r)] =>
               rewrite (utf8_pair h l r Eh El)
           end; intro Heq.
  - reflexivity.
  - exfalso. symmetry in Heq. apply app_eq_nil in Heq.
    now apply (utf8Point_nonempty c').
  - exfalso. symmetry in Heq. apply app_eq_nil in Heq.
    now apply (utf8Point_nonempty (Utf16.codePoint hi' lo')).
  - exfalso. apply app_eq_nil in Heq. now apply (utf8Point_nonempty c).
  - apply utf8Point_prefix_free in Heq; [|lia|lia].
    destruct Heq as [-> Heq]. f_equal. now apply IH.
  - pose proof (codePoint_range hi' lo' Eh' El').
    apply utf8Point_prefix_free in Heq; [|lia|lia]. lia.
  - exfalso. apply app_eq_nil in Heq.
    now apply (utf8Point_nonempty (Utf16.codePoint hi lo)).
  - pose proof (codePoint_range hi lo Eh El).
    apply utf8Point_prefix_free in Heq; [|lia|lia]. lia.
  - pose proof (codePoint_range hi lo Eh El).
    pose proof (codePoint_range hi' lo' Eh' El').
    apply utf8Point_prefix_free in Heq; [|lia|lia].
    destruct Heq as [Hp Heq].
    apply codePoint_inj in Hp; auto. destruct Hp as [-> ->].
    do 2 f_equal. now apply IH.
Qed.

(** Two well-formed tenant ids in front of the same text give the same
    bytes only when they are the same id, whatever the text is. *)
Lemma tenant_bytes_differ (app1 app2 rest : list Z) :
  Parsed app1 -> Parsed app2 ->
  Utf16.utf8 (app1 ++ 58 :: rest) = Utf16.utf8 (app2 ++ 58 :: rest) ->
  app1 = app2.
Proof.
  intros P1 P2. rewrite !utf8_app by assumption. intro Heq.
  apply app_inv_tail in Heq. now apply utf8_inj_Parsed.
Qed.


(** The strings of [Js] are well-formed, and [Utf16.utf8] gives them the
    bytes of [Js.utf8]. *)
Lemma code_unit_range (c : ascii) : 0 <= Z.of_N (Js.code c) < 256.
Proof. pose proof (N_ascii_bounded c). unfold Js.code. lia. Qed.

Lemma Parsed_ofString (s : string) : Parsed (Utf16.ofString s).
Proof.
  unfold Utf16.ofString. induction (Js.chars s) as [|c l IH]; [constructor|].
  pose proof (code_unit_range c). cbn [map].
  apply parsed_unit; [lia | | | exact IH];
    unfold Utf16.isHigh, Utf16.isLow; lia.
Qed.

Lemma utf8_ofString (s : string) : Utf16.utf8 (Utf16.ofString s) = Js.utf8 s.
Proof.
  unfold Utf16.ofString, Js.utf8. induction (Js.chars s) as [|c l IH]; [reflexivity|].
  pose proof (code_unit_range c) as Hc. cbn [map flat_map].
  rewrite utf8_unit, IH by (unfold Utf16.isHigh, Utf16.isLow; lia).
  f_equal. unfold Utf16.utf8Point, Js.utf8Char. cbv zeta.
  destruct (Z.ltb_spec (Z.of_N (Js.code c)) 128); [reflexivity|].
  destruct (Z.ltb_spec (Z.of_N (Js.code c)) 2048); [reflexivity|lia].
Qed.

Lemma ofString_append (s t : string) :
  Utf16.ofString (s ++ t)%string = Utf16.ofString s ++ Utf16.ofString t.
Proof. unfold Utf16.ofString. now rewrite chars_append, map_app. Qed.

Lemma orEmpty_ofString (sn : option string) :
  Utf16.orEmpty (option_map Utf16.ofString sn) = Utf16.ofString (orEmpty sn).
Proof. destruct sn as [[|c s]|]; reflexivity. Qed.

Lemma fingerprintInput_ofString (appId d : string) (sn : option string) :
  Utf16.fingerprintInput (Utf16.ofString appId) d (option_map Utf16.ofString sn)
  = Utf16.ofString (fingerprintInput appId d sn).
Proof.
  unfold Utf16.fingerprintInput, fingerprintInput.
  now rewrite orEmpty_ofString, !ofString_append.
Qed.

(** On the strings of [Js] the two fingerprint generators are one. *)
Lemma generateFingerprint_ofString (appId d : string) (sn : option string) :
  Utf16.generateFingerprint (Utf16.ofString appId) d (option_map Utf16.ofString sn)
  = generateFingerprint appId d sn.
Proof.
  unfold Utf16.generateFingerprint, generateFingerprint, SHA256.sha256Hex.
  now rewrite fingerprintInput_ofString, utf8_ofString.
Qed.

End Utf16Facts.

Lemma length_flat_map_cons {A} (l : list A) (L : list (list A)) :
  List.length (flat_map (fun c => map (cons c) L) l)
  = List.length l * List.length L.
Proof.
  induction l as [|c l IH]; [reflexivity|].
  change (flat_map (fun c0 => map (cons c0) L) (c :: l))
    with (map (cons c) L ++ flat_map (fun c0 => map (cons c0) L) l).
  rewrite length_app, length_map, IH. reflexivity.
Qed.

Lemma length_wordsOver (a : list ascii) (n : nat) :
  List.length (wordsOver a n) = List.length a ^ n.
Proof.
  induction n as [|n IH]; [reflexivity|].
  change (wordsOver a (S n))
    with (flat_map (fun c => map (cons c) (wordsOver a n)) a).
  rewrite length_flat_map_cons, IH. reflexivity.
Qed.

Lemma In_wordsOver (a : list ascii) (l : list ascii) :
  Forall (fun c => In c a) l -> In l (wordsOver a (List.length l)).
Proof.
  induction 1 as [|c l Hc _ IH]; [now left|].
  change (wordsOver a (List.length (c :: l)))
    with (flat_map (fun c => map (cons c) (wordsOver a (List.length l))) a).
  apply in_flat_map. exists c. split; [exact Hc|]. now apply in_map.
Qed.

Lemma NoDup_flat_map_cons {A} (l : list A) (L : list (list A)) :
  NoDup l -> NoDup L -> NoDup (flat_map (fun c => map (cons c) L) l).
Proof.
  intros Hl HL. induction Hl as [|c l Hc Hl IH]; [constructor|].
  change (flat_map (fun c0 => map (cons c0) L) (c :: l))
    with (map (cons c) L ++ flat_map (fun c0 => map (cons c0) L) l).
  apply NoDup_app.
  - clear - HL. induction HL as [|x L Hx _ IH]; simpl; constructor; auto.
    intro Hin. apply in_map_iff in Hin. destruct Hin as [y [Hy Hin]].
    inversion Hy; subst. contradiction.
  - exact IH.
  - intros w Hw Hw'. apply in_map_iff in Hw. destruct Hw as [y [<- _]].
    apply in_flat_map in Hw'. destruct Hw' as [c' [Hc' Hw']].
    apply in_map_iff in Hw'. destruct Hw' as [y' [Hy' _]].
    inversion Hy'; subst. contradiction.
Qed.

Lemma NoDup_wordsOver (a : list ascii) (n : nat) :
  NoDup a -> NoDup (wordsOver a n).
Proof.
  intro Ha. induction n as [|n IH].
  - constructor; [intros []|constructor].
  - change (wordsOver a (S n))
      with (flat_map (fun c => map (cons c) (wordsOver a n)) a).
    now apply NoDup_flat_map_cons.
Qed.

Lemma NoDup_map_injective {A B} (f : A -> B) (l : list A) :
  (forall x y, f x = f y -> x = y) -> NoDup l -> NoDup (map f l).
Proof.
  intros Hf Hl. induction Hl as [|x l Hx _ IH]; simpl; constructor; auto.
  intro Hin. apply in_map_iff in Hin. destruct Hin as [y [Hy Hin]].
  apply Hf in Hy. subst. contradiction.
Qed.

(** No map from the words of length n+1 to the words of length n is
    one-to-one, when the alphabet has two letters or more. *)
Lemma wordsOver_pigeonhole (a : list ascii) (n : nat)
    (f : list ascii -> list ascii) :
  NoDup a -> 1 < List.length a ->
  (forall w, In (f w) (wordsOver a n)) ->
  ~ (forall x y, f x = f y -> x = y).
Proof.
  intros Ha Hlen Hcod Hinj.
  assert (Hle : List.length (map f (wordsOver a (S n)))
                <= List.length (wordsOver a n)).
  { apply NoDup_incl_length.
    - apply NoDup_map_injective; [exact Hinj | now apply NoDup_wordsOver].
    - intros y Hy. apply in_map_iff in Hy. destruct Hy as [w [<- _]]. apply Hcod. }
  rewrite length_map, !length_wordsOver in Hle.
  assert (Hlt : List.length a ^ n < List.length a ^ S n)
    by (apply Nat.pow_lt_mono_r; [exact Hlen | apply Nat.lt_succ_diag_r]).
  apply (Nat.lt_irrefl (List.length a ^ n)).
  eapply Nat.lt_le_trans; [exact Hlt | exact Hle].
Qed.

Lemma hexAlphabet_NoDup : NoDup SHA256.hexAlphabet.
Proof.
  unfold SHA256.hexAlphabet. simpl.
  repeat (constructor; [simpl; intuition discriminate|]). constructor.
Qed.

Lemma hexDigit_In (n : Z) : In (SHA256.hexDigit n) SHA256.hexAlphabet.
Proof.
  unfold SHA256.hexDigit. apply nth_In.
  change (List.length SHA256.hexAlphabet) with 16.
  pose proof (Z.mod_pos_bound n 16). lia.
Qed.

Lemma hexWord_In (w : Z) :
  Forall (fun c => In c SHA256.hexAlphabet) (SHA256.hexWord w).
Proof.
  unfold SHA256.hexWord. apply Forall_forall. intros c Hc.
  apply in_map_iff in Hc. destruct Hc as [i [<- _]]. apply hexDigit_In.
Qed.

Lemma hexDigest_chars (s : SHA256.State) :
  List.length (Js.chars (SHA256.hexDigest s)) = 64 /\
  Forall (fun c => In c SHA256.hexAlphabet) (Js.chars (SHA256.hexDigest s)).
Proof.
  unfold SHA256.hexDigest. rewrite chars_str. split.
  - rewrite !length_app. reflexivity.
  - repeat (apply Forall_app; split); apply hexWord_In.
Qed.

(** [.substring(0, 64)] keeps the whole digest. *)
Lemma generateFingerprint_digest (appId d : string) (sn : option string) :
  generateFingerprint appId d sn
  = SHA256.sha256Hex (fingerprintInput appId d sn).
Proof.
  unfold generateFingerprint, Js.substring0, SHA256.sha256Hex.
  rewrite firstn_all2; [apply str_chars|].
  now rewrite (proj1 (hexDigest_chars _)).
Qed.

Lemma generateFingerprint16_digest (appId : list Z) (d : string)
    (sn : option (list Z)) :
  Utf16.generateFingerprint appId d sn
  = SHA256.hexDigest (SHA256.hash (Utf16.utf8 (Utf16.fingerprintInput appId d sn))).
Proof.
  unfold Utf16.generateFingerprint, Js.substring0.
  rewrite firstn_all2; [apply str_chars|].
  now rewrite (proj1 (hexDigest_chars _)).
Qed.

Lemma generateFingerprint_shape (appId d : string) (sn : option string) :
  In (Js.chars (generateFingerprint appId d sn))
     (wordsOver SHA256.hexAlphabet 64).
Proof.
  rewrite generateFingerprint_digest. unfold SHA256.sha256Hex.
  destruct (hexDigest_chars (SHA256.hash (Js.utf8 (fingerprintInput appId d sn))))
    as [Hlen Hall].
  rewrite <- Hlen. now apply In_wordsOver.
Qed.

End FingerprintFacts.

(* ================================================================== *)
(** ** Fingerprint: determinism and tenant separation *)
(* ================================================================== *)

(** C7, as stated, fails: a surrogate outside a pair reaches the digest as
    U+FFFD, whichever surrogate it is, so the tenant ids [\ud800] and
    [\ud801] have one fingerprint. *)
Lemma lone_surrogate_tenants_share_a_fingerprint :
  Utf16.isString [55296%Z] = true /\ Utf16.isString [55297%Z] = true /\
  [55296%Z] <> [55297%Z] /\
  Utf16.generateFingerprint [55296%Z] "Crash on launch!!" None
  = Utf16.generateFingerprint [55297%Z] "Crash on launch!!" None.
Proof.
  split; [reflexivity|]. split; [reflexivity|]. split; [discriminate|].
  unfold Utf16.generateFingerprint. do 3 f_equal.
Qed.

(** Nor can well-formed tenant ids be told apart in every case: a
    fingerprint is one of the 16^64 digests, and there are more tenant ids
    than that (already among the ids of 65 hexadecimal characters), so two
    of them share a fingerprint. *)
Lemma tenant_separation_not_absolute :
  ~ (forall (app1 app2 d : string) (sn : option string),
        app1 <> app2 ->
        generateFingerprint app1 d sn <> generateFingerprint app2 d sn).
Proof.
  intro Hsep.
  apply (wordsOver_pigeonhole SHA256.hexAlphabet 64
           (fun w => Js.chars (generateFingerprint (Js.str w) "" None))).
  - apply hexAlphabet_NoDup.
  - change (List.length SHA256.hexAlphabet) with 16. lia.
  - intro w. apply generateFingerprint_shape.
  - intros x y Heq.
    destruct (string_dec (Js.str x) (Js.str y)) as [E|N]; [now apply str_inj|].
    exfalso. apply (Hsep _ _ "" None N).
    rewrite <- (str_chars (generateFingerprint (Js.str x) "" None)), Heq.
    apply str_chars.
Qed.

(** C7, amended: the fingerprint is a function of (tenant, description,
    context); for two distinct well-formed tenant ids (strings without a
    surrogate outside a pair) with the same description and context the
    hashed bytes differ, so the fingerprints differ unless SHA-256 itself
    collides on those two inputs. *)
Theorem fingerprint_deterministic_tenant_separated
    (app1 app2 : list Z) (d1 d2 : string) (sn1 sn2 : option (list Z)) :
  d1 = d2 -> sn1 = sn2 ->
  (app1 = app2 ->
     Utf16.generateFingerprint app1 d1 sn1
     = Utf16.generateFingerprint app2 d2 sn2) /\
  (Utf16.isString app1 = true -> Utf16.isString app2 = true ->
   Utf16.isWellFormed app1 = true -> Utf16.isWellFormed app2 = true ->
   app1 <> app2 ->
     Utf16.utf8 (Utf16.fingerprintInput app1 d1 sn1)
     <> Utf16.utf8 (Utf16.fingerprintInput app2 d2 sn2) /\
     (Utf16.generateFingerprint app1 d1 sn1
      = Utf16.generateFingerprint app2 d2 sn2 ->
      sha256Collision (Utf16.utf8 (Utf16.fingerprintInput app1 d1 sn1))
                      (Utf16.utf8 (Utf16.fingerprintInput app2 d2 sn2)))).
Proof.
  intros <- <-. split; [now intros <-|].
  intros S1 S2 W1 W2 Hne.
  assert (Hbytes : Utf16.utf8 (Utf16.fingerprintInput app1 d1 sn1)
                   <> Utf16.utf8 (Utf16.fingerprintInput app2 d1 sn1)).
  { intro H. apply Hne.
    apply (tenant_bytes_differ app1 app2
             (Utf16.ofString (normalize d1) ++ [58%Z] ++ Utf16.orEmpty sn1));
      [now apply Parsed_wellFormed | now apply Parsed_wellFormed | exact H]. }
  split; [exact Hbytes|].
  intro Heq. split; [exact Hbytes|].
  now rewrite <- !generateFingerprint16_digest.
Qed.

Lemma fingerprint_deterministic_tenant_separated_witness :
  Utf16.generateFingerprint [97; 55357; 56832]%Z "Crash on launch!!" None
    = Utf16.generateFingerprint [97; 55357; 56832]%Z "Crash on launch!!" None
  /\ Utf16.utf8 (Utf16.fingerprintInput [97; 55357; 56832]%Z "Crash on launch!!" None)
     <> Utf16.utf8 (Utf16.fingerprintInput [97; 233]%Z "Crash on launch!!" None).
Proof.
  split.
  - exact (proj1 (fingerprint_deterministic_tenant_separated
             [97; 55357; 56832]%Z [97; 55357; 56832]%Z
             "Crash on launch!!" "Crash on launch!!" None None
             eq_refl eq_refl) eq_refl).
  - refine (proj1 (proj2 (fingerprint_deterministic_tenant_separated
             [97; 55357; 56832]%Z [97; 233]%Z
             "Crash on launch!!" "Crash on launch!!" None None
             eq_refl eq_refl) eq_refl eq_refl eq_refl eq_refl _)). discriminate.
Defined.

(** For the tenant ids of [Js], which are well-formed, the same holds of the
    generator as the handlers call it. *)
Lemma fingerprint_tenant_separated_in_handlers
    (app1 app2 d : string) (sn : option string) :
  app1 <> app2 ->
  Js.utf8 (fingerprintInput app1 d sn) <> Js.utf8 (fingerprintInput app2 d sn) /\
  (generateFingerprint app1 d sn = generateFingerprint app2 d sn ->
   sha256Collision (Js.utf8 (fingerprintInput app1 d sn))
                   (Js.utf8 (fingerprintInput app2 d sn))).
Proof.
  intro Hne.
  assert (Hbytes : Js.utf8 (fingerprintInput app1 d sn)
                   <> Js.utf8 (fingerprintInput app2 d sn)).
  { intro H. apply Hne. eapply fingerprintInput_tenant, utf8_inj, H. }
  split; [exact Hbytes|].
  intro Heq. split; [exact Hbytes|].
  rewrite !generateFingerprint_digest in Heq. exact Heq.
Qed.

(** A tenant id that ends in a leading surrogate is not well-formed either,
    and shares its fingerprint with the id that ends in U+FFFD. *)
Example lone_surrogate_reads_as_replacement :
  Utf16.generateFingerprint [97; 55296]%Z "Crash on launch!!" None
  = Utf16.generateFingerprint [97; 65533]%Z "Crash on launch!!" None.
Proof. unfold Utf16.generateFingerprint. do 3 f_equal. Qed.

(** The two tenants of the scenario do get two fingerprints. *)
Example fingerprint_app1_app2 :
  generateFingerprint "app1" "Crash on launch!!" None
  <> generateFingerprint "app2" "Crash on launch!!" None.
Proof. vm_compute. discriminate. Qed.

(** Differently written descriptions with the same cleaned text agree. *)
Example fingerprint_same_cleaned_text :
  generateFingerprint "app1" "Crash on launch!!" None
  = generateFingerprint "app1" "crash on launch" None.
Proof. vm_compute. reflexivity. Qed.

(* ================================================================== *)
(** ** The duplicate resolver *)
(* ================================================================== *)

Section Resolver.

Variable before : Report -> Report -> bool.

Lemma In_insertAsc (col : Report -> Z) (a x : Report) (s : list Report) :
  In x (Supabase.insertAsc before col a s) <-> x = a \/ In x s.
Proof.
  induction s as [|y s IH]; simpl; [intuition congruence|].
  destruct ((col a <? col y) || ((col a =? col y) && before a y))%Z; simpl;
    [intuition congruence|].
  rewrite IH. intuition congruence.
Qed.

Lemma In_order_asc (col : Report -> Z) (x : Report) (q : list Report) :
  In x (Supabase.order_asc before col q) <-> In x q.
Proof.
  induction q as [|a q IH]; simpl; [tauto|].
  rewrite In_insertAsc, IH. intuition congruence.
Qed.

(** The first row of an ascending order has the least key, whatever the
    database decides between equal keys. *)
Lemma order_asc_head (col : Report -> Z) (q : list Report) (r : Report)
    (rest : list Report) :
  Supabase.order_asc before col q = r :: rest ->
  In r q /\ forall x, In x q -> (col r <= col x)%Z.
Proof.
  revert r rest. induction q as [|a q IH]; simpl; [discriminate|].
  intros r rest H.
  destruct (Supabase.order_asc before col q) as [|y s] eqn:E; simpl in H.
  - injection H as <- <-. split; [now left|].
    intros x [<-|Hx]; [lia|].
    apply (In_order_asc col) in Hx. rewrite E in Hx. destruct Hx.
  - destruct (IH y s eq_refl) as [Hy Hmin].
    destruct ((col a <? col y) || ((col a =? col y) && before a y))%Z eqn:C;
      injection H as <- <-.
    + assert (L : (col a <= col y)%Z).
      { apply orb_prop in C. destruct C as [C|C]; [apply Z.ltb_lt in C; lia|].
        apply andb_prop in C. destruct C as [C _]. apply Z.eqb_eq in C. lia. }
      split; [now left|]. intros x [<-|Hx]; [lia|]. specialize (Hmin x Hx). lia.
    + assert (L : (col y <= col a)%Z).
      { apply orb_false_elim in C. destruct C as [C _]. apply Z.ltb_ge in C. lia. }
      split; [now right|]. intros x [<-|Hx]; [lia|]. now apply Hmin.
Qed.


End Resolver.

Section Window.




Lemma In_candidates (env : Env) (fp appId : string) (st : Store) (r : Report) :
  In r (candidates env fp appId st) <->
  In r (rows st) /\ eligible fp appId (windowStart env) r.
Proof.
  unfold candidates, Supabase.is_null, Supabase.gte, Supabase.eq_text, eligible.
  rewrite !filter_In, !String.eqb_eq, Z.leb_le.
  destruct (canonical_id r); intuition (try discriminate; try lia).
Qed.

(** [findDuplicate] reads the table and leaves it as it was. *)
Lemma findDuplicate_run (env : Env) (fp appId : string) (w : World) :
  findDuplicate env fp appId w =
  (Normal
     match Supabase.attempt (selectFault env)
             (Supabase.single (Supabase.limit 1
                (Supabase.order_asc (tie env) created_at
                   (candidates env fp appId (db w)))))
     with
     | Data data => Some (id data)
     | Error _ => None
     end,
   mkWorld (db w) (calls w ++ [CallSelect fp appId])).
Proof.
  unfold findDuplicate, bind, await, candidates, windowStart.
  destruct (Supabase.attempt _ _); reflexivity.
Qed.

Lemma single_limit_1 (q : list Report) :
  Supabase.single (Supabase.limit 1 q)
  = match q with [] => Error noRows | r :: _ => Data r end.
Proof. destruct q as [|r [|? ?]]; reflexivity. Qed.

End Window.




(** On a server whose clocks do not change, a record created exactly seven
    times 24 hours ago is still found. *)
Example window_boundary_inclusive :
  eval (findDuplicate (quietEnv (1000 + sevenDays)) "fp" "app1")
       (mkStore [sampleRow 0 "app1" "fp" None 1 1000] 1)
  = Normal (Some 0).
Proof. reflexivity. Qed.

(** A record created one millisecond earlier is not. *)
Example window_boundary_exclusive :
  eval (findDuplicate (quietEnv (1000 + sevenDays)) "fp" "app1")
       (mkStore [sampleRow 0 "app1" "fp" None 1 999] 1)
  = Normal None.
Proof. reflexivity. Qed.

(** Where the clocks went forward within the week, the window is an hour
    shorter: a record created six days and 23 hours and a half ago is not
    found. *)
Example window_after_spring_change :
  eval (findDuplicate springEnv "fp" "app1")
       (mkStore [sampleRow 0 "app1" "fp" None 1
                   (newDate springEnv - sevenDays + 30 * 60 * 1000)] 1)
  = Normal None.
Proof. vm_compute. reflexivity. Qed.

(** Another tenant's record with the same fingerprint is not a match. *)
Example other_tenant_no_match :
  eval (findDuplicate (quietEnv 2000) "fp" "app2")
       (mkStore [sampleRow 0 "app1" "fp" None 1 1000] 1)
  = Normal None.
Proof. reflexivity. Qed.

(* ================================================================== *)
(** ** How the handlers run *)
(* ================================================================== *)

Arguments generateFingerprint : simpl never.
Arguments uploadScreenshots : simpl never.

Section Running.

Lemma eval_findDuplicate (env : Env) (fp appId : string) (st : Store) :
  eval (findDuplicate env fp appId) st = Normal (lookup env fp appId st).
Proof. unfold eval. now rewrite findDuplicate_run. Qed.

Lemma updateWhereId_total (env : Env) (target : nat) (g : Report -> Report)
    (q : list Report) :
  Supabase.updateWhereId env target (fun r => Some (g r)) q
  = Some (map (fun r => if Nat.eqb (id r) target
                        then Supabase.update_bug_report_timestamp env (g r)
                        else r) q).
Proof.
  induction q as [|r q IH]; simpl; [reflexivity|].
  rewrite IH. now destruct (Nat.eqb (id r) target).
Qed.

Lemma increment_run (env : Env) (c : nat) (st : Store) :
  Supabase.increment_bug_duplicate_count env c st =
  match rpcFault env with
  | Some e => (Error e, st)
  | None =>
      (Data tt,
       mkStore (map (fun r => if Nat.eqb (id r) c then incremented env r else r)
                    (rows st))
               (next_id st))
  end.
Proof.
  unfold Supabase.increment_bug_duplicate_count.
  destruct (rpcFault env); [reflexivity|].
  now rewrite updateWhereId_total.
Qed.

(** A valid submission, step by step. *)
Lemma submitBugReport_valid (env : Env) (req : Req.Submit)
    (appId description_ priority_ : string) (w : World) :
  validated req appId description_ priority_ ->
  let fp := generateFingerprint appId description_ (Req.screenName (Req.body req)) in
  let found := lookup env fp appId (db w) in
  let payload := payloadOf env req appId description_ priority_ (db w) in
  let log := calls w ++ [CallSelect fp appId] ++ [CallInsert payload] in
  submitBugReport env req w =
  match insertFault env with
  | Some e => (Normal (mkResponse 500 (ErrorJson (message e))), mkWorld (db w) log)
  | None =>
      let data := stamped env (db w) payload in
      let st1 := mkStore (rows (db w) ++ [data]) (S (next_id (db w))) in
      let resp := mkResponse 201
                    (SubmittedJson (id data) (status data)
                       (match found with Some _ => true | None => false end)
                       found
                       (List.length (uploadScreenshots env appId (Req.body req)))) in
      match found with
      | Some c =>
          (Normal resp,
           mkWorld (snd (Supabase.increment_bug_duplicate_count env c st1))
                   (log ++ [CallIncrement c]))
      | None => (Normal resp, mkWorld st1 log)
      end
  end.
Proof.
  intros (Ha & Hd & Hp). unfold payloadOf.
  unfold submitBugReport, tryCatch, bind. rewrite Ha, Hd, Hp.
  rewrite findDuplicate_run. fold (lookup env
    (generateFingerprint appId description_ (Req.screenName (Req.body req)))
    appId (db w)).
  unfold await, Supabase.insert, stamped. cbn [db calls].
  rewrite <- !app_assoc.
  destruct (insertFault env) as [e|]; [reflexivity|].
  destruct (lookup env _ appId (db w)) as [c|]; [|reflexivity].
  cbn [db calls]. unfold ret.
  destruct (Supabase.increment_bug_duplicate_count env c _) as [res st2].
  cbn [snd]. now rewrite <- !app_assoc.
Qed.

(** A submission that fails a check answers 400 and touches nothing. *)
Lemma submitBugReport_invalid (env : Env) (req : Req.Submit) (w : World) :
  (forall a d p, ~ validated req a d p) ->
  exists msg, submitBugReport env req w = (Normal (mkResponse 400 (ErrorJson msg)), w).
Proof.
  intro Hinv. unfold submitBugReport, tryCatch.
  destruct (validAppId (Req.appId (Req.body req))) as [a|] eqn:Ha;
    [|eexists; reflexivity].
  destruct (validDescription (Req.description (Req.body req))) as [d|] eqn:Hd;
    [|eexists; reflexivity].
  destruct (validPriority (Req.priority (Req.body req))) as [p|] eqn:Hp;
    [|eexists; reflexivity].
  exfalso. apply (Hinv a d p). repeat split; assumption.
Qed.

Lemma validated_dec (req : Req.Submit) :
  (exists a d p, validated req a d p) \/ (forall a d p, ~ validated req a d p).
Proof.
  unfold validated.
  destruct (validAppId (Req.appId (Req.body req))) as [a|];
    [|right; intros a d p (H & _); discriminate].
  destruct (validDescription (Req.description (Req.body req))) as [d|];
    [|right; intros ? ? ? (_ & H & _); discriminate].
  destruct (validPriority (Req.priority (Req.body req))) as [p|];
    [|right; intros ? ? ? (_ & _ & H); discriminate].
  left. exists a, d, p. auto.
Qed.

End Running.

(* ================================================================== *)
(** ** Submission: the record created *)
(* ================================================================== *)

Section Submission.

Lemma lookup_Some (env : Env) (fp appId : string) (st : Store) (c : nat) :
  lookup env fp appId st = Some c ->
  exists r, In r (rows st) /\ id r = c /\ eligible fp appId (windowStart env) r.
Proof.
  unfold lookup, Supabase.attempt. destruct (selectFault env); [discriminate|].
  rewrite single_limit_1.
  destruct (Supabase.order_asc (tie env) created_at (candidates env fp appId st))
    as [|r rest] eqn:E; [discriminate|].
  intro H. injection H as <-.
  destruct (order_asc_head _ _ _ _ _ E) as [Hin _].
  apply In_candidates in Hin. exists r. tauto.
Qed.

Lemma run_valid_submission (env : Env) (req : Req.Submit)
    (appId d p : string) (st : Store) :
  validated req appId d p ->
  insertFault env = None ->
  let fp := generateFingerprint appId d (Req.screenName (Req.body req)) in
  let data := stamped env st (payloadOf env req appId d p st) in
  let st1 := mkStore (rows st ++ [data]) (S (next_id st)) in
  let log := [CallSelect fp appId; CallInsert (payloadOf env req appId d p st)] in
  let resp found :=
    mkResponse 201
      (SubmittedJson (id data) (status data)
         (match found with Some _ => true | None => false end) found
         (List.length (uploadScreenshots env appId (Req.body req)))) in
  run (submitBugReport env req) st =
  match lookup env fp appId st with
  | Some c =>
      (Some (resp (Some c)),
       mkWorld (snd (Supabase.increment_bug_duplicate_count env c st1))
               (log ++ [CallIncrement c]))
  | None => (Some (resp None), mkWorld st1 log)
  end.
Proof.
  intros Hv Hins. unfold run.
  rewrite (submitBugReport_valid env req appId d p _ Hv), Hins. cbn [db calls].
  destruct (lookup env _ appId st); reflexivity.
Qed.

End Submission.

(** C3: a valid submission whose insert succeeds creates one new record; if
    the lookup found a canonical match the record is a duplicate of it with
    count 0 and the increment of the match is issued (when it goes through,
    the match counts one more and is stamped); if not, the record is open,
    canonical, with count 1, and no increment is issued. *)
Theorem submit_postcondition (env : Env) (req : Req.Submit) (st : Store)
    (appId d p : string) :
  validated req appId d p ->
  insertFault env = None ->
  idsBelowNext st ->
  let h := submitBugReport env req in
  let fp := generateFingerprint appId d (Req.screenName (Req.body req)) in
  let shots := List.length (uploadScreenshots env appId (Req.body req)) in
  exists created,
    In created (rows (after h st)) /\
    id created = next_id st /\
    (forall r, In r (rows st) -> id r <> id created) /\
    match eval (findDuplicate env fp appId) st with
    | Normal (Some c) =>
        status created = JsString "duplicate" /\
        canonical_id created = Some c /\
        duplicate_count created = 0%Z /\
        In (CallIncrement c) (issued h st) /\
        (rpcFault env = None ->
         forall m, In m (rows st) -> id m = c ->
         exists m', In m' (rows (after h st)) /\ id m' = c /\
                    duplicate_count m' = (duplicate_count m + 1)%Z /\
                    updated_at m' = now env) /\
        response h st =
          Some (mkResponse 201
                  (SubmittedJson (id created) (JsString "duplicate") true (Some c) shots))
    | Normal None =>
        status created = JsString "open" /\
        canonical_id created = None /\
        duplicate_count created = 1%Z /\
        (forall c, ~ In (CallIncrement c) (issued h st)) /\
        response h st =
          Some (mkResponse 201
                  (SubmittedJson (id created) (JsString "open") false None shots))
    | Throw _ => False
    end.
Proof.
  intros Hv Hins Hids h fp shots.
  exists (stamped env st (payloadOf env req appId d p st)).
  unfold after, issued, response, h.
  rewrite (run_valid_submission env req appId d p st Hv Hins).
  rewrite eval_findDuplicate. fold fp.
  assert (Hfresh : forall r, In r (rows st) ->
            id r <> id (stamped env st (payloadOf env req appId d p st))).
  { intros r Hr. specialize (Hids r Hr). simpl. lia. }
  unfold payloadOf. fold fp.
  destruct (lookup env fp appId st) as [c|] eqn:El; cbn [fst snd db calls].
  - destruct (lookup_Some _ _ _ _ _ El) as (r0 & Hr0 & Hc & _).
    rewrite increment_run.
    assert (Hne : Nat.eqb (next_id st) c = false).
    { apply Nat.eqb_neq. specialize (Hids r0 Hr0). lia. }
    split.
    + destruct (rpcFault env); cbn [snd rows].
      * apply in_or_app. right. now left.
      * rewrite map_app. apply in_or_app. right. simpl. rewrite Hne. now left.
    + split; [reflexivity|]. split; [exact Hfresh|].
      split; [reflexivity|]. split; [reflexivity|]. split; [reflexivity|].
      split; [apply in_or_app; right; now left|]. split; [|reflexivity].
      intros Hrpc m Hm Hmc. rewrite Hrpc. cbn [snd rows].
      exists (incremented env m). split; [|split; [exact Hmc|split; reflexivity]].
      apply in_map_iff. exists m. split.
      * apply Nat.eqb_eq in Hmc. now rewrite Hmc.
      * apply in_or_app. now left.
  - split; [apply in_or_app; right; now left|].
    split; [reflexivity|]. split; [exact Hfresh|].
    repeat split; try reflexivity.
    intros c [H|[H|[]]]; discriminate.
Qed.

Lemma submit_postcondition_witness :
  exists created,
    In created (rows (after (submitBugReport (quietEnv 2000) secondReport) afterFirst)) /\
    id created = 1 /\
    status created = JsString "duplicate" /\
    canonical_id created = Some 0 /\
    duplicate_count created = 0%Z /\
    In (CallIncrement 0) (issued (submitBugReport (quietEnv 2000) secondReport) afterFirst).
Proof.
  assert (Hv : validated secondReport "app1" "crash on launch" "low")
    by (repeat split; reflexivity).
  assert (Hids : idsBelowNext afterFirst).
  { intros r Hr. vm_compute in Hr. destruct Hr as [<-|[]]. vm_compute. constructor. }
  destruct (submit_postcondition (quietEnv 2000) secondReport afterFirst
              "app1" "crash on launch" "low" Hv eq_refl Hids)
    as (created & Hin & Hid & _ & Hcase).
  vm_compute in Hcase. destruct Hcase as (Hs & Hc & Hn & _ & _ & _).
  exists created.
  split; [exact Hin|]. split; [exact Hid|]. split; [exact Hs|].
  split; [exact Hc|]. split; [exact Hn|].
  vm_compute. right. right. left. reflexivity.
Defined.

Example scenario_first_submission :
  response (submitBugReport (quietEnv 1000) firstReport) emptyStore
  = Some (mkResponse 201 (SubmittedJson 0 (JsString "open") false None 0)).
Proof. vm_compute. reflexivity. Qed.

Example scenario_second_submission :
  response (submitBugReport (quietEnv 2000) secondReport) afterFirst
  = Some (mkResponse 201 (SubmittedJson 1 (JsString "duplicate") true (Some 0) 0))
  /\ dedupColumns (after (submitBugReport (quietEnv 2000) secondReport) afterFirst)
     = [(0, None, 2%Z); (1, Some 0, 0%Z)].
Proof. vm_compute. split; reflexivity. Qed.

(* ================================================================== *)
(** ** Failures of the store during a submission *)
(* ================================================================== *)

(** C2, at a failing input: the second report of the scenario arrives while
    the increment cannot reach the store. The handler answers 201 as for a
    counted duplicate, and the canonical record keeps the count 1 with a
    duplicate pointing at it. *)
Lemma failed_increment_goes_unreported :
  response (submitBugReport (incrementDown 2000) secondReport) afterFirst
  = Some (mkResponse 201 (SubmittedJson 1 (JsString "duplicate") true (Some 0) 0))
  /\ dedupColumns (after (submitBugReport (incrementDown 2000) secondReport) afterFirst)
     = [(0, None, 1%Z); (1, Some 0, 0%Z)]
  /\ In (CallIncrement 0)
        (issued (submitBugReport (incrementDown 2000) secondReport) afterFirst).
Proof.
  vm_compute. split; [reflexivity|]. split; [reflexivity|].
  right. right. left. reflexivity.
Qed.

(** The same for every valid duplicate submission: whatever the increment
    answers, the response is the 201 of a success. *)
Lemma increment_result_is_dropped (env : Env) (req : Req.Submit) (st : Store)
    (appId d p : string) (c : nat) :
  validated req appId d p ->
  insertFault env = None ->
  lookup env (generateFingerprint appId d (Req.screenName (Req.body req))) appId st
    = Some c ->
  exists i s n,
    response (submitBugReport env req) st
    = Some (mkResponse 201 (SubmittedJson i s true (Some c) n)).
Proof.
  intros Hv Hins Hl. unfold response.
  rewrite (run_valid_submission env req appId d p st Hv Hins), Hl.
  do 3 eexists. reflexivity.
Qed.

(** C8, at a failing input: the second report of the scenario arrives while
    the lookup cannot reach the store. The handler goes on as if there were
    no match: it answers 201 and stores a second canonical record. *)
Lemma failed_lookup_goes_unreported :
  response (submitBugReport (lookupDown 2000) secondReport) afterFirst
  = Some (mkResponse 201 (SubmittedJson 1 (JsString "open") false None 0))
  /\ dedupColumns (after (submitBugReport (lookupDown 2000) secondReport) afterFirst)
     = [(0, None, 1%Z); (1, None, 1%Z)].
Proof. vm_compute. split; reflexivity. Qed.

(** The same for every table: a lookup that fails reads as no match. *)
Lemma lookup_failure_reads_as_no_match (env : Env) (e : PostgrestError)
    (fp appId : string) (st : Store) :
  selectFault env = Some e ->
  eval (findDuplicate env fp appId) st = Normal None.
Proof.
  intro H. rewrite eval_findDuplicate. unfold lookup. now rewrite H.
Qed.

(* ================================================================== *)
(** ** Update: what is written *)
(* ================================================================== *)

Section Updating.

Lemma assign_buildUpdates (body : list (string * JsValue)) (r : Report) :
  Supabase.assign (buildUpdates body) r = Some (written body r).
Proof.
  unfold buildUpdates, written.
  destruct (truthy (getProp body "status")),
           (truthy (getProp body "fixStatus")),
           (isUndefined (getProp body "suggestedFix")),
           (isUndefined (getProp body "claudeAnalysis")); reflexivity.
Qed.

Lemma updateWhereId_ext (env : Env) (target : nat)
    (f g : Report -> option Report) (q : list Report) :
  (forall r, f r = g r) ->
  Supabase.updateWhereId env target f q = Supabase.updateWhereId env target g q.
Proof.
  intro H. induction q as [|r q IH]; simpl; [reflexivity|].
  now rewrite IH, H.
Qed.

Lemma update_run (env : Env) (target : nat) (body : list (string * JsValue))
    (st : Store) :
  Supabase.update env (buildUpdates body) target st =
  match updateFault env with
  | Some e => (Error e, st)
  | None =>
      (Supabase.single (Supabase.eq_id target (rowsUpdated env target body (rows st))),
       mkStore (rowsUpdated env target body (rows st)) (next_id st))
  end.
Proof.
  unfold Supabase.update. destruct (updateFault env); [reflexivity|].
  rewrite (updateWhereId_ext env target _ (fun r => Some (written body r)))
    by apply assign_buildUpdates.
  now rewrite updateWhereId_total.
Qed.

Lemma written_updated (env : Env) (target : nat)
    (body : list (string * JsValue)) (r : Report) :
  updated env target body r
    (if Nat.eqb (id r) target
     then Supabase.update_bug_report_timestamp env (written body r) else r).
Proof.
  unfold updated. destruct (Nat.eqb (id r) target); [|reflexivity].
  unfold written, frame, keptOrSet.
  destruct (truthy (getProp body "status")),
           (truthy (getProp body "fixStatus")),
           (isUndefined (getProp body "suggestedFix")),
           (isUndefined (getProp body "claudeAnalysis"));
    simpl; repeat split; reflexivity.
Qed.

Lemma rowsUpdated_Forall2 (env : Env) (target : nat)
    (body : list (string * JsValue)) (q : list Report) :
  Forall2 (updated env target body) q (rowsUpdated env target body q).
Proof.
  induction q as [|r q IH]; simpl; constructor; [apply written_updated | exact IH].
Qed.

Lemma Forall2_refl_on {A} (R : A -> A -> Prop) (l : list A) :
  (forall x, R x x) -> Forall2 R l l.
Proof. intro H. induction l; constructor; auto. Qed.

(** The handler, step by step. *)
Lemma updateBugReport_run (env : Env) (target : nat)
    (body : list (string * JsValue)) (st : Store) :
  run (updateBugReport env target body) st =
  match buildUpdates body with
  | [] => (Some (mkResponse 400 (ErrorJson "No valid fields to update")),
           mkWorld st [])
  | _ :: _ =>
      let log := [CallUpdate target (buildUpdates body)] in
      match updateFault env with
      | Some e =>
          (Some (if String.eqb (code e) "PGRST116"
                 then mkResponse 404 (ErrorJson "Bug report not found")
                 else mkResponse 500 (ErrorJson (message e))),
           mkWorld st log)
      | None =>
          let rows' := rowsUpdated env target body (rows st) in
          (Some match Supabase.single (Supabase.eq_id target rows') with
                | Data data => mkResponse 200 (ReportJson data)
                | Error _ => mkResponse 404 (ErrorJson "Bug report not found")
                end,
           mkWorld (mkStore rows' (next_id st)) log)
      end
  end.
Proof.
  unfold run, updateBugReport, tryCatch.
  destruct (buildUpdates body) as [|u us] eqn:E; [reflexivity|].
  unfold bind, await. cbn [db calls]. rewrite <- E, update_run.
  destruct (updateFault env) as [e|].
  - cbn [app]. destruct (String.eqb (code e) "PGRST116"); reflexivity.
  - cbn [app].
    destruct (Supabase.single _) as [data|e] eqn:Es; [reflexivity|].
    assert (He : e = noRows).
    { revert Es. unfold Supabase.single.
      destruct (Supabase.eq_id _ _) as [|x [|y l]]; congruence. }
    subst e. reflexivity.
Qed.

End Updating.

Section UpdateFrame.

Lemma frame_refl (r : Report) : frame r r.
Proof. unfold frame. repeat split. Qed.

Lemma writesOnlySupplied_refl (env : Env) (body : list (string * JsValue))
    (r : Report) : writesOnlySupplied env body r r.
Proof.
  unfold writesOnlySupplied, keptOrSupplied.
  split; [apply frame_refl|]. repeat split; now left.
Qed.

Lemma truthy_supplied (v : JsValue) : truthy v = true -> v <> JsUndefined.
Proof. intros H E. subst v. discriminate. Qed.

Lemma defined_supplied (v : JsValue) :
  negb (isUndefined v) = true -> v <> JsUndefined.
Proof. intros H E. subst v. discriminate. Qed.

Lemma keptOrSet_keptOrSupplied (body : list (string * JsValue)) (field : string)
    (b : bool) (old new : JsValue) :
  (b = true -> getProp body field <> JsUndefined) ->
  keptOrSet b (getProp body field) old new ->
  keptOrSupplied body field old new.
Proof.
  unfold keptOrSet, keptOrSupplied, supplied. destruct b; intros Hb H.
  - right. split; [now apply Hb | exact H].
  - now left.
Qed.

Lemma updated_writesOnlySupplied (env : Env) (target : nat)
    (body : list (string * JsValue)) (r r' : Report) :
  updated env target body r r' -> writesOnlySupplied env body r r'.
Proof.
  unfold updated. destruct (Nat.eqb (id r) target).
  - intros (Hf & Hs & Hx & Hg & Hc & Hu). unfold writesOnlySupplied.
    split; [exact Hf|].
    split; [eapply keptOrSet_keptOrSupplied; [apply truthy_supplied | exact Hs]|].
    split; [eapply keptOrSet_keptOrSupplied; [apply truthy_supplied | exact Hx]|].
    split; [eapply keptOrSet_keptOrSupplied; [apply defined_supplied | exact Hg]|].
    split; [eapply keptOrSet_keptOrSupplied; [apply defined_supplied | exact Hc]|].
    now right.
  - intros ->. apply writesOnlySupplied_refl.
Qed.

Lemma Forall2_impl' {A B} (R S : A -> B -> Prop) (l : list A) (l' : list B) :
  (forall x y, R x y -> S x y) -> Forall2 R l l' -> Forall2 S l l'.
Proof. intros H F. induction F; constructor; auto. Qed.

Lemma rowsUpdated_absent (env : Env) (target : nat)
    (body : list (string * JsValue)) (q : list Report) :
  (forall r, In r q -> id r <> target) ->
  rowsUpdated env target body q = q /\ Supabase.eq_id target q = [].
Proof.
  induction q as [|r q IH]; intro H; [split; reflexivity|].
  assert (Hr : Nat.eqb (id r) target = false)
    by (apply Nat.eqb_neq, H; now left).
  destruct IH as [IH1 IH2]; [intros x Hx; apply H; now right|].
  unfold rowsUpdated, Supabase.eq_id in *. simpl. rewrite Hr.
  split; [now f_equal | exact IH2].
Qed.

Lemma rowsUpdated_present (env : Env) (target : nat)
    (body : list (string * JsValue)) (q : list Report) (r : Report) :
  NoDup (map id q) -> In r q -> id r = target ->
  Supabase.eq_id target (rowsUpdated env target body q)
  = [Supabase.update_bug_report_timestamp env (written body r)].
Proof.
  induction q as [|x q IH]; intros Hnd Hin Hid; [destruct Hin|].
  simpl in Hnd. apply NoDup_cons_iff in Hnd. destruct Hnd as [Hx Hnd].
  unfold rowsUpdated, Supabase.eq_id in *. simpl.
  destruct Hin as [->|Hin].
  - assert (Hrest : forall y, In y q -> id y <> target).
    { intros y Hy E. apply Hx. rewrite Hid, <- E. now apply in_map. }
    destruct (rowsUpdated_absent env target body q Hrest) as [E1 E2].
    unfold rowsUpdated, Supabase.eq_id in E1, E2.
    rewrite Hid, Nat.eqb_refl. simpl.
    assert (Hk : Nat.eqb (id (written body r)) target = true).
    { apply Nat.eqb_eq. rewrite <- Hid.
      unfold written.
      destruct (truthy _), (truthy _), (isUndefined _), (isUndefined _);
        reflexivity. }
    rewrite Hk, E1, E2. reflexivity.
  - assert (Hxt : Nat.eqb (id x) target = false).
    { apply Nat.eqb_neq. intro E. apply Hx. rewrite E, <- Hid.
      now apply in_map. }
    rewrite Hxt. simpl. rewrite Hxt. now apply IH.
Qed.

Lemma nothing_supplied (body : list (string * JsValue)) :
  ~ supplied body "status" -> ~ supplied body "fixStatus" ->
  ~ supplied body "suggestedFix" -> ~ supplied body "claudeAnalysis" ->
  buildUpdates body = [].
Proof.
  unfold supplied, buildUpdates. intros H1 H2 H3 H4.
  destruct (getProp body "status"); try (exfalso; apply H1; discriminate).
  destruct (getProp body "fixStatus"); try (exfalso; apply H2; discriminate).
  destruct (getProp body "suggestedFix"); try (exfalso; apply H3; discriminate).
  destruct (getProp body "claudeAnalysis"); try (exfalso; apply H4; discriminate).
  reflexivity.
Qed.

End UpdateFrame.

(** C9, as stated, fails on one column: every UPDATE fires the trigger that
    stamps [updated_at], so the update of the status at instant 5000 changes
    the last-update stamp of the record created at 1000. And of the two
    refusals the empty one comes first: an update with nothing to write
    answers 400, not 404, also when no record has the id. *)
Lemma update_refreshes_updated_at :
  map updated_at (rows afterFirst) = [1000%Z] /\
  map updated_at
    (rows (after (updateBugReport (quietEnv 5000) 0 [("status", JsString "resolved")])
                 afterFirst))
  = [5000%Z] /\
  response (updateBugReport (quietEnv 5000) 7 []) afterFirst
  = Some (mkResponse 400 (ErrorJson "No valid fields to update")).
Proof. vm_compute. split; [|split]; reflexivity. Qed.

(** C9, amended: whatever the request and the table, an update leaves every
    row as it was outside the four updatable columns and the last-update
    stamp (fingerprint, canonical_id and duplicate_count in particular), and
    sets an updatable column only to a value the request supplies for it;
    with none of the four fields supplied it answers 400 without calling the
    store; with something to write and the store reachable, an id that no
    row has answers 404 and leaves the table as it was, and the id of a row
    answers 200 with that row, rewritten and stamped. *)
Theorem update_frame (env : Env) (target : nat) (body : list (string * JsValue))
    (st : Store) :
  let h := updateBugReport env target body in
  (Forall2 (writesOnlySupplied env body) (rows st) (rows (after h st)) /\
   next_id (after h st) = next_id st) /\
  (~ supplied body "status" -> ~ supplied body "fixStatus" ->
   ~ supplied body "suggestedFix" -> ~ supplied body "claudeAnalysis" ->
   response h st = Some (mkResponse 400 (ErrorJson "No valid fields to update")) /\
   after h st = st /\ issued h st = []) /\
  (buildUpdates body <> [] -> updateFault env = None ->
   (forall r, In r (rows st) -> id r <> target) ->
   response h st = Some (mkResponse 404 (ErrorJson "Bug report not found")) /\
   after h st = st) /\
  (buildUpdates body <> [] -> updateFault env = None ->
   NoDup (map id (rows st)) ->
   forall r, In r (rows st) -> id r = target ->
   exists r', response h st = Some (mkResponse 200 (ReportJson r')) /\
              In r' (rows (after h st)) /\
              updated env target body r r').
Proof.
  intro h. unfold after, response, issued, h. rewrite updateBugReport_run.
  split; [|split; [|split]].
  - destruct (buildUpdates body) as [|u us];
      [split; [apply Forall2_refl_on, writesOnlySupplied_refl | reflexivity]|].
    cbv zeta. destruct (updateFault env);
      [split; [apply Forall2_refl_on, writesOnlySupplied_refl | reflexivity]|].
    cbn [snd db rows next_id]. split; [|reflexivity].
    eapply Forall2_impl'; [|apply rowsUpdated_Forall2].
    apply updated_writesOnlySupplied.
  - intros H1 H2 H3 H4. rewrite (nothing_supplied body H1 H2 H3 H4).
    repeat split.
  - intros Hne Hok Habs. destruct (buildUpdates body) as [|u us]; [congruence|].
    cbv zeta. rewrite Hok.
    destruct (rowsUpdated_absent env target body (rows st) Habs) as [E1 E2].
    rewrite E1, E2. cbn [fst snd db]. split; [reflexivity|].
    now destruct st.
  - intros Hne Hok Hnd r Hin Hid.
    destruct (buildUpdates body) as [|u us]; [congruence|].
    cbv zeta. rewrite Hok.
    rewrite (rowsUpdated_present env target body (rows st) r Hnd Hin Hid).
    exists (Supabase.update_bug_report_timestamp env (written body r)).
    cbn [fst snd db rows Supabase.single].
    split; [reflexivity|]. split.
    + unfold rowsUpdated.
      apply in_map_iff. exists r. split; [|exact Hin].
      apply Nat.eqb_eq in Hid. now rewrite Hid.
    + pose proof (written_updated env target body r) as Hw.
      apply Nat.eqb_eq in Hid. now rewrite Hid in Hw.
Qed.

Lemma update_frame_witness :
  exists r',
    response (updateBugReport (quietEnv 5000) 0 [("status", JsString "resolved")])
             afterFirst
    = Some (mkResponse 200 (ReportJson r')) /\
    status r' = JsString "resolved" /\
    fingerprint r' = crashFingerprint /\ canonical_id r' = None /\
    duplicate_count r' = 1%Z.
Proof.
  pose (body := [("status", JsString "resolved")]).
  pose (r := hd (sampleRow 0 "" "" None 0 0) (rows afterFirst)).
  destruct (update_frame (quietEnv 5000) 0 body afterFirst) as (_ & _ & _ & H).
  assert (Hw : buildUpdates body <> []) by (vm_compute; discriminate).
  assert (Hnd : NoDup (map id (rows afterFirst)))
    by (vm_compute; constructor; [intros []|constructor]).
  assert (Hin : In r (rows afterFirst)) by (vm_compute; left; reflexivity).
  destruct (H Hw eq_refl Hnd r Hin eq_refl) as (r' & Hresp & _ & Hupd).
  exists r'. split; [exact Hresp|].
  vm_compute in Hupd.
  destruct Hupd as ((_ & _ & _ & _ & _ & _ & _ & _ & _ & _ & _ & _ & Hf & Hc & Hn & _)
                    & Hs & _).
  split; [exact Hs|]. split; [exact Hf|]. split; [exact Hc|exact Hn].
Defined.

Example update_existing :
  response (updateBugReport (quietEnv 5000) 0 [("status", JsString "resolved")])
           afterFirst
  = Some (mkResponse 200
            (ReportJson (set_updated_at 5000
                           (set_status (JsString "resolved")
                              (hd (sampleRow 0 "" "" None 0 0) (rows afterFirst)))))).
Proof. vm_compute. reflexivity. Qed.

Example update_unknown_id :
  response (updateBugReport (quietEnv 5000) 7 [("status", JsString "resolved")])
           afterFirst
  = Some (mkResponse 404 (ErrorJson "Bug report not found")).
Proof. vm_compute. reflexivity. Qed.

(** Fields the handler does not read are not written, whatever they name. *)
Example update_ignores_other_fields :
  dedupColumns
    (after (updateBugReport (quietEnv 5000) 0
              [("status", JsString "resolved"); ("canonical_id", JsNumber 0);
               ("duplicate_count", JsNumber 40); ("fingerprint", JsString "x")])
           afterFirst)
  = dedupColumns afterFirst.
Proof. vm_compute. reflexivity. Qed.

(** The store itself would write them, were it asked to. *)
Example store_can_write_dedup_columns :
  dedupColumns
    (snd (Supabase.update (quietEnv 5000)
            [("canonical_id", JsNumber 0); ("duplicate_count", JsNumber 40)] 0
            afterFirst))
  = [(0, Some 0, 40%Z)].
Proof. vm_compute. reflexivity. Qed.

(* ================================================================== *)
(** ** Update: falsy fields *)
(* ================================================================== *)

Section FalsyFields.

Lemma status_entry (v v' : JsValue) (column : string) :
  v' = v \/ (truthy v = false /\ v' = JsUndefined) ->
  (if truthy v' then [(column, v')] else [])
  = (if truthy v then [(column, v)] else []).
Proof.
  intros [->|[Hf ->]]; [reflexivity|]. now rewrite Hf.
Qed.

Lemma buildUpdates_falsy_absent (body body' : list (string * JsValue)) :
  sameOrFalsyAbsent body body' "status" ->
  sameOrFalsyAbsent body body' "fixStatus" ->
  getProp body' "suggestedFix" = getProp body "suggestedFix" ->
  getProp body' "claudeAnalysis" = getProp body "claudeAnalysis" ->
  buildUpdates body' = buildUpdates body.
Proof.
  unfold sameOrFalsyAbsent, buildUpdates. intros Hs Hx -> ->.
  now rewrite (status_entry _ _ "status" Hs), (status_entry _ _ "fix_status" Hx).
Qed.

Lemma In_buildUpdates (body : list (string * JsValue)) (column : string)
    (v : JsValue) :
  In (column, v) (buildUpdates body) <->
  (column = "status" /\ v = getProp body "status" /\
   truthy (getProp body "status") = true) \/
  (column = "fix_status" /\ v = getProp body "fixStatus" /\
   truthy (getProp body "fixStatus") = true) \/
  (column = "suggested_fix" /\ v = getProp body "suggestedFix" /\
   getProp body "suggestedFix" <> JsUndefined) \/
  (column = "claude_analysis" /\ v = getProp body "claudeAnalysis" /\
   getProp body "claudeAnalysis" <> JsUndefined).
Proof.
  unfold buildUpdates. rewrite !in_app_iff.
  assert (U : forall x, isUndefined x = true <-> x = JsUndefined)
    by (intros []; simpl; split; congruence).
  destruct (truthy (getProp body "status")),
           (truthy (getProp body "fixStatus")),
           (isUndefined (getProp body "suggestedFix")) eqn:E3,
           (isUndefined (getProp body "claudeAnalysis")) eqn:E4;
    try apply U in E3; try apply U in E4;
    try (assert (N3 : getProp body "suggestedFix" <> JsUndefined)
           by (intro H; apply U in H; congruence));
    try (assert (N4 : getProp body "claudeAnalysis" <> JsUndefined)
           by (intro H; apply U in H; congruence));
    simpl; intuition (try congruence; try discriminate);
    match goal with
    | H : (_, _) = (_, _) |- _ => injection H as <- <-; tauto
    end.
Qed.

(** An update that has something to write and addresses a record of the
    table: the answer, the call and the row the table holds afterwards. *)
Lemma update_present (env : Env) (target : nat) (body : list (string * JsValue))
    (st : Store) (r : Report) :
  buildUpdates body <> [] -> updateFault env = None ->
  NoDup (map id (rows st)) -> In r (rows st) -> id r = target ->
  let h := updateBugReport env target body in
  let r' := Supabase.update_bug_report_timestamp env (written body r) in
  response h st = Some (mkResponse 200 (ReportJson r')) /\
  In r' (rows (after h st)) /\
  issued h st = [CallUpdate target (buildUpdates body)].
Proof.
  intros Hne Hok Hnd Hin Hid h r'. unfold h, response, after, issued.
  rewrite updateBugReport_run.
  destruct (buildUpdates body) as [|u us] eqn:E; [congruence|].
  cbv zeta. rewrite Hok.
  rewrite (rowsUpdated_present env target body (rows st) r Hnd Hin Hid).
  cbn [fst snd db rows calls Supabase.single].
  split; [reflexivity|]. split; [|reflexivity].
  unfold rowsUpdated. apply in_map_iff. exists r. split; [|exact Hin].
  apply Nat.eqb_eq in Hid. now rewrite Hid.
Qed.

(** The columns an update leaves as they are, whatever the table. *)
Lemma update_keeps_column {A} (column : Report -> A) (env : Env) (target : nat)
    (body : list (string * JsValue)) (st : Store) :
  (forall r, column (Supabase.update_bug_report_timestamp env (written body r))
             = column r) ->
  map column (rows (after (updateBugReport env target body) st))
  = map column (rows st).
Proof.
  intro H. unfold after. rewrite updateBugReport_run.
  destruct (buildUpdates body); [reflexivity|].
  cbv zeta. destruct (updateFault env); [reflexivity|].
  cbn [snd db rows]. unfold rowsUpdated. rewrite map_map.
  apply map_ext. intro r. destruct (Nat.eqb (id r) target); [apply H | reflexivity].
Qed.

End FalsyFields.

(** C10: a status or fixStatus that is supplied but falsy counts as absent:
    the update runs as on the body without it, never writes it (the column
    keeps its value in every row), and, when nothing else is supplied, is
    refused with 400 without calling the store; suggestedFix and
    claudeAnalysis are written whenever they are not undefined, null and
    the empty string included: the update of an existing record answers 200
    and the record then holds the value given. *)
Theorem falsy_status_counts_as_absent (env : Env) (target : nat)
    (body : list (string * JsValue)) :
  (forall body',
     sameOrFalsyAbsent body body' "status" ->
     sameOrFalsyAbsent body body' "fixStatus" ->
     getProp body' "suggestedFix" = getProp body "suggestedFix" ->
     getProp body' "claudeAnalysis" = getProp body "claudeAnalysis" ->
     updateBugReport env target body' = updateBugReport env target body) /\
  (truthy (getProp body "status") = false ->
     (forall v, ~ In ("status", v) (buildUpdates body)) /\
     forall st, map status (rows (after (updateBugReport env target body) st))
                = map status (rows st)) /\
  (truthy (getProp body "fixStatus") = false ->
     (forall v, ~ In ("fix_status", v) (buildUpdates body)) /\
     forall st, map fix_status (rows (after (updateBugReport env target body) st))
                = map fix_status (rows st)) /\
  (truthy (getProp body "status") = false ->
   truthy (getProp body "fixStatus") = false ->
   getProp body "suggestedFix" = JsUndefined ->
   getProp body "claudeAnalysis" = JsUndefined ->
   forall st,
     response (updateBugReport env target body) st
       = Some (mkResponse 400 (ErrorJson "No valid fields to update")) /\
     after (updateBugReport env target body) st = st /\
     issued (updateBugReport env target body) st = []) /\
  (getProp body "suggestedFix" <> JsUndefined ->
     In ("suggested_fix", getProp body "suggestedFix") (buildUpdates body) /\
     (forall r, exists r', Supabase.assign (buildUpdates body) r = Some r' /\
                           suggested_fix r' = getProp body "suggestedFix") /\
     forall st r,
       updateFault env = None -> NoDup (map id (rows st)) ->
       In r (rows st) -> id r = target ->
       exists r',
         response (updateBugReport env target body) st
         = Some (mkResponse 200 (ReportJson r')) /\
         In r' (rows (after (updateBugReport env target body) st)) /\
         id r' = target /\
         suggested_fix r' = getProp body "suggestedFix") /\
  (getProp body "claudeAnalysis" <> JsUndefined ->
     In ("claude_analysis", getProp body "claudeAnalysis") (buildUpdates body) /\
     (forall r, exists r', Supabase.assign (buildUpdates body) r = Some r' /\
                           claude_analysis r' = getProp body "claudeAnalysis") /\
     forall st r,
       updateFault env = None -> NoDup (map id (rows st)) ->
       In r (rows st) -> id r = target ->
       exists r',
         response (updateBugReport env target body) st
         = Some (mkResponse 200 (ReportJson r')) /\
         In r' (rows (after (updateBugReport env target body) st)) /\
         id r' = target /\
         claude_analysis r' = getProp body "claudeAnalysis").
Proof.
  assert (Hsug : getProp body "suggestedFix" <> JsUndefined ->
                 forall r, suggested_fix (written body r)
                           = getProp body "suggestedFix").
  { intros Hd r. unfold written.
    destruct (getProp body "suggestedFix") eqn:E; [congruence| | | | | |];
      destruct (isUndefined (getProp body "claudeAnalysis")); reflexivity. }
  assert (Hcla : getProp body "claudeAnalysis" <> JsUndefined ->
                 forall r, claude_analysis (written body r)
                           = getProp body "claudeAnalysis").
  { intros Hd r. unfold written.
    destruct (getProp body "claudeAnalysis") eqn:E; [congruence| | | | | |];
      reflexivity. }
  assert (Hstored : forall column v,
            In (column, v) (buildUpdates body) ->
            forall st r,
              updateFault env = None -> NoDup (map id (rows st)) ->
              In r (rows st) -> id r = target ->
              let r' := Supabase.update_bug_report_timestamp env (written body r) in
              response (updateBugReport env target body) st
              = Some (mkResponse 200 (ReportJson r')) /\
              In r' (rows (after (updateBugReport env target body) st)) /\
              id r' = target).
  { intros column v Hin st r Hok Hnd Hr Hid r'.
    assert (Hne : buildUpdates body <> [])
      by (intro E; rewrite E in Hin; destruct Hin).
    destruct (update_present env target body st r Hne Hok Hnd Hr Hid)
      as (Hresp & Hrow & _).
    split; [exact Hresp|]. split; [exact Hrow|].
    unfold r'. pose proof (written_updated env target body r) as Hu.
    unfold updated in Hu. rewrite (proj2 (Nat.eqb_eq _ _) Hid) in Hu.
    rewrite <- Hid. exact (proj1 (proj1 Hu)). }
  split; [|split; [|split; [|split; [|split]]]].
  - intros body' Hs Hx Hg Hc. unfold updateBugReport.
    now rewrite (buildUpdates_falsy_absent body body' Hs Hx Hg Hc).
  - intros Hf. split.
    + intros v Hin. apply In_buildUpdates in Hin.
      destruct Hin as [(_ & _ & H)|[(H & _)|[(H & _)|(H & _)]]];
        congruence || discriminate.
    + intro st. apply update_keeps_column. intro r. unfold written. rewrite Hf.
      destruct (truthy (getProp body "fixStatus")),
               (isUndefined (getProp body "suggestedFix")),
               (isUndefined (getProp body "claudeAnalysis")); reflexivity.
  - intros Hf. split.
    + intros v Hin. apply In_buildUpdates in Hin.
      destruct Hin as [(H & _)|[(_ & _ & H)|[(H & _)|(H & _)]]];
        congruence || discriminate.
    + intro st. apply update_keeps_column. intro r. unfold written. rewrite Hf.
      destruct (truthy (getProp body "status")),
               (isUndefined (getProp body "suggestedFix")),
               (isUndefined (getProp body "claudeAnalysis")); reflexivity.
  - intros Hs Hx Hg Hc st. unfold response, after, issued.
    rewrite updateBugReport_run. unfold buildUpdates.
    rewrite Hs, Hx, Hg, Hc. repeat split.
  - intro Hd.
    assert (Hin : In ("suggested_fix", getProp body "suggestedFix")
                     (buildUpdates body))
      by (apply In_buildUpdates; right; right; left; auto).
    split; [exact Hin|]. split.
    + intro r. exists (written body r). split; [apply assign_buildUpdates|].
      now apply Hsug.
    + intros st r Hok Hnd Hr Hid.
      destruct (Hstored _ _ Hin st r Hok Hnd Hr Hid) as (Hresp & Hrow & Hi).
      eexists. split; [exact Hresp|]. split; [exact Hrow|]. split; [exact Hi|].
      now apply Hsug.
  - intro Hd.
    assert (Hin : In ("claude_analysis", getProp body "claudeAnalysis")
                     (buildUpdates body))
      by (apply In_buildUpdates; right; right; right; auto).
    split; [exact Hin|]. split.
    + intro r. exists (written body r). split; [apply assign_buildUpdates|].
      now apply Hcla.
    + intros st r Hok Hnd Hr Hid.
      destruct (Hstored _ _ Hin st r Hok Hnd Hr Hid) as (Hresp & Hrow & Hi).
      eexists. split; [exact Hresp|]. split; [exact Hrow|]. split; [exact Hi|].
      now apply Hcla.
Qed.

Lemma falsy_status_counts_as_absent_witness :
  response (updateBugReport (quietEnv 5000) 0
              [("status", JsString ""); ("fixStatus", JsBool false)]) afterFirst
  = Some (mkResponse 400 (ErrorJson "No valid fields to update")) /\
  exists r',
    response (updateBugReport (quietEnv 500) 1
                [("status", JsString ""); ("suggestedFix", JsNull)]) threeCanonicals
    = Some (mkResponse 200 (ReportJson r')) /\
    In r' (rows (after (updateBugReport (quietEnv 500) 1
                          [("status", JsString ""); ("suggestedFix", JsNull)])
                   threeCanonicals)) /\
    id r' = 1 /\ suggested_fix r' = JsNull.
Proof.
  split.
  - exact (proj1 (proj1 (proj2 (proj2 (proj2
             (falsy_status_counts_as_absent (quietEnv 5000) 0
                [("status", JsString ""); ("fixStatus", JsBool false)]))))
             eq_refl eq_refl eq_refl eq_refl afterFirst)).
  - refine (proj2 (proj2 (proj1 (proj2 (proj2 (proj2 (proj2
              (falsy_status_counts_as_absent (quietEnv 500) 1
                 [("status", JsString ""); ("suggestedFix", JsNull)])))))
              _)) threeCanonicals (sampleRow 1 "app1" "fp" None 1 100)
              eq_refl _ _ eq_refl).
    + discriminate.
    + cbn. repeat (constructor; [cbn; intuition discriminate|]). constructor.
    + right. left. reflexivity.
Defined.

(** The empty string, for one. *)
Example update_empty_status :
  response (updateBugReport (quietEnv 5000) 0
              [("status", JsString ""); ("fixStatus", JsNull)]) afterFirst
  = Some (mkResponse 400 (ErrorJson "No valid fields to update")).
Proof. vm_compute. reflexivity. Qed.

(** A suggested fix is written, then cleared by a null. *)
Example update_null_suggestedFix :
  let st := after (updateBugReport (quietEnv 4000) 0
                     [("suggestedFix", JsString "restart the app")]) afterFirst in
  map suggested_fix (rows st) = [JsString "restart the app"] /\
  map (fun r => (status r, suggested_fix r, claude_analysis r))
    (rows (after (updateBugReport (quietEnv 5000) 0
                    [("status", JsString ""); ("suggestedFix", JsNull);
                     ("claudeAnalysis", JsString "")]) st))
  = [(JsString "open", JsNull, JsString "")].
Proof. vm_compute. split; reflexivity. Qed.

(* ================================================================== *)
(** ** The states the service can reach *)
(* ================================================================== *)

Section Invariants.

Lemma consistent_map (g : Report -> Report) (st : Store) :
  keepsKeys g -> consistent st ->
  consistent (mkStore (map g (rows st)) (next_id st)).
Proof.
  intros Hg [[Hids Hnd] Hnc]. split; [split|].
  - intros r' Hr'. cbn [rows next_id] in *. apply in_map_iff in Hr'.
    destruct Hr' as (r & <- & Hr). destruct (Hg r) as (-> & _). now apply Hids.
  - cbn [rows]. rewrite map_map.
    rewrite (map_ext (fun x => id (g x)) id); [exact Hnd|].
    intro r. apply Hg.
  - intros r' Hr'. cbn [rows] in Hr'. apply in_map_iff in Hr'.
    destruct Hr' as (r & <- & Hr). specialize (Hnc r Hr).
    unfold rooted in *. destruct (Hg r) as (Ei & Ea & Ec). rewrite Ec, Ei, Ea.
    destruct (canonical_id r) as [c|]; [|exact I].
    destruct Hnc as (Hne & root & Hroot & Hid & Happ & Hcan).
    split; [exact Hne|]. exists (g root). cbn [rows].
    destruct (Hg root) as (Ei' & Ea' & Ec').
    split; [now apply in_map|]. rewrite Ei', Ea', Ec'. auto.
Qed.

Lemma keepsKeys_updated (env : Env) (target : nat) (body : list (string * JsValue)) :
  keepsKeys (fun r => if Nat.eqb (id r) target
                      then Supabase.update_bug_report_timestamp env (written body r)
                      else r).
Proof.
  intro r. pose proof (written_updated env target body r) as H.
  unfold updated in H. destruct (Nat.eqb (id r) target); [|auto].
  destruct H as (Hf & _). unfold frame in Hf. tauto.
Qed.

Lemma keepsKeys_incremented (env : Env) (c : nat) :
  keepsKeys (fun r => if Nat.eqb (id r) c then incremented env r else r).
Proof. intro r. destruct (Nat.eqb (id r) c); auto. Qed.

Lemma consistent_insert (st : Store) (data : Report) :
  consistent st ->
  id data = next_id st ->
  match canonical_id data with
  | None => True
  | Some c => exists root, In root (rows st) /\ id root = c /\
                           app_id root = app_id data /\ canonical_id root = None
  end ->
  consistent (mkStore (rows st ++ [data]) (S (next_id st))).
Proof.
  intros [[Hids Hnd] Hnc] Hid Hlink. split; [split|].
  - intros r Hr. cbn [rows next_id] in *. apply in_app_iff in Hr.
    destruct Hr as [Hr|[<-|[]]]; [specialize (Hids r Hr)|]; lia.
  - cbn [rows]. rewrite map_app. simpl. apply NoDup_app; [exact Hnd| |].
    + constructor; [intros []|constructor].
    + intros i Hi [<-|[]]. apply in_map_iff in Hi. destruct Hi as (r & Er & Hr).
      specialize (Hids r Hr). lia.
  - intros r Hr. cbn [rows] in Hr. apply in_app_iff in Hr.
    unfold rooted. cbn [rows].
    destruct Hr as [Hr|[<-|[]]].
    + specialize (Hnc r Hr). unfold rooted in Hnc.
      destruct (canonical_id r) as [c|]; [|exact I].
      destruct Hnc as (Hne & root & Hroot & H). split; [exact Hne|].
      exists root. split; [apply in_app_iff; now left | exact H].
    + destruct (canonical_id data) as [c|]; [|exact I].
      destruct Hlink as (root & Hroot & Hc & H). split.
      * specialize (Hids root Hroot). lia.
      * exists root. split; [apply in_app_iff; now left | auto].
Qed.

Lemma consistent_increment (env : Env) (c : nat) (st : Store) :
  consistent st ->
  consistent (snd (Supabase.increment_bug_duplicate_count env c st)).
Proof.
  intro H. rewrite increment_run. destruct (rpcFault env); [exact H|].
  cbn [snd]. apply consistent_map; [apply keepsKeys_incremented | exact H].
Qed.

Lemma consistent_submit (env : Env) (req : Req.Submit) (st : Store) :
  consistent st -> consistent (after (submitBugReport env req) st).
Proof.
  intro H. unfold after.
  destruct (validated_dec req) as [(a & d & p & Hv)|Hinv].
  - destruct (insertFault env) as [e|] eqn:Hins.
    + unfold run. rewrite (submitBugReport_valid env req a d p _ Hv), Hins.
      exact H.
    + rewrite (run_valid_submission env req a d p st Hv Hins).
      set (fp := generateFingerprint a d (Req.screenName (Req.body req))).
      assert (Hst1 : consistent
                (mkStore (rows st ++ [stamped env st (payloadOf env req a d p st)])
                         (S (next_id st)))).
      { apply consistent_insert; [exact H | reflexivity |].
        unfold payloadOf. fold fp. cbn [stamped canonical_id set_id
          set_created_at set_updated_at newReport app_id].
        destruct (lookup env fp a st) as [c|] eqn:El; [|exact I].
        destruct (lookup_Some _ _ _ _ _ El) as (root & Hroot & Hc & Ha & Hn & _).
        exists root. auto. }
      destruct (lookup env fp a st) as [c|]; cbn [snd db]; [|exact Hst1].
      now apply consistent_increment.
  - destruct (submitBugReport_invalid env req (mkWorld st []) Hinv) as [msg E].
    unfold run. rewrite E. exact H.
Qed.

Lemma consistent_update (env : Env) (target : nat)
    (body : list (string * JsValue)) (st : Store) :
  consistent st -> consistent (after (updateBugReport env target body) st).
Proof.
  intro H. unfold after. rewrite updateBugReport_run.
  destruct (buildUpdates body); [exact H|].
  cbv zeta. destruct (updateFault env); [exact H|].
  cbn [snd db]. apply consistent_map; [apply keepsKeys_updated | exact H].
Qed.

Lemma reachable_consistent (st : Store) : reachable st -> consistent st.
Proof.
  induction 1 as [|st op _ IH].
  - split; [split|]; [intros r [] | constructor | intros r []].
  - destruct op; [now apply consistent_submit | now apply consistent_update].
Qed.

End Invariants.

(** C4: in every table reached by submissions and updates, a record either
    has no canonical_id or points at an existing record of the same tenant,
    other than itself, whose own canonical_id is null. *)
Theorem no_chain_invariant (st : Store) (r : Report) :
  reachable st -> In r (rows st) ->
  canonical_id r = None \/
  exists root, canonical_id r = Some (id root) /\ In root (rows st) /\
               id root <> id r /\ app_id root = app_id r /\
               canonical_id root = None.
Proof.
  intros Hreach Hr.
  destruct (reachable_consistent st Hreach) as [_ Hnc].
  specialize (Hnc r Hr). unfold rooted in Hnc.
  destruct (canonical_id r) as [c|]; [|now left].
  right. destruct Hnc as (Hne & root & Hroot & Hid & Happ & Hcan).
  exists root. subst c. auto.
Qed.

Lemma no_chain_invariant_witness :
  let r := nth 1 (rows afterSecond) (sampleRow 0 "" "" None 0 0) in
  canonical_id r = None \/
  exists root, canonical_id r = Some (id root) /\ In root (rows afterSecond) /\
               id root <> id r /\ app_id root = app_id r /\
               canonical_id root = None.
Proof.
  apply no_chain_invariant.
  - exact (reachable_step _ (Submit (quietEnv 2000) secondReport)
             (reachable_step _ (Submit (quietEnv 1000) firstReport)
                reachable_empty)).
  - vm_compute. right. left. reflexivity.
Defined.

(* ================================================================== *)
(** ** Count conservation *)
(* ================================================================== *)

Section CountConservation.

Variables (appId fp : string).

Lemma filter_map_commute {A} (p : A -> bool) (g : A -> A) (l : list A) :
  (forall x, p (g x) = p x) -> filter p (map g l) = map g (filter p l).
Proof.
  intro H. induction l as [|x l IH]; simpl; [reflexivity|].
  rewrite H. destruct (p x); simpl; now rewrite IH.
Qed.








End CountConservation.



Example three_reports_counted :
  dedupColumns (submitAll threeReports emptyStore)
  = [(0, None, 3%Z); (1, Some 0, 0%Z); (2, Some 0, 0%Z)].
Proof. vm_compute. reflexivity. Qed.

(** One millisecond later the third report opens a cluster of its own. *)
Example late_report_not_counted :
  dedupColumns
    (submitAll [ (quietEnv 1000, firstReport); (quietEnv 2000, secondReport);
                 (quietEnv (1001 + sevenDays), firstReport) ] emptyStore)
  = [(0, None, 2%Z); (1, Some 0, 0%Z); (2, None, 1%Z)].
Proof. vm_compute. reflexivity. Qed.

(* ================================================================== *)
(** ** What one request does to the table *)
(* ================================================================== *)

Section Steps.

Lemma after_submit_steps (env : Env) (req : Req.Submit) (st : Store) :
  stepsTo st (after (submitBugReport env req) st).
Proof.
  unfold after.
  destruct (validated_dec req) as [(a & d & p & Hv)|Hinv].
  - destruct (insertFault env) as [e|] eqn:Hins.
    + unfold run. rewrite (submitBugReport_valid env req a d p _ Hv), Hins.
      apply step_nothing.
    + rewrite (run_valid_submission env req a d p st Hv Hins).
      destruct (lookup env _ a st) as [c|] eqn:El; cbn [snd db].
      * rewrite increment_run. destruct (rpcFault env) as [e|] eqn:Hrpc; cbn [snd].
        -- rewrite <- (map_id (rows st ++ _)).
           apply (step_duplicate st env req a d p c false Hv El).
           intros _. congruence.
        -- apply (step_duplicate st env req a d p c true Hv El).
           intro H. discriminate.
      * now apply (step_insert st env req a d p).
  - destruct (submitBugReport_invalid env req (mkWorld st []) Hinv) as [msg E].
    unfold run. rewrite E. apply step_nothing.
Qed.

Lemma after_update_steps (env : Env) (target : nat)
    (body : list (string * JsValue)) (st : Store) :
  stepsTo st (after (updateBugReport env target body) st).
Proof.
  unfold after. rewrite updateBugReport_run.
  destruct (buildUpdates body); [apply step_nothing|].
  cbv zeta. destruct (updateFault env); [apply step_nothing|].
  cbn [snd db]. apply step_update.
Qed.

Lemma after_handler_steps (op : Operation) (st : Store) :
  stepsTo st (after (handler op) st).
Proof. destruct op; [apply after_submit_steps | apply after_update_steps]. Qed.

Lemma sameReport_refl (r : Report) : sameReport r r.
Proof. unfold sameReport. repeat split. Qed.

Lemma sameReport_incrementRow (env : Env) (c : nat) (r : Report) :
  sameReport r (incrementRow env c r).
Proof.
  unfold incrementRow. destruct (Nat.eqb (id r) c); [|apply sameReport_refl].
  unfold sameReport. repeat split.
Qed.

Lemma sameReport_updateRow (env : Env) (target : nat)
    (body : list (string * JsValue)) (r : Report) :
  sameReport r (updateRow env target body r).
Proof.
  pose proof (written_updated env target body r) as H.
  unfold updateRow, updated in *.
  destruct (Nat.eqb (id r) target); [|apply sameReport_refl].
  destruct H as (Hf & _). unfold frame in Hf. unfold sameReport. tauto.
Qed.

(** A property of the content of a report that every created row has holds
    of every row of a reachable table. *)
Lemma reachable_rows (P : Report -> Prop) :
  (forall r r', sameReport r r' -> P r -> P r') ->
  (forall env req a d p st,
      reachable st -> validated req a d p ->
      P (stamped env st (payloadOf env req a d p st))) ->
  forall st, reachable st -> forall r, In r (rows st) -> P r.
Proof.
  intros Hsame Hnew st Hreach.
  induction Hreach as [|st op Hreach IH]; [intros r []|].
  pose proof (after_handler_steps op st) as Hstep.
  destruct Hstep as [|env req a d p Hv El|env req a d p c counted Hv El Hc
                     |env target body]; cbn [rows].
  - exact IH.
  - intros r Hr. apply in_app_iff in Hr. destruct Hr as [Hr|[<-|[]]]; [now apply IH|].
    now apply Hnew.
  - intros r Hr. apply in_map_iff in Hr. destruct Hr as (x & <- & Hx).
    assert (Px : P x).
    { apply in_app_iff in Hx. destruct Hx as [Hx|[<-|[]]]; [now apply IH|].
      now apply Hnew. }
    destruct counted; [|exact Px].
    eapply Hsame; [apply sameReport_incrementRow | exact Px].
  - intros r Hr. apply in_map_iff in Hr. destruct Hr as (x & <- & Hx).
    eapply Hsame; [apply sameReport_updateRow | now apply IH].
Qed.

End Steps.

(* ================================================================== *)
(** ** The outcomes of a submission *)
(* ================================================================== *)

(** X1: a submission is answered 400 exactly when one of the three checks
    fails (the store is then not called), 500 exactly when the checks pass
    and the insert fails, and 201 otherwise; only in the last case does the
    table change, by one row. What the lookup or the increment answer never
    shows in the status. *)
Theorem submit_outcomes (env : Env) (req : Req.Submit) (st : Store) :
  let h := submitBugReport env req in
  ((forall a d p, ~ validated req a d p) /\
   (exists msg, response h st = Some (mkResponse 400 (ErrorJson msg))) /\
   after h st = st /\ issued h st = []) \/
  (exists a d p e,
     validated req a d p /\ insertFault env = Some e /\
     response h st = Some (mkResponse 500 (ErrorJson (message e))) /\
     after h st = st) \/
  (exists a d p i s dup c n,
     validated req a d p /\ insertFault env = None /\
     response h st = Some (mkResponse 201 (SubmittedJson i s dup c n)) /\
     List.length (rows (after h st)) = S (List.length (rows st)) /\
     next_id (after h st) = S (next_id st)).
Proof.
  intro h. unfold h, response, after, issued.
  destruct (validated_dec req) as [(a & d & p & Hv)|Hinv].
  - right. destruct (insertFault env) as [e|] eqn:Hins.
    + left. exists a, d, p, e. unfold run.
      rewrite (submitBugReport_valid env req a d p _ Hv), Hins.
      split; [exact Hv|]. split; [reflexivity|]. split; reflexivity.
    + right. rewrite (run_valid_submission env req a d p st Hv Hins).
      destruct (lookup env _ a st) as [c|]; cbn [fst snd db].
      * do 8 eexists. split; [exact Hv|]. split; [reflexivity|].
        split; [reflexivity|]. rewrite increment_run.
        destruct (rpcFault env); cbn [snd rows next_id];
          rewrite ?length_map, length_app; simpl; split; lia.
      * do 8 eexists. split; [exact Hv|]. split; [reflexivity|].
        split; [reflexivity|]. cbn [rows next_id]. rewrite length_app.
        simpl. split; lia.
  - left. destruct (submitBugReport_invalid env req (mkWorld st []) Hinv) as [msg E].
    unfold run. rewrite E. split; [exact Hinv|]. split; [now exists msg|].
    split; reflexivity.
Qed.

(* ================================================================== *)
(** ** What every stored record satisfies *)
(* ================================================================== *)

Section StoredRecords.

Lemma isWhiteSpace_facts (c : ascii) :
  Js.isWhiteSpace c = true -> Js.lowerChar c = c /\ keptByRegex c = true.
Proof.
  destruct c as [[] [] [] [] [] [] [] []]; vm_compute; intro H;
    split; congruence.
Qed.

Lemma dropWhile_all {A} (p : A -> bool) (a l : list A) :
  Forall (fun x => p x = true) a -> Js.dropWhile p (a ++ l) = Js.dropWhile p l.
Proof.
  induction 1 as [|x a Hx _ IH]; simpl; [reflexivity|]. now rewrite Hx.
Qed.

Lemma dropWhile_split {A} (p : A -> bool) (l : list A) :
  exists a, Forall (fun x => p x = true) a /\ l = a ++ Js.dropWhile p l.
Proof.
  induction l as [|x l (a & Ha & El)]; [exists []; split; [constructor|reflexivity]|].
  simpl. destruct (p x) eqn:E.
  - exists (x :: a). split; [now constructor|]. simpl. now f_equal.
  - exists []. split; [constructor|reflexivity].
Qed.

Lemma trimEnd_all (l b : list ascii) :
  Forall (fun c => Js.isWhiteSpace c = true) b ->
  Js.trimEnd (l ++ b) = Js.trimEnd l.
Proof.
  intro Hb. unfold Js.trimEnd. rewrite rev_app_distr, dropWhile_all;
    [reflexivity | now apply Forall_rev].
Qed.

Lemma trimEnd_split (l : list ascii) :
  exists b, Forall (fun c => Js.isWhiteSpace c = true) b /\ l = Js.trimEnd l ++ b.
Proof.
  unfold Js.trimEnd.
  destruct (dropWhile_split Js.isWhiteSpace (rev l)) as (a & Ha & El).
  exists (rev a). split; [now apply Forall_rev|].
  rewrite <- rev_app_distr, <- El. symmetry. apply rev_involutive.
Qed.

Lemma trimChars_prefix (a l : list ascii) :
  Forall (fun c => Js.isWhiteSpace c = true) a -> trimChars (a ++ l) = trimChars l.
Proof. intro H. unfold trimChars, Js.trimStart. now rewrite dropWhile_all. Qed.

Lemma trimChars_suffix (l b : list ascii) :
  Forall (fun c => Js.isWhiteSpace c = true) b -> trimChars (l ++ b) = trimChars l.
Proof.
  intro Hb. unfold trimChars, Js.trimStart.
  destruct (dropWhile_split Js.isWhiteSpace l) as (a & Ha & El).
  rewrite El at 1. rewrite <- app_assoc, dropWhile_all by exact Ha.
  destruct (Js.dropWhile Js.isWhiteSpace l) as [|x rest] eqn:E.
  - simpl. rewrite <- (app_nil_r b) at 1. rewrite dropWhile_all by exact Hb.
    reflexivity.
  - pose proof (dropWhile_headFails Js.isWhiteSpace l) as Hh. rewrite E in Hh.
    simpl in Hh. simpl. rewrite Hh.
    change (x :: rest ++ b) with ((x :: rest) ++ b). now apply trimEnd_all.
Qed.

Lemma trimChars_split (l : list ascii) :
  exists a b, Forall (fun c => Js.isWhiteSpace c = true) a /\
              Forall (fun c => Js.isWhiteSpace c = true) b /\
              l = a ++ trimChars l ++ b.
Proof.
  destruct (dropWhile_split Js.isWhiteSpace l) as (a & Ha & El).
  destruct (trimEnd_split (Js.dropWhile Js.isWhiteSpace l)) as (b & Hb & Eb).
  exists a, b. split; [exact Ha|]. split; [exact Hb|].
  unfold trimChars, Js.trimStart. now rewrite <- Eb.
Qed.

Lemma trimChars_idempotent (l : list ascii) : trimChars (trimChars l) = trimChars l.
Proof.
  destruct (trimChars_split l) as (a & b & Ha & Hb & El).
  rewrite El at 2. rewrite trimChars_prefix, trimChars_suffix by assumption.
  reflexivity.
Qed.

(** The letters the regular expression keeps of lowered white space are the
    white space itself. *)
Lemma cleaned_whitespace (a : list ascii) :
  Forall (fun c => Js.isWhiteSpace c = true) a ->
  filter keptByRegex (map Js.lowerChar a) = a.
Proof.
  induction 1 as [|c a Hc _ IH]; [reflexivity|]. simpl.
  destruct (isWhiteSpace_facts c Hc) as [-> ->]. now rewrite IH.
Qed.

Lemma normalizeChars_trimChars (l : list ascii) :
  normalizeChars (trimChars l) = normalizeChars l.
Proof.
  unfold normalizeChars. fold (trimChars (filter keptByRegex (map Js.lowerChar l))).
  fold (trimChars (filter keptByRegex (map Js.lowerChar (trimChars l)))).
  f_equal.
  destruct (trimChars_split l) as (a & b & Ha & Hb & El).
  rewrite El at 2.
  rewrite !map_app, !filter_app.
  rewrite (cleaned_whitespace a Ha), (cleaned_whitespace b Hb).
  now rewrite trimChars_prefix, trimChars_suffix.
Qed.

(** Trimming a description first does not change what it normalises to. *)
Lemma normalize_trim (d : string) : normalize (Js.trim d) = normalize d.
Proof.
  rewrite <- (str_chars (normalize (Js.trim d))), <- (str_chars (normalize d)).
  rewrite !normalize_chars. unfold Js.trim. rewrite chars_str.
  fold (trimChars (Js.chars d)). now rewrite normalizeChars_trimChars.
Qed.

Lemma trim_idempotent (d : string) : Js.trim (Js.trim d) = Js.trim d.
Proof.
  unfold Js.trim. rewrite chars_str. fold (trimChars (Js.chars d)).
  fold (trimChars (trimChars (Js.chars d))). now rewrite trimChars_idempotent.
Qed.

Lemma orEmpty_orNull (sn : option string) : orEmpty (orNull sn) = orEmpty sn.
Proof. destruct sn as [[|c s]|]; reflexivity. Qed.

Lemma fingerprint_of_stored (a d : string) (sn : option string) :
  generateFingerprint a (Js.trim d) (orNull sn) = generateFingerprint a d sn.
Proof.
  unfold generateFingerprint, fingerprintInput.
  now rewrite normalize_trim, orEmpty_orNull.
Qed.

Lemma validated_facts (req : Req.Submit) (a d p : string) :
  validated req a d p ->
  Js.truthy a = true /\ In p ["low"; "medium"; "high"] /\
  5 <= Js.length (Js.trim d).
Proof.
  intros (Ha & Hd & Hp). unfold validAppId, validDescription, validPriority in *.
  destruct (Req.appId (Req.body req)); try discriminate.
  destruct (Js.truthy s) eqn:Ta; [|discriminate]. injection Ha as <-.
  destruct (Req.description (Req.body req)); try discriminate.
  destruct (Js.truthy s0 && (5 <=? Js.length (Js.trim s0))%nat) eqn:Td;
    [|discriminate]. injection Hd as <-.
  apply andb_true_iff in Td. destruct Td as [_ Td]. apply Nat.leb_le in Td.
  destruct (Req.priority (Req.body req)); try discriminate.
  destruct (Js.truthy s1 && existsb (String.eqb s1) ["low"; "medium"; "high"])
    eqn:Tp; [|discriminate]. injection Hp as <-.
  apply andb_true_iff in Tp. destruct Tp as [_ Tp].
  apply existsb_exists in Tp. destruct Tp as (x & Hx & Ex).
  apply String.eqb_eq in Ex. subst x.
  split; [exact Ta|]. split; [exact Hx | exact Td].
Qed.

End StoredRecords.

(** X2: in every reachable table the stored fingerprint of a record is the
    fingerprint of its stored tenant, description and screen name: trimming
    the description and turning an empty screen name into null, as the
    insert does, do not change the digest. *)
Theorem stored_fingerprint_recomputable (st : Store) (r : Report) :
  reachable st -> In r (rows st) ->
  fingerprint r = generateFingerprint (app_id r) (description r) (screen_name r).
Proof.
  intros Hreach Hr. revert st Hreach r Hr. apply reachable_rows.
  - intros r r' (_ & Ha & _ & Hd & _ & Hs & Hf & _) H. now rewrite Hf, Ha, Hd, Hs.
  - intros env req a d p st _ Hv. unfold payloadOf.
    cbn [stamped set_id set_created_at set_updated_at newReport fingerprint
         app_id description screen_name].
    symmetry. apply fingerprint_of_stored.
Qed.

Lemma stored_fingerprint_recomputable_witness :
  let r := nth 1 (rows afterSecond) (sampleRow 0 "" "" None 0 0) in
  fingerprint r = generateFingerprint (app_id r) (description r) (screen_name r).
Proof.
  apply (stored_fingerprint_recomputable afterSecond).
  - exact (reachable_step _ (Submit (quietEnv 2000) secondReport)
             (reachable_step _ (Submit (quietEnv 1000) firstReport)
                reachable_empty)).
  - vm_compute. right. left. reflexivity.
Defined.

Lemma wellShaped_reachable (st : Store) (r : Report) :
  reachable st -> In r (rows st) -> wellShaped r.
Proof.
  intros Hreach Hr. revert st Hreach r Hr. apply reachable_rows.
  - intros r r' (_ & Ha & _ & Hd & Hp & _) H. unfold wellShaped in *.
    now rewrite Ha, Hd, Hp.
  - intros env req a d p st _ Hv.
    destruct (validated_facts req a d p Hv) as (Ha & Hp & Hd).
    unfold payloadOf, wellShaped.
    cbn [stamped set_id set_created_at set_updated_at newReport
         app_id description priority].
    split; [exact Ha|]. split; [exact Hp|]. split; [apply trim_idempotent|exact Hd].
Qed.


(** A request keeps every row of the table, with its content. *)
Lemma row_survives (st : Store) (op : Operation) (r : Report) :
  In r (rows st) ->
  exists r', In r' (rows (after (handler op) st)) /\ sameReport r r'.
Proof.
  intro Hr.
  destruct (after_handler_steps op st)
    as [|env req a d p Hv El|env req a d p c counted Hv El Hc|env target body];
    cbn [rows].
  - exists r. split; [exact Hr | apply sameReport_refl].
  - exists r. split; [apply in_app_iff; now left | apply sameReport_refl].
  - exists ((if counted then incrementRow env c else fun x => x) r). split.
    + apply in_map, in_app_iff. now left.
    + destruct counted; [apply sameReport_incrementRow | apply sameReport_refl].
  - exists (updateRow env target body r). split;
      [now apply in_map | apply sameReport_updateRow].
Qed.

Lemma sameReport_trans (r1 r2 r3 : Report) :
  sameReport r1 r2 -> sameReport r2 r3 -> sameReport r1 r3.
Proof.
  unfold sameReport.
  intros (A1 & A2 & A3 & A4 & A5 & A6 & A7 & A8 & A9 & A10 & A11)
         (B1 & B2 & B3 & B4 & B5 & B6 & B7 & B8 & B9 & B10 & B11).
  repeat split; congruence.
Qed.

(** So do any number of requests. *)
Lemma row_survives_all (ops : list Operation) (st : Store) (r : Report) :
  In r (rows st) ->
  exists r', In r' (rows (serveAll ops st)) /\ sameReport r r'.
Proof.
  revert st r. induction ops as [|op ops IH]; intros st r Hr.
  - exists r. split; [exact Hr | apply sameReport_refl].
  - destruct (row_survives st op r Hr) as (r1 & Hr1 & S1).
    destruct (IH (after (handler op) st) r1 Hr1) as (r2 & Hr2 & S2).
    exists r2. split; [exact Hr2 | exact (sameReport_trans r r1 r2 S1 S2)].
Qed.

(** X3: every record of a reachable table passed the checks of its
    submission and keeps what they checked: a non-empty tenant, a priority
    among low, medium and high, and a description stored trimmed, of at
    least five characters. No later request changes these columns: whatever
    requests are served afterwards, the table holds a record of that
    identifier with the same tenant, description and priority. *)
Theorem stored_records_well_shaped (st : Store) (r : Report) :
  reachable st -> In r (rows st) ->
  wellShaped r /\
  forall ops, exists r',
    In r' (rows (serveAll ops st)) /\ id r' = id r /\
    app_id r' = app_id r /\ description r' = description r /\
    priority r' = priority r.
Proof.
  intros Hreach Hr. split; [now apply (wellShaped_reachable st)|].
  intro ops. destruct (row_survives_all ops st r Hr)
    as (r' & Hr' & Hi & Ha & _ & Hd & Hp & _).
  exists r'. auto.
Qed.

Lemma stored_records_well_shaped_witness :
  let r := nth 1 (rows afterSecond) (sampleRow 0 "" "" None 0 0) in
  wellShaped r /\
  forall ops, exists r',
    In r' (rows (serveAll ops afterSecond)) /\ id r' = id r /\
    app_id r' = app_id r /\ description r' = description r /\
    priority r' = priority r.
Proof.
  apply (stored_records_well_shaped afterSecond).
  - exact (reachable_step _ (Submit (quietEnv 2000) secondReport)
             (reachable_step _ (Submit (quietEnv 1000) firstReport)
                reachable_empty)).
  - vm_compute. right. left. reflexivity.
Defined.

(* ================================================================== *)
(** ** Counts and links in every reachable table *)
(* ================================================================== *)

Section CountsAndLinks.

Lemma same_id_same_row (l : list Report) (x y : Report) :
  NoDup (map id l) -> In x l -> In y l -> id x = id y -> x = y.
Proof.
  induction l as [|z l IH]; intros Hnd Hx Hy E; [destruct Hx|].
  simpl in Hnd. apply NoDup_cons_iff in Hnd. destruct Hnd as [Hz Hnd].
  destruct Hx as [->|Hx], Hy as [->|Hy].
  - reflexivity.
  - exfalso. apply Hz. rewrite E. now apply in_map.
  - exfalso. apply Hz. rewrite <- E. now apply in_map.
  - now apply IH.
Qed.

(** The cases of a submission, with the state of the store at each call. *)
Lemma after_submit_cases (env : Env) (req : Req.Submit) (st : Store) :
  after (submitBugReport env req) st = st \/
  exists a d p,
    validated req a d p /\
    let data := stamped env st (payloadOf env req a d p st) in
    let found := lookup env (generateFingerprint a d (Req.screenName (Req.body req)))
                   a st in
    (found = None /\
     after (submitBugReport env req) st
     = mkStore (rows st ++ [data]) (S (next_id st))) \/
    (exists c, found = Some c /\
       ((rpcFault env <> None /\
         after (submitBugReport env req) st
         = mkStore (rows st ++ [data]) (S (next_id st))) \/
        (rpcFault env = None /\
         after (submitBugReport env req) st
         = mkStore (map (incrementRow env c) (rows st ++ [data])) (S (next_id st))))).
Proof.
  unfold after.
  destruct (validated_dec req) as [(a & d & p & Hv)|Hinv].
  - destruct (insertFault env) as [e|] eqn:Hins.
    + left. unfold run. now rewrite (submitBugReport_valid env req a d p _ Hv), Hins.
    + right. exists a, d, p. split; [exact Hv|]. cbv zeta.
      rewrite (run_valid_submission env req a d p st Hv Hins).
      destruct (lookup env _ a st) as [c|] eqn:El; cbn [snd db].
      * right. exists c. split; [reflexivity|]. rewrite increment_run.
        destruct (rpcFault env) as [e|]; cbn [snd].
        -- left. split; [discriminate | reflexivity].
        -- right. split; reflexivity.
      * left. split; reflexivity.
  - left. destruct (submitBugReport_invalid env req (mkWorld st []) Hinv) as [msg E].
    unfold run. now rewrite E.
Qed.

Lemma after_update_cases (env : Env) (target : nat)
    (body : list (string * JsValue)) (st : Store) :
  after (updateBugReport env target body) st = st \/
  after (updateBugReport env target body) st
  = mkStore (map (updateRow env target body) (rows st)) (next_id st).
Proof.
  unfold after. rewrite updateBugReport_run.
  destruct (buildUpdates body); [now left|].
  cbv zeta. destruct (updateFault env); [now left|]. now right.
Qed.

Lemma updateRow_count (env : Env) (target : nat)
    (body : list (string * JsValue)) (r : Report) :
  duplicate_count (updateRow env target body r) = duplicate_count r.
Proof.
  pose proof (written_updated env target body r) as H.
  unfold updateRow, updated in *.
  destruct (Nat.eqb (id r) target); [|reflexivity].
  destruct H as (Hf & _). unfold frame in Hf. tauto.
Qed.

Lemma countShape_reachable (st : Store) :
  reachable st -> forall r, In r (rows st) -> countShape r.
Proof.
  induction 1 as [|st op Hreach IH]; [intros r []|].
  destruct (reachable_consistent st Hreach) as [[Hids Hnd] _].
  destruct op as [env req|env target body].
  - cbn [handler].
    destruct (after_submit_cases env req st)
      as [->|(a & d & p & Hv & [[Hl ->]|(c & Hl & [[_ ->]|[_ ->]])])];
      [exact IH| | |]; cbn [rows]; unfold payloadOf in *.
    + intros r Hr. apply in_app_iff in Hr. destruct Hr as [Hr|[<-|[]]]; [auto|].
      unfold countShape. rewrite Hl. simpl. lia.
    + intros r Hr. apply in_app_iff in Hr. destruct Hr as [Hr|[<-|[]]]; [auto|].
      unfold countShape. rewrite Hl. reflexivity.
    + destruct (lookup_Some _ _ _ _ _ Hl) as (root & Hroot & Hc & _ & Hcan & _).
      intros r Hr. apply in_map_iff in Hr. destruct Hr as (x & <- & Hx).
      unfold incrementRow. apply in_app_iff in Hx. destruct Hx as [Hx|[<-|[]]].
      * destruct (Nat.eqb (id x) c) eqn:E; [|auto].
        apply Nat.eqb_eq in E.
        assert (x = root) by (apply (same_id_same_row (rows st)); congruence).
        subst x. specialize (IH root Hroot). unfold countShape in *.
        cbn [incremented Supabase.update_bug_report_timestamp set_updated_at
             set_duplicate_count canonical_id duplicate_count].
        rewrite Hcan in *. lia.
      * assert (E : Nat.eqb (next_id st) c = false).
        { apply Nat.eqb_neq. specialize (Hids root Hroot). lia. }
        cbn [stamped set_id id]. rewrite E.
        unfold countShape. rewrite Hl. reflexivity.
  - cbn [handler].
    destruct (after_update_cases env target body st) as [->| ->]; [exact IH|].
    cbn [rows]. intros r Hr. apply in_map_iff in Hr. destruct Hr as (x & <- & Hx).
    specialize (IH x Hx). unfold countShape in *.
    destruct (sameReport_updateRow env target body x) as (_&_&_&_&_&_&_& Hc &_).
    now rewrite Hc, updateRow_count.
Qed.

Lemma mirrors_reachable (st : Store) :
  reachable st -> forall r, In r (rows st) -> mirrorsCanonical st r.
Proof.
  induction 1 as [|st op Hreach IH]; [intros r []|].
  assert (Hkeep : forall (g : Report -> Report) (l : list Report) n,
            (forall r, sameReport r (g r)) ->
            (forall r, In r l -> mirrorsCanonical (mkStore l n) r) ->
            forall r, In r (map g l) ->
                      mirrorsCanonical (mkStore (map g l) n) r).
  { intros g l n Hg Hl r' Hr'. apply in_map_iff in Hr'.
    destruct Hr' as (r & <- & Hr). specialize (Hl r Hr).
    unfold mirrorsCanonical in *. cbn [rows] in *.
    destruct (Hg r) as (_&_&_&_&_&_& Hf & Hc & _). rewrite Hc, Hf.
    destruct (canonical_id r) as [c|]; [|exact I].
    destruct Hl as (root & Hroot & Hid & Hfp).
    exists (g root). destruct (Hg root) as (Hi &_&_&_&_&_& Hf' & _).
    rewrite Hi, Hf'. split; [now apply in_map|auto]. }
  assert (Hadd : forall env req a d p,
            validated req a d p ->
            forall r, In r (rows st ++ [stamped env st (payloadOf env req a d p st)]) ->
            mirrorsCanonical
              (mkStore (rows st ++ [stamped env st (payloadOf env req a d p st)])
                       (S (next_id st))) r).
  { intros env req a d p Hv r Hr. unfold mirrorsCanonical. cbn [rows].
    apply in_app_iff in Hr. destruct Hr as [Hr|[<-|[]]].
    - specialize (IH r Hr). unfold mirrorsCanonical in IH.
      destruct (canonical_id r) as [c|]; [|exact I].
      destruct IH as (root & Hroot & H). exists root.
      split; [apply in_app_iff; now left | exact H].
    - unfold payloadOf.
      cbn [stamped set_id set_created_at set_updated_at newReport canonical_id
           fingerprint created_at].
      destruct (lookup env _ a st) as [c|] eqn:Hl; [|exact I].
      destruct (lookup_Some _ _ _ _ _ Hl) as (root & Hroot & Hc & _ & _ & Hfp & _).
      exists root. split; [apply in_app_iff; now left|].
      split; [exact Hc | exact Hfp]. }
  destruct op as [env req|env target body]; cbn [handler].
  - destruct (after_submit_cases env req st)
      as [->|(a & d & p & Hv & [[Hl ->]|(c & Hl & [[_ ->]|[_ ->]])])].
    + exact IH.
    + cbn [rows]. now apply Hadd.
    + cbn [rows]. now apply Hadd.
    + cbn [rows]. apply Hkeep; [apply sameReport_incrementRow | now apply Hadd].
  - destruct (after_update_cases env target body st) as [->| ->]; [exact IH|].
    cbn [rows]. apply Hkeep; [apply sameReport_updateRow|].
    destruct st; exact IH.
Qed.

End CountsAndLinks.

(** X4: in every reachable table, whatever failed on the way, a canonical
    record counts at least one and a duplicate counts zero: the increment
    only ever reaches the canonical record a lookup returned. *)
Theorem count_shape_invariant (st : Store) (r : Report) :
  reachable st -> In r (rows st) ->
  (canonical_id r = None -> (1 <= duplicate_count r)%Z) /\
  (canonical_id r <> None -> duplicate_count r = 0%Z).
Proof.
  intros Hreach Hr. pose proof (countShape_reachable st Hreach r Hr) as H.
  unfold countShape in H. destruct (canonical_id r); split; congruence.
Qed.

Lemma count_shape_invariant_witness :
  let r := nth 1 (rows afterSecond) (sampleRow 0 "" "" None 0 0) in
  (canonical_id r = None -> (1 <= duplicate_count r)%Z) /\
  (canonical_id r <> None -> duplicate_count r = 0%Z).
Proof.
  apply (count_shape_invariant afterSecond).
  - exact (reachable_step _ (Submit (quietEnv 2000) secondReport)
             (reachable_step _ (Submit (quietEnv 1000) firstReport)
                reachable_empty)).
  - vm_compute. right. left. reflexivity.
Defined.

(** X5: in every reachable table a duplicate points at a canonical record
    of its tenant that has its fingerprint. *)
Theorem duplicate_mirrors_canonical (st : Store) (r : Report) (c : nat) :
  reachable st -> In r (rows st) -> canonical_id r = Some c ->
  exists root, In root (rows st) /\ id root = c /\
               canonical_id root = None /\ app_id root = app_id r /\
               fingerprint root = fingerprint r.
Proof.
  intros Hreach Hr Hc. pose proof (mirrors_reachable st Hreach r Hr) as H.
  unfold mirrorsCanonical in H. rewrite Hc in H.
  destruct H as (root & Hroot & Hid & Hf). exists root.
  destruct (reachable_consistent st Hreach) as [[_ Hnd] Hnc].
  pose proof (Hnc r Hr) as Hrooted. unfold rooted in Hrooted. rewrite Hc in Hrooted.
  destruct Hrooted as (_ & root' & Hroot' & Hid' & Ha & Hn).
  assert (E : root' = root)
    by (apply (same_id_same_row (rows st)); auto; congruence).
  subst root'. repeat split; auto.
Qed.

Lemma duplicate_mirrors_canonical_witness :
  let r := nth 1 (rows afterSecond) (sampleRow 0 "" "" None 0 0) in
  exists root, In root (rows afterSecond) /\ id root = 0 /\
               canonical_id root = None /\ app_id root = app_id r /\
               fingerprint root = fingerprint r.
Proof.
  apply (duplicate_mirrors_canonical afterSecond).
  - exact (reachable_step _ (Submit (quietEnv 2000) secondReport)
             (reachable_step _ (Submit (quietEnv 1000) firstReport)
                reachable_empty)).
  - vm_compute. right. left. reflexivity.
  - vm_compute. reflexivity.
Defined.

(* ================================================================== *)
(** ** The count of a canonical record *)
(* ================================================================== *)

Section Counting.

Lemma countingRun_reachable (st : Store) : countingRun st -> reachable st.
Proof.
  induction 1 as [|st op _ IH _]; [apply reachable_empty|].
  now apply reachable_step.
Qed.

(** The rows of a list that point at [c]. *)
Lemma duplicatesOf_rows (c : nat) (l : list Report) (n : nat) :
  duplicatesOf c (mkStore l n)
  = filter (fun r => match canonical_id r with
                     | Some c' => Nat.eqb c' c
                     | None => false
                     end) l.
Proof. reflexivity. Qed.

Lemma duplicatesOf_map (g : Report -> Report) (c : nat) (l : list Report)
    (n m : nat) :
  (forall r, canonical_id (g r) = canonical_id r) ->
  List.length (duplicatesOf c (mkStore (map g l) n))
  = List.length (duplicatesOf c (mkStore l m)).
Proof.
  intro Hg. rewrite !duplicatesOf_rows, filter_map_commute, length_map;
    [reflexivity|]. intro r. now rewrite Hg.
Qed.

Lemma duplicatesOf_app (c : nat) (l : list Report) (x : Report) (n m : nat) :
  List.length (duplicatesOf c (mkStore (l ++ [x]) n))
  = List.length (duplicatesOf c (mkStore l m))
    + match canonical_id x with
      | Some c' => if Nat.eqb c' c then 1 else 0
      | None => 0
      end.
Proof.
  rewrite !duplicatesOf_rows, filter_app, length_app. f_equal. simpl.
  destruct (canonical_id x) as [c'|]; [|reflexivity].
  now destruct (Nat.eqb c' c).
Qed.

Lemma countsItsDuplicates_run (st : Store) :
  countingRun st -> countsItsDuplicates st.
Proof.
  induction 1 as [|st op Hrun IH Hop]; [intros c []|].
  pose proof (countingRun_reachable st Hrun) as Hreach.
  destruct (reachable_consistent st Hreach) as [[Hids Hnd] Hnc].
  destruct op as [env req|env target body]; cbn [handler].
  - destruct (after_submit_cases env req st)
      as [->|(a & d & p & Hv & [[Hl ->]|(c & Hl & [[Hf ->]|[_ ->]])])];
      [exact IH| |contradiction|]; unfold payloadOf in *.
    + (* a new canonical record *)
      intros x Hx Hcan. cbn [rows] in Hx.
      rewrite (duplicatesOf_app _ _ _ _ (next_id st)).
      cbn [stamped set_id set_created_at set_updated_at newReport canonical_id].
      rewrite Hl, Nat.add_0_r.
      apply in_app_iff in Hx. destruct Hx as [Hx|[<-|[]]].
      * destruct st as [l n]. now apply IH.
      * cbn [stamped set_id set_created_at set_updated_at newReport
             duplicate_count id].
        assert (Hnone : duplicatesOf (next_id st) (mkStore (rows st) (next_id st)) = []).
        { rewrite duplicatesOf_rows.
          assert (H : forall r, In r (rows st) ->
                    match canonical_id r with
                    | Some c' => Nat.eqb c' (next_id st)
                    | None => false
                    end = false).
          { intros r Hr. specialize (Hnc r Hr). unfold rooted in Hnc.
            destruct (canonical_id r) as [c'|]; [|reflexivity].
            destruct Hnc as (_ & root & Hroot & Hid & _).
            apply Nat.eqb_neq. specialize (Hids root Hroot). lia. }
          clear - H. induction (rows st) as [|r l IHl]; [reflexivity|].
          simpl. rewrite (H r) by now left.
          apply IHl. intros y Hy. apply H. now right. }
        rewrite Hl, Hnone. reflexivity.
    + (* a duplicate, counted *)
      intros x' Hx' Hcan. cbn [rows] in Hx'.
      apply in_map_iff in Hx'. destruct Hx' as (x & <- & Hx).
      destruct (sameReport_incrementRow env c x) as (Hi &_&_&_&_&_&_& Hc &_).
      rewrite Hc in Hcan. rewrite Hi.
      rewrite (duplicatesOf_map (incrementRow env c) (id x) _ _ (S (next_id st)))
        by (intro r; apply sameReport_incrementRow).
      rewrite (duplicatesOf_app _ _ _ _ (next_id st)).
      cbn [stamped set_id set_created_at set_updated_at newReport canonical_id].
      rewrite Hl.
      apply in_app_iff in Hx. destruct Hx as [Hx|[<-|[]]].
      * assert (Hcount : duplicate_count x
                  = (1 + Z.of_nat (List.length
                                     (duplicatesOf (id x) (mkStore (rows st) (next_id st)))))%Z).
        { destruct st as [l n]. now apply IH. }
        unfold incrementRow. rewrite (Nat.eqb_sym c (id x)).
        destruct (Nat.eqb (id x) c).
        -- cbn [incremented Supabase.update_bug_report_timestamp set_updated_at
                set_duplicate_count duplicate_count]. lia.
        -- lia.
      * exfalso. revert Hcan.
        cbn [stamped set_id set_created_at set_updated_at newReport canonical_id].
        rewrite Hl. discriminate.
  - destruct (after_update_cases env target body st) as [->| ->]; [exact IH|].
    intros x' Hx' Hcan. cbn [rows] in Hx'.
    apply in_map_iff in Hx'. destruct Hx' as (x & <- & Hx).
    destruct (sameReport_updateRow env target body x) as (Hi &_&_&_&_&_&_& Hc &_).
    rewrite Hc in Hcan. rewrite Hi, updateRow_count.
    rewrite (duplicatesOf_map (updateRow env target body) (id x) _ _ (next_id st))
      by (intro r; apply sameReport_updateRow).
    destruct st as [l n]. now apply IH.
Qed.

End Counting.

(** X6: as long as no increment fails, the count of every canonical record
    is one plus the number of records that point at it, whatever else
    happens on the way (rejected requests, failed lookups and inserts,
    updates, other tenants and fingerprints). *)
Theorem count_is_one_plus_duplicates (st : Store) (c : Report) :
  countingRun st -> In c (rows st) -> canonical_id c = None ->
  duplicate_count c = (1 + Z.of_nat (List.length (duplicatesOf (id c) st)))%Z.
Proof. intros Hrun. now apply countsItsDuplicates_run. Qed.

Lemma count_is_one_plus_duplicates_witness :
  let c := nth 0 (rows afterSecond) (sampleRow 0 "" "" None 0 0) in
  duplicate_count c = (1 + Z.of_nat (List.length (duplicatesOf (id c) afterSecond)))%Z.
Proof.
  apply (count_is_one_plus_duplicates afterSecond).
  - exact (counting_step _ (Submit (quietEnv 2000) secondReport)
             (counting_step _ (Submit (quietEnv 1000) firstReport)
                counting_empty eq_refl) eq_refl).
  - vm_compute. left. reflexivity.
  - vm_compute. reflexivity.
Defined.

(* ================================================================== *)
(** ** Listing the reports of a tenant *)
(* ================================================================== *)

Section Listing.

Variable before : Report -> Report -> bool.

Lemma In_insertDesc (col : Report -> Z) (a x : Report) (s : list Report) :
  In x (SupabaseRead.insertDesc before col a s) <-> x = a \/ In x s.
Proof.
  induction s as [|y s IH]; simpl; [intuition congruence|].
  destruct ((col y <? col a) || ((col y =? col a) && before a y))%Z; simpl;
    [intuition congruence|].
  rewrite IH. intuition congruence.
Qed.

Lemma In_order_desc (col : Report -> Z) (x : Report) (q : list Report) :
  In x (SupabaseRead.order_desc before col q) <-> In x q.
Proof.
  induction q as [|a q IH]; simpl; [tauto|].
  rewrite In_insertDesc, IH. intuition congruence.
Qed.

Lemma length_insertDesc (col : Report -> Z) (a : Report) (s : list Report) :
  List.length (SupabaseRead.insertDesc before col a s) = S (List.length s).
Proof.
  induction s as [|y s IH]; simpl; [reflexivity|].
  destruct ((col y <? col a) || ((col y =? col a) && before a y))%Z; simpl;
    [reflexivity | now rewrite IH].
Qed.

Lemma length_order_desc (col : Report -> Z) (q : list Report) :
  List.length (SupabaseRead.order_desc before col q) = List.length q.
Proof.
  induction q as [|a q IH]; simpl; [reflexivity|].
  now rewrite length_insertDesc, IH.
Qed.

(** Whatever the database decides between rows of the same instant, the
    result is sorted. *)
Lemma insertDesc_sorted (a : Report) (s : list Report) :
  newestFirst s -> newestFirst (SupabaseRead.insertDesc before created_at a s).
Proof.
  unfold newestFirst. induction 1 as [|y s Hs IH Hy]; simpl.
  - constructor; constructor.
  - destruct ((created_at y <? created_at a)
              || ((created_at y =? created_at a) && before a y))%Z eqn:C.
    + assert (L : (created_at y <= created_at a)%Z).
      { apply orb_prop in C. destruct C as [C|C]; [apply Z.ltb_lt in C; lia|].
        apply andb_prop in C. destruct C as [C _]. apply Z.eqb_eq in C. lia. }
      constructor; [now constructor|]. constructor; [exact L|].
      rewrite Forall_forall in *. intros x Hx. specialize (Hy x Hx). lia.
    + assert (L : (created_at a <= created_at y)%Z).
      { apply orb_false_elim in C. destruct C as [C _]. apply Z.ltb_ge in C. lia. }
      constructor; [exact IH|]. apply Forall_forall. intros x Hx.
      apply In_insertDesc in Hx. destruct Hx as [->|Hx]; [exact L|].
      rewrite Forall_forall in Hy. now apply Hy.
Qed.

Lemma order_desc_sorted (q : list Report) :
  newestFirst (SupabaseRead.order_desc before created_at q).
Proof.
  induction q as [|a q IH]; simpl; [constructor|]. now apply insertDesc_sorted.
Qed.

Lemma sorted_skipn (n : nat) (l : list Report) :
  newestFirst l -> newestFirst (skipn n l).
Proof.
  unfold newestFirst. revert l. induction n as [|n IH]; intros l H; [exact H|].
  destruct l as [|x l]; [constructor|]. simpl. apply IH. now inversion H.
Qed.

Lemma sorted_firstn (n : nat) (l : list Report) :
  newestFirst l -> newestFirst (firstn n l).
Proof.
  unfold newestFirst. revert l. induction n as [|n IH]; intros l H; [constructor|].
  destruct l as [|x l]; [constructor|]. simpl.
  inversion H as [|? ? Hl Hx]; subst. constructor; [now apply IH|].
  rewrite Forall_forall in *. intros y Hy. apply Hx.
  eapply (In_nth_error) in Hy. destruct Hy as [k Hk].
  clear - Hk. revert n l Hk. induction k as [|k IHk]; intros [|n] [|z l] Hk;
    simpl in *; try discriminate.
  - injection Hk as <-. now left.
  - right. eauto.
Qed.

Lemma range_page (o l : nat) (q : list Report) :
  SupabaseRead.range (Z.of_nat o) (Z.of_nat o + Z.of_nat l - 1) q
  = firstn l (skipn o q).
Proof.
  unfold SupabaseRead.range.
  replace (Z.of_nat o + Z.of_nat l - 1 - Z.of_nat o + 1)%Z with (Z.of_nat l) by lia.
  now rewrite !Nat2Z.id.
Qed.

(** The handler, step by step. *)
Lemma getBugReports_run (fault : option PostgrestError) (q : Query.ListQuery)
    (st : Store) :
  let limit := match Query.limit q with Some n => n | None => 50 end in
  let offset := match Query.offset q with Some n => n | None => 0 end in
  answer (getBugReports before fault q) st =
  match validAppId (Query.appId q) with
  | None => Some (mkQueryResponse 400
                    (QueryError "appId query parameter is required"))
  | Some appId =>
      match fault with
      | Some e => Some (mkQueryResponse 500 (QueryError (message e)))
      | None =>
          let data := firstn limit
                        (skipn offset
                           (SupabaseRead.order_desc before created_at
                              (matching appId q st))) in
          Some (mkQueryResponse 200
                  (ListJson data limit offset (Nat.eqb (List.length data) limit)))
      end
  end.
Proof.
  cbv zeta. unfold answer, getBugReports, tryCatch, bind, reading, matching.
  destruct (validAppId (Query.appId q)) as [appId|]; [|reflexivity].
  cbn [db]. rewrite range_page.
  destruct fault as [e|]; reflexivity.
Qed.

Lemma In_matching (appId : string) (q : Query.ListQuery) (st : Store) (r : Report) :
  In r (matching appId q st) ->
  In r (rows st) /\ app_id r = appId /\ canonical_id r = None /\
  passesFilter (Query.status q) (status r) /\
  passesFilter (Query.priority q) (JsString (priority r)).
Proof.
  unfold matching, withPriority, withStatus, passesFilter. intro H.
  assert (Hp : In r (withStatus (Query.status q)
                 (Supabase.is_null canonical_id
                    (Supabase.eq_text app_id appId (rows st)))) /\
               forall s, Query.priority q = JsString s -> s <> "" ->
                         JsString (priority r) = JsString s).
  { unfold withStatus. destruct (Query.priority q) as [| | | |s| |];
      try (split; [exact H | intros; discriminate]).
    destruct s as [|c s]; [split; [exact H|intros s [= <-]; congruence]|].
    cbn [Js.truthy] in H. unfold Supabase.eq_text in H.
    apply filter_In in H. destruct H as [H E]. apply String.eqb_eq in E.
    split; [exact H|]. intros s' [= <-] _. now rewrite E. }
  destruct Hp as [Hs Hp].
  assert (Hb : In r (Supabase.is_null canonical_id
                       (Supabase.eq_text app_id appId (rows st))) /\
               forall s, Query.status q = JsString s -> s <> "" ->
                         status r = JsString s).
  { unfold withStatus in Hs. destruct (Query.status q) as [| | | |s| |];
      try (split; [exact Hs | intros; discriminate]).
    destruct s as [|c s]; [split; [exact Hs|intros s [= <-]; congruence]|].
    cbn [Js.truthy] in Hs. unfold SupabaseRead.eq_status in Hs.
    apply filter_In in Hs. destruct Hs as [Hs E].
    split; [exact Hs|]. intros s' [= <-] _.
    destruct (status r); try discriminate. apply String.eqb_eq in E. now rewrite E. }
  destruct Hb as [Hb Hst].
  unfold Supabase.is_null, Supabase.eq_text in Hb.
  apply filter_In in Hb. destruct Hb as [Hb Hn].
  apply filter_In in Hb. destruct Hb as [Hb Ha]. apply String.eqb_eq in Ha.
  destruct (canonical_id r); [discriminate|]. auto.
Qed.

Lemma matching_In (appId : string) (q : Query.ListQuery) (st : Store) (r : Report) :
  In r (rows st) -> app_id r = appId -> canonical_id r = None ->
  passesFilter (Query.status q) (status r) ->
  passesFilter (Query.priority q) (JsString (priority r)) ->
  In r (matching appId q st).
Proof.
  unfold matching, passesFilter. intros Hin Ha Hc Hs Hp.
  assert (H0 : In r (Supabase.is_null canonical_id
                       (Supabase.eq_text app_id appId (rows st)))).
  { unfold Supabase.is_null, Supabase.eq_text. apply filter_In. split.
    - apply filter_In. split; [exact Hin|]. now apply String.eqb_eq.
    - now rewrite Hc. }
  assert (H1 : In r (withStatus (Query.status q)
                       (Supabase.is_null canonical_id
                          (Supabase.eq_text app_id appId (rows st))))).
  { unfold withStatus. destruct (Query.status q) as [| | | |s| |]; try exact H0.
    destruct s as [|c s]; [exact H0|]. cbn [Js.truthy].
    unfold SupabaseRead.eq_status. apply filter_In. split; [exact H0|].
    rewrite (Hs _ eq_refl) by discriminate. apply String.eqb_refl. }
  unfold withPriority. destruct (Query.priority q) as [| | | |s| |]; try exact H1.
  destruct s as [|c s]; [exact H1|]. cbn [Js.truthy].
  unfold Supabase.eq_text. apply filter_In. split; [exact H1|].
  specialize (Hp _ eq_refl). apply String.eqb_eq.
  assert (E : JsString (priority r) = JsString (String c s)) by (apply Hp; discriminate).
  now injection E.
Qed.

Lemma listed_run (fault : option PostgrestError) (q : Query.ListQuery) (st : Store) :
  listed before fault q st =
  match validAppId (Query.appId q), fault with
  | Some appId, None =>
      firstn (match Query.limit q with Some n => n | None => 50 end)
        (skipn (match Query.offset q with Some n => n | None => 0 end)
           (SupabaseRead.order_desc before created_at (matching appId q st)))
  | _, _ => []
  end.
Proof.
  unfold listed. rewrite getBugReports_run.
  destruct (validAppId (Query.appId q)); [|reflexivity].
  destruct fault; reflexivity.
Qed.

Lemma In_firstn_inv {A} (n : nat) (l : list A) (x : A) :
  In x (firstn n l) -> In x l.
Proof.
  revert l. induction n as [|n IH]; intros [|y l] H; simpl in *; try tauto.
  destruct H as [H|H]; [now left | right; now apply IH].
Qed.

Lemma In_skipn_inv {A} (n : nat) (l : list A) (x : A) :
  In x (skipn n l) -> In x l.
Proof.
  revert l. induction n as [|n IH]; intros [|y l] H; simpl in *; try tauto.
  right. now apply IH.
Qed.

Lemma firstn_add {A} (a b : nat) (m : list A) :
  firstn (a + b) m = firstn a m ++ firstn b (skipn a m).
Proof.
  revert m. induction a as [|a IH]; intros m; [reflexivity|].
  destruct m as [|x m]; [now rewrite skipn_nil, !firstn_nil|].
  simpl. now rewrite IH.
Qed.

Lemma firstn_skipn_add {A} (l1 l2 o : nat) (l : list A) :
  firstn (l1 + l2) (skipn o l) = firstn l1 (skipn o l) ++ firstn l2 (skipn (o + l1) l).
Proof.
  rewrite firstn_add, skipn_skipn. now rewrite (Nat.add_comm l1 o).
Qed.

End Listing.

Section Ties.

Variables before before' : Report -> Report -> bool.

(** Among rows created at distinct instants the database has nothing to
    decide: every query sorts them the same way. *)
Lemma insertDesc_distinct (g : Report -> Report) (a : Report) (s : list Report) :
  (forall r, created_at (g r) = created_at r) ->
  (forall x, In x s -> created_at x <> created_at a) ->
  SupabaseRead.insertDesc before created_at (g a) (map g s)
  = map g (SupabaseRead.insertDesc before' created_at a s).
Proof.
  intros Hg H. induction s as [|y s IH]; [reflexivity|].
  cbn [map SupabaseRead.insertDesc]. rewrite !Hg.
  assert (E : (created_at y =? created_at a)%Z = false)
    by (apply Z.eqb_neq, H; now left).
  rewrite E. cbn [andb]. rewrite !orb_false_r.
  destruct (created_at y <? created_at a)%Z; [reflexivity|].
  cbn [map]. rewrite IH; [reflexivity|]. intros x Hx. apply H. now right.
Qed.

Lemma order_desc_distinct (g : Report -> Report) (l : list Report) :
  (forall r, created_at (g r) = created_at r) ->
  distinctTimes l ->
  SupabaseRead.order_desc before created_at (map g l)
  = map g (SupabaseRead.order_desc before' created_at l).
Proof.
  intros Hg. unfold distinctTimes. induction l as [|a l IH]; intro Hnd;
    [reflexivity|].
  cbn [map] in Hnd. inversion Hnd as [|? ? Ha Hl]; subst.
  cbn [map SupabaseRead.order_desc fold_right].
  change (fold_right (SupabaseRead.insertDesc before created_at) [] (map g l))
    with (SupabaseRead.order_desc before created_at (map g l)).
  change (fold_right (SupabaseRead.insertDesc before' created_at) [] l)
    with (SupabaseRead.order_desc before' created_at l).
  rewrite (IH Hl). apply insertDesc_distinct; [exact Hg|].
  intros x Hx E. apply Ha. rewrite <- E. apply in_map.
  now apply In_order_desc in Hx.
Qed.

Lemma order_desc_same (l : list Report) :
  distinctTimes l ->
  SupabaseRead.order_desc before created_at l
  = SupabaseRead.order_desc before' created_at l.
Proof.
  intro H. rewrite <- (map_id l) at 1.
  rewrite (order_desc_distinct (fun r => r) l (fun r => eq_refl) H).
  apply map_id.
Qed.

End Ties.

(** X7: a list answer shows only canonical records of the tenant asked for
    that carry the status and the priority asked for; it shows them newest
    first, at most [limit] of them, and says [hasMore] exactly when it
    shows [limit] of them. This holds whatever order the database gives to
    rows created at the same instant. *)
Theorem listed_reports_match (before : Report -> Report -> bool)
    (fault : option PostgrestError) (q : Query.ListQuery)
    (st : Store) (data : list Report) (l o : nat) (more : bool) :
  answer (getBugReports before fault q) st
  = Some (mkQueryResponse 200 (ListJson data l o more)) ->
  (exists appId, Query.appId q = JsString appId /\
     forall r, In r data ->
       In r (rows st) /\ app_id r = appId /\ canonical_id r = None /\
       passesFilter (Query.status q) (status r) /\
       passesFilter (Query.priority q) (JsString (priority r))) /\
  newestFirst data /\
  List.length data <= l /\
  (more = true <-> List.length data = l) /\
  leaves (getBugReports before fault q) st = st.
Proof.
  rewrite getBugReports_run. intro H.
  assert (Hleaves : leaves (getBugReports before fault q) st = st).
  { unfold leaves, getBugReports, tryCatch, bind, reading.
    destruct (validAppId (Query.appId q)); [|reflexivity].
    destruct fault; reflexivity. }
  destruct (validAppId (Query.appId q)) as [appId|] eqn:Ea; [|discriminate].
  destruct fault as [e|]; [discriminate|].
  cbv zeta in H. injection H as Hd Hl Ho Hm.
  split; [|split; [|split; [|split]]].
  - exists appId. split.
    + unfold validAppId in Ea. destruct (Query.appId q); try discriminate.
      destruct (Js.truthy s); [now injection Ea as -> | discriminate].
    + intros r Hr. apply (In_matching appId q st r).
      rewrite <- Hd in Hr. apply In_firstn_inv, In_skipn_inv in Hr.
      now apply In_order_desc in Hr.
  - rewrite <- Hd. apply sorted_firstn, sorted_skipn, order_desc_sorted.
  - rewrite <- Hd, <- Hl. apply firstn_le_length.
  - rewrite <- Hm, Hd, Hl. apply Nat.eqb_eq.
  - exact Hleaves.
Qed.

Lemma listed_reports_match_witness :
  let q := Query.mkListQuery (JsString "app1") (JsString "open") JsUndefined
             (Some 2) None in
  let data := [sampleRow 3 "app1" "fp" None 1 300; sampleRow 0 "app1" "fp" None 1 200] in
  answer (getBugReports tableOrder None q) threeCanonicals
  = Some (mkQueryResponse 200 (ListJson data 2 0 true)) /\
  newestFirst data.
Proof.
  cbv zeta.
  assert (E : answer (getBugReports tableOrder None
                (Query.mkListQuery (JsString "app1") (JsString "open") JsUndefined
                   (Some 2) None)) threeCanonicals
              = Some (mkQueryResponse 200
                  (ListJson [sampleRow 3 "app1" "fp" None 1 300;
                             sampleRow 0 "app1" "fp" None 1 200] 2 0 true))).
  { vm_compute. reflexivity. }
  split; [exact E|].
  exact (proj1 (proj2 (listed_reports_match tableOrder None _ threeCanonicals
                         _ 2 0 true E))).
Defined.

(** X8: pages fit together when no two of the rows asked for were created
    at the same instant: the rows shown from an offset with a limit,
    followed by the rows shown from the end of that page with a second
    limit, are the rows shown from the offset with the sum of the limits,
    although the three pages come from three queries. *)
Theorem pages_concatenate (before1 before2 before3 : Report -> Report -> bool)
    (fault : option PostgrestError) (q : Query.ListQuery)
    (st : Store) (o l1 l2 : nat) :
  (forall appId, validAppId (Query.appId q) = Some appId ->
                 distinctTimes (matching appId q st)) ->
  listed before1 fault (pageOf q o (l1 + l2)) st
  = listed before2 fault (pageOf q o l1) st
    ++ listed before3 fault (pageOf q (o + l1) l2) st.
Proof.
  intro Hd. rewrite !listed_run. cbn [pageOf Query.appId Query.limit Query.offset].
  destruct (validAppId (Query.appId q)) as [appId|]; [|reflexivity].
  destruct fault; [reflexivity|].
  change (matching appId (pageOf q o (l1 + l2)) st) with (matching appId q st).
  change (matching appId (pageOf q o l1) st) with (matching appId q st).
  change (matching appId (pageOf q (o + l1) l2) st) with (matching appId q st).
  rewrite (order_desc_same before2 before1), (order_desc_same before3 before1)
    by (now apply Hd).
  apply firstn_skipn_add.
Qed.

Lemma pages_concatenate_witness :
  let q := Query.mkListQuery (JsString "app1") JsUndefined JsUndefined None None in
  listed tableOrder None (pageOf q 0 3) threeCanonicals
  = listed (fun _ _ => false) None (pageOf q 0 1) threeCanonicals
    ++ listed tableOrder None (pageOf q 1 2) threeCanonicals.
Proof.
  cbv zeta.
  apply (pages_concatenate tableOrder (fun _ _ => false) tableOrder None
           (Query.mkListQuery (JsString "app1") JsUndefined JsUndefined None None)
           threeCanonicals 0 1 2).
  intros appId E. injection E as <-. vm_compute.
  repeat (constructor; [cbn; intuition discriminate|]). constructor.
Defined.

(** X9: nothing is left out. A page that has room for all the canonical
    records of the tenant that carry the status and the priority asked for
    shows each of them; and when no two of them were created at the same
    instant, each is the row shown by the request for one row at some
    offset, whatever the queries. *)
Theorem every_match_is_on_a_page (before : nat -> Report -> Report -> bool)
    (q : Query.ListQuery) (st : Store) (appId : string) (r : Report) :
  validAppId (Query.appId q) = Some appId ->
  In r (rows st) -> app_id r = appId -> canonical_id r = None ->
  passesFilter (Query.status q) (status r) ->
  passesFilter (Query.priority q) (JsString (priority r)) ->
  (forall l, List.length (matching appId q st) <= l ->
             In r (listed (before 0) None (pageOf q 0 l) st)) /\
  (distinctTimes (matching appId q st) ->
   exists k, listed (before k) None (pageOf q k 1) st = [r]).
Proof.
  intros Ea Hin Ha Hc Hs Hp.
  pose proof (matching_In appId q st r Hin Ha Hc Hs Hp) as Hm.
  split.
  - intros l Hl. rewrite listed_run.
    cbn [pageOf Query.appId Query.limit Query.offset]. rewrite Ea.
    change (matching appId (pageOf q 0 l) st) with (matching appId q st).
    cbn [skipn]. rewrite firstn_all2 by (now rewrite length_order_desc).
    now apply In_order_desc.
  - intro Hd. apply (In_order_desc (before 0) created_at) in Hm.
    apply In_nth_error in Hm. destruct Hm as [k Hk].
    exists k. rewrite listed_run. cbn [pageOf Query.appId Query.limit Query.offset].
    rewrite Ea.
    change (matching appId (pageOf q k 1) st) with (matching appId q st).
    rewrite (order_desc_same (before k) (before 0) _ Hd).
    remember (SupabaseRead.order_desc (before 0) created_at (matching appId q st))
      as sorted.
    clear - Hk. revert sorted Hk. induction k as [|k IH]; intros [|x sorted] Hk;
      try discriminate.
    + simpl in Hk. injection Hk as ->. reflexivity.
    + simpl in Hk. simpl skipn. now apply IH.
Qed.

Lemma every_match_is_on_a_page_witness :
  let q := Query.mkListQuery (JsString "app1") JsUndefined (JsString "high")
             None None in
  let r := sampleRow 1 "app1" "fp" None 1 100 in
  (forall l, List.length (matching "app1" q threeCanonicals) <= l ->
             In r (listed tableOrder None (pageOf q 0 l) threeCanonicals)) /\
  (distinctTimes (matching "app1" q threeCanonicals) ->
   exists k, listed tableOrder None (pageOf q k 1) threeCanonicals = [r]).
Proof.
  cbv zeta.
  apply (every_match_is_on_a_page (fun _ => tableOrder)
           (Query.mkListQuery (JsString "app1") JsUndefined (JsString "high")
              None None)
           threeCanonicals "app1" (sampleRow 1 "app1" "fp" None 1 100)).
  - reflexivity.
  - right. left. reflexivity.
  - reflexivity.
  - reflexivity.
  - intros s E. discriminate E.
  - intros s E _. injection E as <-. reflexivity.
Defined.

(** X10: on a page that ends exactly where the rows end, [hasMore] is true
    although the next page shows nothing. *)
Theorem hasMore_on_exact_fit (before before' : Report -> Report -> bool)
    (q : Query.ListQuery) (st : Store) (appId : string) (o l : nat) :
  validAppId (Query.appId q) = Some appId ->
  List.length (matching appId q st) = o + l ->
  (exists data,
     answer (getBugReports before None (pageOf q o l)) st
     = Some (mkQueryResponse 200 (ListJson data l o true))) /\
  forall l', listed before' None (pageOf q (o + l) l') st = [].
Proof.
  intros Ea Hlen.
  split.
  - pose proof (length_order_desc before created_at (matching appId q st)) as Hs.
    rewrite getBugReports_run.
    cbn [pageOf Query.appId Query.limit Query.offset]. rewrite Ea. cbv zeta.
    change (matching appId (pageOf q o l) st) with (matching appId q st).
    remember (SupabaseRead.order_desc before created_at (matching appId q st))
      as sorted.
    eexists. f_equal. f_equal. f_equal.
    apply Nat.eqb_eq. rewrite length_firstn, length_skipn. lia.
  - pose proof (length_order_desc before' created_at (matching appId q st)) as Hs.
    intro l'. rewrite listed_run.
    cbn [pageOf Query.appId Query.limit Query.offset]. rewrite Ea.
    change (matching appId (pageOf q (o + l) l') st) with (matching appId q st).
    rewrite skipn_all2 by lia. apply firstn_nil.
Qed.

Lemma hasMore_on_exact_fit_witness :
  let q := Query.mkListQuery (JsString "app1") JsUndefined JsUndefined None None in
  (exists data,
     answer (getBugReports tableOrder None (pageOf q 1 2)) threeCanonicals
     = Some (mkQueryResponse 200 (ListJson data 2 1 true))) /\
  forall l', listed tableOrder None (pageOf q 3 l') threeCanonicals = [].
Proof.
  cbv zeta.
  apply (hasMore_on_exact_fit tableOrder tableOrder _ threeCanonicals "app1" 1 2).
  - reflexivity.
  - reflexivity.
Defined.

(* ================================================================== *)
(** ** Reading one report, and the duplicates of one *)
(* ================================================================== *)

Section Reading.

Lemma eq_id_absent (target : nat) (l : list Report) :
  (forall r, In r l -> id r <> target) -> Supabase.eq_id target l = [].
Proof.
  intro H. induction l as [|x l IH]; [reflexivity|].
  unfold Supabase.eq_id in *. cbn [filter].
  destruct (Nat.eqb_spec (id x) target) as [E|E].
  - exfalso. apply (H x); [now left | exact E].
  - apply IH. intros r Hr. apply H. now right.
Qed.

Lemma eq_id_unique (l : list Report) (r : Report) :
  NoDup (map id l) -> In r l -> Supabase.eq_id (id r) l = [r].
Proof.
  induction l as [|x l IH]; intros Hnd Hin; [destruct Hin|].
  cbn [map] in Hnd. inversion Hnd as [|? ? Hx Hl]; subst.
  unfold Supabase.eq_id in *. cbn [filter].
  destruct Hin as [->|Hin].
  - rewrite Nat.eqb_refl. f_equal.
    apply (eq_id_absent (id r) l). intros y Hy E. apply Hx.
    rewrite <- E. now apply in_map.
  - destruct (Nat.eqb_spec (id x) (id r)) as [E|E].
    + exfalso. apply Hx. rewrite E. now apply in_map.
    + now apply IH.
Qed.

Lemma eq_id_last (l : list Report) (x : Report) :
  (forall r, In r l -> id r < id x) -> Supabase.eq_id (id x) (l ++ [x]) = [x].
Proof.
  intro H. unfold Supabase.eq_id. rewrite filter_app.
  fold (Supabase.eq_id (id x) l). rewrite eq_id_absent.
  - cbn [filter app]. now rewrite Nat.eqb_refl.
  - intros r Hr E. specialize (H r Hr). lia.
Qed.

Lemma eq_id_incrementRow (env : Env) (c n : nat) (l : list Report) :
  Supabase.eq_id n (map (incrementRow env c) l)
  = map (incrementRow env c) (Supabase.eq_id n l).
Proof.
  unfold Supabase.eq_id. apply filter_map_commute.
  intro r. unfold incrementRow. now destruct (Nat.eqb (id r) c).
Qed.

Lemma getBugReport_run (fault : option PostgrestError) (target : nat) (st : Store) :
  answer (getBugReport fault target) st =
  Some match fault with
       | Some e =>
           if String.eqb (code e) "PGRST116"
           then mkQueryResponse 404 (QueryError "Bug report not found")
           else mkQueryResponse 500 (QueryError (message e))
       | None =>
           match Supabase.single (Supabase.eq_id target (rows st)) with
           | Data r => mkQueryResponse 200 (OneJson r)
           | Error _ => mkQueryResponse 404 (QueryError "Bug report not found")
           end
       end
  /\ leaves (getBugReport fault target) st = st.
Proof.
  unfold answer, leaves, getBugReport, tryCatch, bind, reading, Supabase.attempt.
  cbn [db]. destruct fault as [e|].
  - destruct (String.eqb (code e) "PGRST116"); split; reflexivity.
  - unfold Supabase.single.
    destruct (Supabase.eq_id target (rows st)) as [|r [|? ?]]; split; reflexivity.
Qed.

Lemma getDuplicates_run (before : Report -> Report -> bool)
    (fault : option PostgrestError) (target : nat) (st : Store) :
  answer (getDuplicates before fault target) st =
  Some match fault with
       | Some e => mkQueryResponse 500 (QueryError (message e))
       | None =>
           let data := SupabaseRead.order_desc before created_at
                         (SupabaseRead.eq_canonical target (rows st)) in
           mkQueryResponse 200 (DuplicatesJson data (List.length data))
       end.
Proof.
  unfold answer, getDuplicates, tryCatch, bind, reading, SupabaseRead.select,
    Supabase.attempt.
  destruct fault; reflexivity.
Qed.

Lemma eq_canonical_duplicatesOf (target : nat) (st : Store) :
  SupabaseRead.eq_canonical target (rows st) = duplicatesOf target st.
Proof. reflexivity. Qed.

(** The table and the answer of a submission that is stored. *)
Lemma stored_submission (env : Env) (req : Req.Submit) (st : Store)
    (i : nat) (s : JsValue) (dup : bool) (c : option nat) (n : nat) :
  idsBelowNext st ->
  response (submitBugReport env req) st
  = Some (mkResponse 201 (SubmittedJson i s dup c n)) ->
  exists a d p,
    validated req a d p /\
    let data := stamped env st (payloadOf env req a d p st) in
    i = id data /\ s = status data /\ c = canonical_id data /\
    dup = (match c with Some _ => true | None => false end) /\
    Supabase.eq_id i (rows (after (submitBugReport env req) st)) = [data].
Proof.
  intros Hids Hresp. unfold response, after in *.
  destruct (validated_dec req) as [(a & d & p & Hv)|Hinv].
  - destruct (insertFault env) as [e|] eqn:Hins.
    + unfold run in Hresp.
      rewrite (submitBugReport_valid env req a d p _ Hv), Hins in Hresp.
      discriminate Hresp.
    + exists a, d, p. split; [exact Hv|]. cbv zeta.
      rewrite (run_valid_submission env req a d p st Hv Hins) in *.
      set (fp := generateFingerprint a d (Req.screenName (Req.body req))) in *.
      set (data := stamped env st (payloadOf env req a d p st)) in *.
      assert (Hid : id data = next_id st) by reflexivity.
      assert (Hcan : canonical_id data = lookup env fp a st) by reflexivity.
      assert (Hlast : Supabase.eq_id (id data) (rows st ++ [data]) = [data]).
      { apply eq_id_last. intros r Hr. rewrite Hid. now apply Hids. }
      destruct (lookup env fp a st) as [c0|] eqn:Hl; cbn [fst snd db] in *.
      * injection Hresp as Hi Hs Hd Hc Hn.
        rewrite <- Hi, <- Hs, <- Hc, <- Hd, Hcan.
        split; [reflexivity|]. split; [reflexivity|]. split; [reflexivity|].
        split; [reflexivity|].
        rewrite increment_run. destruct (rpcFault env).
        -- exact Hlast.
        -- refine (eq_trans (eq_id_incrementRow env c0 (id data) (rows st ++ [data])) _).
           rewrite Hlast. cbn [map]. f_equal.
           unfold incrementRow.
           destruct (lookup_Some env fp a st c0 Hl) as (r0 & Hr0 & Hr0id & _).
           specialize (Hids r0 Hr0).
           destruct (Nat.eqb_spec (id data) c0) as [E|E]; [lia | reflexivity].
      * injection Hresp as Hi Hs Hd Hc Hn.
        rewrite <- Hi, <- Hs, <- Hc, <- Hd, Hcan.
        split; [reflexivity|]. split; [reflexivity|]. split; [reflexivity|].
        split; [reflexivity|]. exact Hlast.
  - destruct (submitBugReport_invalid env req (mkWorld st []) Hinv) as [msg E].
    unfold run in Hresp. rewrite E in Hresp. discriminate Hresp.
Qed.

End Reading.

(** X11: what a read of one report answers. When the call fails, 404 for the
    code PGRST116 and 500 with the message otherwise; when it goes through
    on a table without repeated ids, the record of that id, or 404 when no
    record has it. The table is left as it was. *)
Theorem getBugReport_outcomes (fault : option PostgrestError) (target : nat)
    (st : Store) :
  NoDup (map id (rows st)) ->
  leaves (getBugReport fault target) st = st /\
  match fault with
  | Some e =>
      answer (getBugReport fault target) st
      = Some (if String.eqb (code e) "PGRST116"
              then mkQueryResponse 404 (QueryError "Bug report not found")
              else mkQueryResponse 500 (QueryError (message e)))
  | None =>
      (exists r, In r (rows st) /\ id r = target /\
                 answer (getBugReport fault target) st
                 = Some (mkQueryResponse 200 (OneJson r))) \/
      ((forall r, In r (rows st) -> id r <> target) /\
       answer (getBugReport fault target) st
       = Some (mkQueryResponse 404 (QueryError "Bug report not found")))
  end.
Proof.
  intro Hnd. destruct (getBugReport_run fault target st) as [Ha Hl].
  split; [exact Hl|]. destruct fault as [e|]; [exact Ha|].
  destruct (in_dec Nat.eq_dec target (map id (rows st))) as [Hin|Hout].
  - left. apply in_map_iff in Hin. destruct Hin as (r & Hid & Hr).
    exists r. split; [exact Hr|]. split; [exact Hid|].
    rewrite Ha, <- Hid, (eq_id_unique (rows st) r Hnd Hr). reflexivity.
  - right. assert (Habs : forall r, In r (rows st) -> id r <> target).
    { intros r Hr E. apply Hout. rewrite <- E. now apply in_map. }
    split; [exact Habs|]. rewrite Ha, (eq_id_absent target (rows st) Habs).
    reflexivity.
Qed.

Lemma getBugReport_outcomes_witness :
  leaves (getBugReport None 7) threeCanonicals = threeCanonicals /\
  ((exists r, In r (rows threeCanonicals) /\ id r = 7 /\
              answer (getBugReport None 7) threeCanonicals
              = Some (mkQueryResponse 200 (OneJson r))) \/
   ((forall r, In r (rows threeCanonicals) -> id r <> 7) /\
    answer (getBugReport None 7) threeCanonicals
    = Some (mkQueryResponse 404 (QueryError "Bug report not found")))).
Proof.
  apply (getBugReport_outcomes None 7 threeCanonicals).
  cbn. repeat (constructor; [cbn; intuition discriminate|]). constructor.
Defined.

(** X12: a stored submission can be read back: the read of the identifier
    the submission answered with gives the record of the submission, with
    the status and the link of the answer, the tenant, the trimmed
    description, the priority and the user of the request, and the
    fingerprint of its text. *)
Theorem read_back_after_submit (env : Env) (req : Req.Submit) (st : Store)
    (i : nat) (s : JsValue) (dup : bool) (c : option nat) (n : nat) :
  idsBelowNext st ->
  response (submitBugReport env req) st
  = Some (mkResponse 201 (SubmittedJson i s dup c n)) ->
  exists r,
    answer (getBugReport None i) (after (submitBugReport env req) st)
    = Some (mkQueryResponse 200 (OneJson r)) /\
    id r = i /\ status r = s /\ canonical_id r = c /\
    user_id r = orNull (Req.user req) /\ created_at r = now env /\
    exists a d p,
      validated req a d p /\ app_id r = a /\ description r = Js.trim d /\
      priority r = p /\
      fingerprint r = generateFingerprint a d (Req.screenName (Req.body req)).
Proof.
  intros Hids Hresp.
  destruct (stored_submission env req st i s dup c n Hids Hresp)
    as (a & d & p & Hv & Hi & Hs & Hc & _ & Hq).
  exists (stamped env st (payloadOf env req a d p st)).
  split.
  - rewrite (proj1 (getBugReport_run None i _)), Hq. reflexivity.
  - split; [now rewrite Hi|]. split; [now rewrite Hs|]. split; [now rewrite Hc|].
    split; [reflexivity|]. split; [reflexivity|].
    exists a, d, p. split; [exact Hv|].
    split; [reflexivity|]. split; [reflexivity|]. split; reflexivity.
Qed.

Lemma read_back_after_submit_witness :
  exists r,
    answer (getBugReport None 0) (after (submitBugReport (quietEnv 1000) firstReport)
                                    emptyStore)
    = Some (mkQueryResponse 200 (OneJson r)) /\
    id r = 0 /\ status r = JsString "open" /\ canonical_id r = None /\
    user_id r = orNull (Req.user firstReport) /\ created_at r = now (quietEnv 1000) /\
    exists a d p,
      validated firstReport a d p /\ app_id r = a /\ description r = Js.trim d /\
      priority r = p /\
      fingerprint r
      = generateFingerprint a d (Req.screenName (Req.body firstReport)).
Proof.
  apply (read_back_after_submit (quietEnv 1000) firstReport emptyStore
           0 (JsString "open") false None 0).
  - intros r Hr. destruct Hr.
  - vm_compute. reflexivity.
Defined.

(** X13: an update that answers with a record can be read back: the read of
    the same identifier on the table the update leaves gives that record. *)
Theorem read_back_after_update (env : Env) (target : nat)
    (body : list (string * JsValue)) (st : Store) (r : Report) :
  response (updateBugReport env target body) st
  = Some (mkResponse 200 (ReportJson r)) ->
  answer (getBugReport None target) (after (updateBugReport env target body) st)
  = Some (mkQueryResponse 200 (OneJson r)).
Proof.
  unfold response, after. rewrite updateBugReport_run.
  rewrite (proj1 (getBugReport_run None target _)).
  destruct (buildUpdates body); [discriminate|].
  destruct (updateFault env) as [e|]; cbn [fst snd db].
  - destruct (String.eqb (code e) "PGRST116"); discriminate.
  - cbn [rows].
    destruct (Supabase.single (Supabase.eq_id target
                (rowsUpdated env target body (rows st)))); [|discriminate].
    intro H. injection H as ->. reflexivity.
Qed.

Lemma read_back_after_update_witness :
  let body := [("status", JsString "resolved")] in
  let r := Supabase.update_bug_report_timestamp (quietEnv 500)
             (set_status (JsString "resolved") (sampleRow 0 "app1" "fp" None 1 200)) in
  answer (getBugReport None 0)
    (after (updateBugReport (quietEnv 500) 0 body) threeCanonicals)
  = Some (mkQueryResponse 200 (OneJson r)).
Proof.
  cbv zeta.
  apply (read_back_after_update (quietEnv 500) 0 [("status", JsString "resolved")]
           threeCanonicals).
  vm_compute. reflexivity.
Defined.

Section Duplicates.

Lemma In_eq_canonical (target : nat) (l : list Report) (r : Report) :
  In r (SupabaseRead.eq_canonical target l) <-> In r l /\ canonical_id r = Some target.
Proof.
  unfold SupabaseRead.eq_canonical. rewrite filter_In.
  destruct (canonical_id r) as [c|]; [|intuition discriminate].
  destruct (Nat.eqb_spec c target) as [->|E]; [tauto|].
  split; [intros [_ H]; discriminate H|].
  intros [_ H]. injection H as H. contradiction.
Qed.

Lemma no_duplicates_of_a_duplicate (st : Store) (r : Report) (c : nat) :
  consistent st -> In r (rows st) -> canonical_id r = Some c ->
  SupabaseRead.eq_canonical (id r) (rows st) = [].
Proof.
  intros [[_ Hnd] Hnc] Hr Hc.
  destruct (SupabaseRead.eq_canonical (id r) (rows st)) as [|x l] eqn:E;
    [reflexivity|].
  exfalso. assert (Hx : In x (SupabaseRead.eq_canonical (id r) (rows st)))
    by (rewrite E; now left).
  apply In_eq_canonical in Hx. destruct Hx as [Hx Hxc].
  pose proof (Hnc x Hx) as Hroot. unfold rooted in Hroot. rewrite Hxc in Hroot.
  destruct Hroot as (_ & root & Hin & Hid & _ & Hnone).
  rewrite (same_id_same_row (rows st) root r Hnd Hin Hr Hid) in Hnone.
  rewrite Hc in Hnone. discriminate Hnone.
Qed.

End Duplicates.

(** X14: the list of duplicates of an identifier holds exactly the records
    whose link is that identifier, newest first, and [count] is their
    number. *)
Theorem duplicates_listing (before : Report -> Report -> bool)
    (fault : option PostgrestError) (target : nat)
    (st : Store) (data : list Report) (n : nat) :
  answer (getDuplicates before fault target) st
  = Some (mkQueryResponse 200 (DuplicatesJson data n)) ->
  (forall r, In r data <-> In r (rows st) /\ canonical_id r = Some target) /\
  newestFirst data /\
  n = List.length data /\ n = List.length (duplicatesOf target st).
Proof.
  rewrite getDuplicates_run. destruct fault as [e|]; [discriminate|].
  cbv zeta. intro H. injection H as Hd Hn.
  split; [|split; [|split]].
  - intro r. rewrite <- Hd, In_order_desc. apply In_eq_canonical.
  - rewrite <- Hd. apply order_desc_sorted.
  - now rewrite <- Hn, Hd.
  - rewrite <- Hn. apply length_order_desc.
Qed.

Lemma duplicates_listing_witness :
  let data := [sampleRow 2 "app1" "fp" (Some 1) 0 150] in
  (forall r, In r data <-> In r (rows threeCanonicals) /\ canonical_id r = Some 1) /\
  newestFirst data /\
  1 = List.length data /\ 1 = List.length (duplicatesOf 1 threeCanonicals).
Proof.
  cbv zeta.
  apply (duplicates_listing tableOrder None 1 threeCanonicals).
  vm_compute. reflexivity.
Defined.

(** X15: links are one level deep as the reading side sees them: on every
    table the service can reach, the list of duplicates of a record that is
    itself a duplicate is empty. *)
Theorem duplicate_has_no_duplicates (before : Report -> Report -> bool)
    (st : Store) (r : Report) (c : nat) :
  reachable st -> In r (rows st) -> canonical_id r = Some c ->
  answer (getDuplicates before None (id r)) st
  = Some (mkQueryResponse 200 (DuplicatesJson [] 0)).
Proof.
  intros Hreach Hr Hc. rewrite getDuplicates_run. cbv zeta.
  rewrite (no_duplicates_of_a_duplicate st r c (reachable_consistent st Hreach) Hr Hc).
  reflexivity.
Qed.

Lemma duplicate_has_no_duplicates_witness :
  answer (getDuplicates tableOrder None 1) afterSecond
  = Some (mkQueryResponse 200 (DuplicatesJson [] 0)).
Proof.
  apply (duplicate_has_no_duplicates tableOrder afterSecond
           (nth 1 (rows afterSecond) (sampleRow 0 "" "" None 0 0)) 0).
  - exact (reachable_step _ (Submit (quietEnv 2000) secondReport)
             (reachable_step _ (Submit (quietEnv 1000) firstReport) reachable_empty)).
  - vm_compute. right. left. reflexivity.
  - vm_compute. reflexivity.
Defined.

(** X16: when no increment has failed, the counter of a canonical record is
    one more than the [count] of its list of duplicates. *)
Theorem duplicates_count_matches_counter (before : Report -> Report -> bool)
    (st : Store) (c : Report) :
  countingRun st -> In c (rows st) -> canonical_id c = None ->
  exists data n,
    answer (getDuplicates before None (id c)) st
    = Some (mkQueryResponse 200 (DuplicatesJson data n)) /\
    duplicate_count c = (Z.of_nat n + 1)%Z.
Proof.
  intros Hrun Hc Hnone. rewrite getDuplicates_run. cbv zeta.
  do 2 eexists. split; [reflexivity|].
  rewrite length_order_desc, eq_canonical_duplicatesOf.
  rewrite (countsItsDuplicates_run st Hrun c Hc Hnone). lia.
Qed.

Lemma duplicates_count_matches_counter_witness :
  let c := nth 0 (rows afterSecond) (sampleRow 0 "" "" None 0 0) in
  exists data n,
    answer (getDuplicates tableOrder None (id c)) afterSecond
    = Some (mkQueryResponse 200 (DuplicatesJson data n)) /\
    duplicate_count c = (Z.of_nat n + 1)%Z.
Proof.
  apply (duplicates_count_matches_counter tableOrder afterSecond).
  - exact (counting_step _ (Submit (quietEnv 2000) secondReport)
             (counting_step _ (Submit (quietEnv 1000) firstReport)
                counting_empty eq_refl) eq_refl).
  - vm_compute. left. reflexivity.
  - vm_compute. reflexivity.
Defined.

(* ================================================================== *)
(** ** Statistics *)
(* ================================================================== *)

Section Tally.

Lemma ownProp_setProp (o : list (string * Tally)) (k : string) (v : Tally)
    (k' : string) :
  ownProp (setProp o k v) k' = if String.eqb k k' then Some v else ownProp o k'.
Proof.
  induction o as [|[k0 v0] o IH]; cbn [setProp ownProp]; [reflexivity|].
  destruct (String.eqb_spec k0 k) as [->|E0]; cbn [ownProp].
  - destruct (String.eqb k k'); reflexivity.
  - rewrite IH. destruct (String.eqb_spec k0 k') as [->|E1]; [|reflexivity].
    destruct (String.eqb_spec k k') as [->|E2]; [contradiction | reflexivity].
Qed.

Lemma bump_other (o : list (string * Tally)) (k k' : string) :
  k <> k' -> ownProp (bump o k) k' = ownProp o k'.
Proof.
  intro E. apply String.eqb_neq in E. unfold bump.
  destruct (ownProp o k) as [[n|t]|].
  - now rewrite ownProp_setProp, E.
  - destruct (Js.truthy t); now rewrite ownProp_setProp, E.
  - destruct (String.eqb k "__proto__"); [reflexivity|].
    destruct (find _ inheritedMembers); now rewrite ownProp_setProp, E.
Qed.

Lemma bump_plain (o : list (string * Tally)) (k : string) (m : nat) :
  plainKey k -> ownProp o k = countOf m -> ownProp (bump o k) k = countOf (S m).
Proof.
  intros [Hp Hf] Ho. unfold bump. rewrite Ho.
  destruct m as [|m]; cbn [countOf].
  - apply String.eqb_neq in Hp. rewrite Hp, Hf, ownProp_setProp.
    now rewrite String.eqb_refl.
  - now rewrite ownProp_setProp, String.eqb_refl.
Qed.

Lemma tally_from (keys : list string) (o : list (string * Tally)) (k : string)
    (m : nat) :
  plainKey k -> ownProp o k = countOf m ->
  ownProp (fold_left bump keys o) k
  = countOf (m + List.length (filter (String.eqb k) keys)).
Proof.
  intro Hk. revert o m. induction keys as [|x keys IH]; intros o m Ho.
  - cbn. now rewrite Nat.add_0_r.
  - cbn [fold_left filter]. destruct (String.eqb_spec k x) as [<-|E].
    + rewrite (IH (bump o k) (S m)); [|now apply bump_plain].
      cbn [List.length]. f_equal. lia.
    + apply IH. rewrite bump_other; [exact Ho | congruence].
Qed.

Lemma tally_plain (keys : list string) (k : string) :
  plainKey k ->
  ownProp (tally keys) k = countOf (List.length (filter (String.eqb k) keys)).
Proof. intro Hk. apply (tally_from keys [] k 0 Hk). reflexivity. Qed.

Lemma tally_keys (keys : list string) (o : list (string * Tally)) (k : string) :
  ownProp (fold_left bump keys o) k <> None -> ownProp o k <> None \/ In k keys.
Proof.
  revert o. induction keys as [|x keys IH]; intros o H; [now left|].
  cbn [fold_left] in H. destruct (IH _ H) as [Hb|Hin]; [|right; now right].
  destruct (String.eqb_spec x k) as [->|E]; [right; now left|].
  left. now rewrite bump_other in Hb.
Qed.

Lemma filter_filter {A} (p q : A -> bool) (l : list A) :
  filter p (filter q l) = filter (fun x => q x && p x) l.
Proof.
  induction l as [|x l IH]; [reflexivity|]. cbn [filter].
  destruct (q x); cbn [filter andb]; [destruct (p x)|]; now rewrite IH.
Qed.

Lemma filter_map_length {A B} (p : B -> bool) (f : A -> B) (l : list A) :
  List.length (filter p (map f l)) = List.length (filter (fun x => p (f x)) l).
Proof.
  induction l as [|x l IH]; [reflexivity|]. cbn [map filter].
  destruct (p (f x)); cbn [List.length]; now rewrite IH.
Qed.

Lemma tenant_rows (appId : string) (st : Store) :
  Supabase.is_null canonical_id (Supabase.eq_text app_id appId (rows st))
  = filter (ofTenant appId) (rows st).
Proof. unfold Supabase.is_null, Supabase.eq_text. apply filter_filter. Qed.

Lemma getStats_run (statusFault priorityFault : option PostgrestError)
    (appId_ : JsValue) (st : Store) :
  answer (getStats statusFault priorityFault appId_) st =
  Some match validAppId appId_ with
       | None => mkQueryResponse 400 (QueryError "appId query parameter is required")
       | Some appId =>
           match statusFault, priorityFault with
           | Some e, _ => mkQueryResponse 500 (QueryError (message e))
           | None, Some e => mkQueryResponse 500 (QueryError (message e))
           | None, None =>
               let found := filter (ofTenant appId) (rows st) in
               mkQueryResponse 200
                 (StatsJson (List.length found)
                    (tally (map (fun r => toPropertyKey (status r)) found))
                    (tally (map priority found)))
           end
       end.
Proof.
  unfold answer, getStats, tryCatch, bind, reading, SupabaseRead.select,
    Supabase.attempt.
  destruct (validAppId appId_) as [appId|]; [|reflexivity].
  destruct statusFault; [reflexivity|]. destruct priorityFault; [reflexivity|].
  cbv zeta. rewrite <- !tenant_rows. reflexivity.
Qed.

Lemma three_way_split (l : list Report) :
  (forall r, In r l -> In (priority r) ["low"; "medium"; "high"]) ->
  List.length l
  = List.length (filter (String.eqb "low") (map priority l))
    + List.length (filter (String.eqb "medium") (map priority l))
    + List.length (filter (String.eqb "high") (map priority l)).
Proof.
  induction l as [|x l IH]; intro H; [reflexivity|].
  cbn [map filter List.length].
  rewrite IH by (intros r Hr; apply H; now right).
  destruct (H x (or_introl eq_refl)) as [E|[E|[E|[]]]]; rewrite <- E;
    cbn [String.eqb Ascii.eqb Bool.eqb List.length]; lia.
Qed.

End Tally.

(** X17: the statistics of a tenant count its canonical records: [total] is
    their number, and for every key that names nothing a plain object
    inherits, [byPriority] holds the number of them with that priority and
    [byStatus] the number of them with that status, and no entry when there
    is none. *)
Theorem stats_count_canonicals
    (statusFault priorityFault : option PostgrestError) (appId_ : JsValue)
    (st : Store) (total : nat) (byStatus byPriority : list (string * Tally)) :
  answer (getStats statusFault priorityFault appId_) st
  = Some (mkQueryResponse 200 (StatsJson total byStatus byPriority)) ->
  exists appId,
    appId_ = JsString appId /\
    total = numberOf (ofTenant appId) st /\
    forall k, plainKey k ->
      ownProp byPriority k
      = countOf (numberOf (fun r => ofTenant appId r && String.eqb k (priority r)) st) /\
      ownProp byStatus k
      = countOf (numberOf (fun r => ofTenant appId r
                                    && String.eqb k (toPropertyKey (status r))) st).
Proof.
  rewrite getStats_run. intro H.
  destruct (validAppId appId_) as [appId|] eqn:Ea; [|discriminate].
  destruct statusFault; [discriminate|]. destruct priorityFault; [discriminate|].
  cbv zeta in H. injection H as Ht Hs Hp.
  exists appId. split; [|split].
  - unfold validAppId in Ea. destruct appId_; try discriminate.
    destruct (Js.truthy s); [now injection Ea as -> | discriminate].
  - now rewrite <- Ht.
  - intros k Hk. unfold numberOf. rewrite <- Hp, <- Hs, !(tally_plain _ k Hk).
    rewrite !filter_map_length, !filter_filter. split; reflexivity.
Qed.

Lemma stats_count_canonicals_witness :
  exists appId,
    JsString "app1" = JsString appId /\
    3 = numberOf (ofTenant appId) threeCanonicals /\
    forall k, plainKey k ->
      ownProp [("high", Count 3)] k
      = countOf (numberOf (fun r => ofTenant appId r && String.eqb k (priority r))
                   threeCanonicals) /\
      ownProp [("open", Count 3)] k
      = countOf (numberOf (fun r => ofTenant appId r
                                    && String.eqb k (toPropertyKey (status r)))
                   threeCanonicals).
Proof.
  apply (stats_count_canonicals None None (JsString "app1") threeCanonicals 3
           [("open", Count 3)] [("high", Count 3)]).
  vm_compute. reflexivity.
Defined.

(** X18: on every table the service can reach, [byPriority] has entries for
    low, medium and high only, and their counts add up to [total]. *)
Theorem stats_priorities_add_up (appId_ : JsValue) (st : Store) (total : nat)
    (byStatus byPriority : list (string * Tally)) :
  reachable st ->
  answer (getStats None None appId_) st
  = Some (mkQueryResponse 200 (StatsJson total byStatus byPriority)) ->
  total = countIn byPriority "low" + countIn byPriority "medium"
          + countIn byPriority "high" /\
  forall k, ownProp byPriority k <> None -> In k ["low"; "medium"; "high"].
Proof.
  intro Hreach. rewrite getStats_run.
  destruct (validAppId appId_) as [appId|]; [|discriminate].
  cbv zeta. intro H. injection H as Ht Hs Hp.
  assert (Hshape : forall r, In r (filter (ofTenant appId) (rows st)) ->
                             In (priority r) ["low"; "medium"; "high"]).
  { intros r Hr. apply filter_In in Hr.
    exact (proj1 (proj2 (wellShaped_reachable st r Hreach (proj1 Hr)))). }
  split.
  - rewrite <- Ht, <- Hp. unfold countIn.
    rewrite !tally_plain by (split; [discriminate | reflexivity]).
    rewrite (three_way_split _ Hshape).
    set (n1 := List.length (filter (String.eqb "low") _)).
    set (n2 := List.length (filter (String.eqb "medium") _)).
    set (n3 := List.length (filter (String.eqb "high") _)).
    destruct n1, n2, n3; reflexivity.
  - intros k Hk. rewrite <- Hp in Hk. unfold tally in Hk.
    destruct (tally_keys _ _ _ Hk) as [Hn|Hin]; [now elim Hn|].
    apply in_map_iff in Hin. destruct Hin as (r & <- & Hr). now apply Hshape.
Qed.

Lemma stats_priorities_add_up_witness :
  2 = countIn [("high", Count 1); ("low", Count 1)] "low"
      + countIn [("high", Count 1); ("low", Count 1)] "medium"
      + countIn [("high", Count 1); ("low", Count 1)] "high" /\
  forall k, ownProp [("high", Count 1); ("low", Count 1)] k <> None ->
            In k ["low"; "medium"; "high"].
Proof.
  apply (stats_priorities_add_up (JsString "app1")
           (submitAll [(quietEnv 1000, firstReport);
                       (quietEnv 2000,
                        Req.mkSubmit (crashBody "Other crash" "low") None)]
              emptyStore)
           2 [("open", Count 2)]).
  - exact (reachable_step _
             (Submit (quietEnv 2000) (Req.mkSubmit (crashBody "Other crash" "low") None))
             (reachable_step _ (Submit (quietEnv 1000) firstReport) reachable_empty)).
  - vm_compute. reflexivity.
Defined.

(* ================================================================== *)
(** ** Authentication *)
(* ================================================================== *)

Section Tokens.

Lemma prefix_split (p s : string) :
  String.prefix p s = true -> exists b, s = (p ++ b)%string.
Proof.
  revert s. induction p as [|a p IH]; intros s H; [now exists s|].
  destruct s as [|c s]; [discriminate|]. cbn in H.
  destruct (ascii_dec a c) as [->|]; [|discriminate].
  destruct (IH s H) as [b ->]. now exists b.
Qed.

Lemma prefix_append (p b : string) : String.prefix p (p ++ b) = true.
Proof.
  induction p as [|a p IH]; [now destruct b|]. cbn.
  destruct (ascii_dec a a); [exact IH | contradiction].
Qed.

Lemma str_app (l1 l2 : list ascii) : Js.str (l1 ++ l2) = (Js.str l1 ++ Js.str l2)%string.
Proof.
  unfold Js.str. induction l1 as [|c l1 IH]; [reflexivity|]. cbn. now rewrite IH.
Qed.

Lemma chars_app (s1 s2 : string) : Js.chars (s1 ++ s2) = Js.chars s1 ++ Js.chars s2.
Proof.
  unfold Js.chars. induction s1 as [|c s1 IH]; [reflexivity|]. cbn. now rewrite IH.
Qed.

Lemma splitOn_word (t rest : list ascii) :
  forallb (fun c => negb (Ascii.eqb c " ")) t = true ->
  splitOn " " (t ++ " "%char :: rest) = t :: splitOn " " rest.
Proof.
  induction t as [|c t IH]; intro H; [reflexivity|].
  cbn [forallb] in H. apply andb_prop in H. destruct H as [Hc Ht].
  cbn [app splitOn]. rewrite (IH Ht).
  destruct (Ascii.eqb c " "); [discriminate | reflexivity].
Qed.

Lemma splitOn_single (t : list ascii) :
  forallb (fun c => negb (Ascii.eqb c " ")) t = true -> splitOn " " t = [t].
Proof.
  induction t as [|c t IH]; intro H; [reflexivity|].
  cbn [forallb] in H. apply andb_prop in H. destruct H as [Hc Ht].
  cbn [splitOn]. rewrite (IH Ht).
  destruct (Ascii.eqb c " "); [discriminate | reflexivity].
Qed.

Lemma first_word (l : list ascii) :
  exists t rest,
    l = t ++ rest /\ forallb (fun c => negb (Ascii.eqb c " ")) t = true /\
    (rest = [] \/ exists rest', rest = " "%char :: rest').
Proof.
  induction l as [|c l (t & rest & -> & Ht & Hrest)].
  - exists [], []. split; [reflexivity|]. split; [reflexivity | now left].
  - destruct (Ascii.eqb_spec c " ") as [->|E].
    + exists [], (" "%char :: t ++ rest). split; [reflexivity|].
      split; [reflexivity|]. right. now eexists.
    + exists (c :: t), rest. split; [reflexivity|]. split; [|exact Hrest].
      cbn [forallb]. rewrite Ht. apply Ascii.eqb_neq in E. now rewrite E.
Qed.

Lemma bearerToken_word (t rest : list ascii) :
  forallb (fun c => negb (Ascii.eqb c " ")) t = true ->
  rest = [] \/ (exists rest', rest = " "%char :: rest') ->
  bearerToken ("Bearer " ++ Js.str (t ++ rest)) = Js.str t.
Proof.
  intros Ht Hrest. unfold bearerToken. rewrite chars_app, chars_str.
  change (Js.chars "Bearer ") with (Js.chars "Bearer" ++ [" "%char]).
  rewrite <- app_assoc. cbn [app].
  rewrite (splitOn_word (Js.chars "Bearer")) by reflexivity.
  destruct Hrest as [->|[rest' ->]].
  - rewrite app_nil_r, (splitOn_single t Ht). reflexivity.
  - rewrite (splitOn_word t rest' Ht). reflexivity.
Qed.

Lemma bearerHeader_bearer (b : string) :
  bearerHeader (Some ("Bearer " ++ b)%string) = Some ("Bearer " ++ b)%string.
Proof.
  unfold bearerHeader. now rewrite (prefix_append "Bearer " b).
Qed.

End Tokens.

Lemma optionalAuth_run (getUser : string -> IdentityAnswer)
    (authorization : option string) :
  optionalAuth getUser authorization
  = Continue match authenticate getUser authorization with
             | Continue userId => Some userId
             | Respond _ => None
             end.
Proof.
  unfold optionalAuth, authenticate.
  destruct (bearerHeader authorization) as [authHeader|]; [|reflexivity].
  destruct (getUser _); reflexivity.
Qed.

(** X19: the optional authentication never answers the request itself, and
    it attaches a user exactly when the required authentication would let
    the request through, the same user. *)
Theorem optionalAuth_agrees_with_authenticate (getUser : string -> IdentityAnswer)
    (authorization : option string) :
  optionalAuth getUser authorization
  = Continue match authenticate getUser authorization with
             | Continue userId => Some userId
             | Respond _ => None
             end.
Proof. apply optionalAuth_run. Qed.

(** X20: of a header that passes the check for the word Bearer, the token
    is the text between the first space and the second one, if any: the
    default for a missing token is never used, and what follows a second
    space plays no part in the authentication. *)
Theorem bearer_token_is_second_word (getUser : string -> IdentityAnswer)
    (authorization : option string) (authHeader : string) :
  bearerHeader authorization = Some authHeader ->
  exists t rest,
    authHeader = ("Bearer " ++ t ++ rest)%string /\ noSpace t = true /\
    (rest = "" \/ exists rest', rest = (" " ++ rest')%string) /\
    bearerToken authHeader = t /\
    authenticate getUser authorization
    = authenticate getUser (Some ("Bearer " ++ t)%string).
Proof.
  intro H. unfold bearerHeader in H.
  destruct authorization as [a|]; [|discriminate].
  destruct (Js.truthy a && String.prefix "Bearer " a) eqn:E; [|discriminate].
  injection H as <-. apply andb_prop in E. destruct E as [_ E].
  destruct (prefix_split _ _ E) as [b ->].
  destruct (first_word (Js.chars b)) as (t & rest & Hb & Ht & Hrest).
  assert (Eb : b = Js.str (t ++ rest)) by (now rewrite <- Hb, str_chars).
  exists (Js.str t), (Js.str rest).
  assert (Htok : bearerToken ("Bearer " ++ b) = Js.str t).
  { rewrite Eb. now apply bearerToken_word. }
  split; [now rewrite Eb, str_app|].
  split; [unfold noSpace; now rewrite chars_str|].
  split; [destruct Hrest as [->|[rest' ->]]; [now left | right; now exists (Js.str rest')]|].
  split; [exact Htok|].
  unfold authenticate. rewrite !bearerHeader_bearer, Htok.
  replace (bearerToken ("Bearer " ++ Js.str t)) with (Js.str t); [reflexivity|].
  symmetry. rewrite <- (app_nil_r t) at 1. apply bearerToken_word; [exact Ht | now left].
Qed.

Lemma bearer_token_is_second_word_witness :
  exists t rest,
    "Bearer abc def ghi" = ("Bearer " ++ t ++ rest)%string /\ noSpace t = true /\
    (rest = "" \/ exists rest', rest = (" " ++ rest')%string) /\
    bearerToken "Bearer abc def ghi" = t /\
    authenticate (fun _ => NoUser) (Some "Bearer abc def ghi")
    = authenticate (fun _ => NoUser) (Some ("Bearer " ++ t)%string).
Proof.
  apply (bearer_token_is_second_word (fun _ => NoUser) (Some "Bearer abc def ghi")).
  reflexivity.
Defined.

(* ================================================================== *)
(** ** The routes *)
(* ================================================================== *)

Section RouteFacts.

Lemma authenticate_rejects (getUser : string -> IdentityAnswer)
    (authorization : option string) :
  (forall u, authenticate getUser authorization <> Continue u) ->
  exists r, authenticate getUser authorization = Respond r /\
            (statusCode r = 401 \/ statusCode r = 500).
Proof.
  intro H. unfold authenticate in *.
  destruct (bearerHeader authorization) as [a|].
  - destruct (getUser _) as [u| |].
    + now elim (H u).
    + eexists. split; [reflexivity | now left].
    + eexists. split; [reflexivity | now right].
  - eexists. split; [reflexivity | now left].
Qed.

End RouteFacts.

(** X22: an update needs a user: when the authentication does not let the
    request through, the route answers 401 or 500, makes no call to the
    store and leaves the table as it was, whatever the body. *)
Theorem patch_needs_a_user
    (validateUpdate : list (string * JsValue) -> Next (list (string * JsValue)))
    (getUser : string -> IdentityAnswer) (env : Env) (req : Incoming)
    (target : nat) (updates : list (string * JsValue)) (st : Store) :
  (forall u, authenticate getUser (authorization req) <> Continue u) ->
  let route := patchBugReport validateUpdate getUser env req target updates in
  (exists r, routeAnswer route st = Some (Answered r) /\
             (statusCode r = 401 \/ statusCode r = 500)) /\
  routeAfter route st = st /\ routeIssued route st = [].
Proof.
  intros H route. unfold route, patchBugReport.
  destruct (authenticate_rejects getUser (authorization req) H) as (r & -> & Hr).
  split; [exists r; split; [reflexivity | exact Hr]|]. split; reflexivity.
Qed.

Lemma patch_needs_a_user_witness :
  let route := patchBugReport (fun b => Continue b) (fun _ => KnownUser "u1")
                 (quietEnv 500) (mkIncoming (Some "Basic abc") None) 0
                 [("status", JsString "resolved")] in
  (exists r, routeAnswer route threeCanonicals = Some (Answered r) /\
             (statusCode r = 401 \/ statusCode r = 500)) /\
  routeAfter route threeCanonicals = threeCanonicals /\
  routeIssued route threeCanonicals = [].
Proof.
  apply (patch_needs_a_user (fun b => Continue b) (fun _ => KnownUser "u1")
           (quietEnv 500) (mkIncoming (Some "Basic abc") None) 0
           [("status", JsString "resolved")] threeCanonicals).
  intros u H. discriminate H.
Defined.

(** X23: a submission is never turned away for its token: with a token the
    required authentication would refuse, the route of submission runs as
    it does on the same request without an Authorization header. *)
Theorem post_with_refused_token_is_anonymous
    (validateSubmit : Req.SubmitBody -> Next Req.SubmitBody)
    (usedUp : string -> bool) (getUser : string -> IdentityAnswer) (env : Env)
    (req : Incoming) (body : Req.SubmitBody) (w : World) :
  (forall u, authenticate getUser (authorization req) <> Continue u) ->
  postBugReport validateSubmit usedUp getUser env req body w
  = postBugReport validateSubmit usedUp getUser env (mkIncoming None (ip req)) body w.
Proof.
  intro H. unfold postBugReport. cbn [ip authorization].
  rewrite !optionalAuth_run.
  destruct (authenticate_rejects getUser (authorization req) H) as (r & -> & _).
  reflexivity.
Qed.

Lemma post_with_refused_token_is_anonymous_witness :
  let post header :=
    postBugReport (fun b => Continue b) (fun _ => false) (fun _ => NoUser)
      (quietEnv 1000) (mkIncoming header (Some "10.0.0.1")) (Req.body firstReport)
      (mkWorld emptyStore []) in
  post (Some "Bearer stale") = post None.
Proof.
  cbv zeta.
  apply (post_with_refused_token_is_anonymous (fun b => Continue b) (fun _ => false)
           (fun _ => NoUser) (quietEnv 1000)
           (mkIncoming (Some "Bearer stale") (Some "10.0.0.1"))).
  intros u H. discriminate H.
Defined.

(* ================================================================== *)
(** ** The schemas and the checks of the handlers *)
(* ================================================================== *)

Section SchemaFacts.

Lemma stringBetween_text (lo hi : Z) (v : JsValue) :
  Schema.stringBetween lo hi v = true ->
  exists s, v = JsString s /\ (lo <= Z.of_nat (Js.length s) <= hi)%Z.
Proof.
  unfold Schema.stringBetween. destruct v; try discriminate.
  intro H. apply andb_prop in H. destruct H as [H1 H2].
  apply Z.leb_le in H1, H2. eexists. split; [reflexivity | lia].
Qed.

Lemma enum_text (values : list string) (v : JsValue) :
  Schema.enum values v = true -> exists s, v = JsString s /\ In s values.
Proof.
  unfold Schema.enum. destruct v; try discriminate. intro H.
  apply existsb_exists in H. destruct H as (x & Hx & E).
  apply String.eqb_eq in E. subst x. now eexists.
Qed.

Lemma optional_defined (p : JsValue -> bool) (v : JsValue) :
  Schema.optional p v = true -> v <> JsUndefined -> p v = true.
Proof. unfold Schema.optional. destruct v; congruence. Qed.

Lemma positive_length_truthy (s : string) : 0 < Js.length s -> Js.truthy s = true.
Proof. destruct s; [cbn; lia | reflexivity]. Qed.

End SchemaFacts.

(** X24: after the schema of the route, one check of the handler can still
    fail: a body the schema accepts has a tenant and a priority the handler
    accepts, and the handler answers 400 exactly when the trimmed
    description has fewer than five characters. *)
Theorem schema_leaves_one_rejection (env : Env) (body : Req.SubmitBody)
    (user : option string) (st : Store) :
  Schema.SubmitBugReportSchema body = true ->
  exists a d p,
    Req.appId body = JsString a /\ Req.description body = JsString d /\
    Req.priority body = JsString p /\
    ((5 <= Js.length (Js.trim d) /\ validated (Req.mkSubmit body user) a d p) \/
     (Js.length (Js.trim d) < 5 /\
      run (submitBugReport env (Req.mkSubmit body user)) st
      = (Some (mkResponse 400
                 (ErrorJson "description is required (min 5 characters)")),
         mkWorld st []))).
Proof.
  unfold Schema.SubmitBugReportSchema. intro H.
  repeat (apply andb_prop in H; destruct H as [H ?]).
  destruct (stringBetween_text _ _ _ H) as (a & Ea & Ha).
  match goal with
  | Hd : Schema.stringBetween 5 5000 _ = true |- _ =>
      destruct (stringBetween_text _ _ _ Hd) as (d & Ed & Hdlen)
  end.
  match goal with
  | Hp : Schema.BugReportPriorityEnum _ = true |- _ =>
      destruct (enum_text _ _ Hp) as (p & Ep & Hpin)
  end.
  exists a, d, p. split; [exact Ea|]. split; [exact Ed|]. split; [exact Ep|].
  assert (Hva : validAppId (Req.appId body) = Some a).
  { rewrite Ea. cbn. rewrite positive_length_truthy by lia. reflexivity. }
  assert (Hvp : validPriority (Req.priority body) = Some p).
  { rewrite Ep. destruct Hpin as [<-|[<-|[<-|[]]]]; reflexivity. }
  assert (Htd : Js.truthy d = true) by (apply positive_length_truthy; lia).
  destruct (Nat.leb_spec 5 (Js.length (Js.trim d))) as [L|L].
  - left. split; [exact L|]. split; [exact Hva|]. split; [|exact Hvp].
    cbn [Req.body Req.description]. rewrite Ed. cbn [validDescription].
    rewrite Htd. apply Nat.leb_le in L. now rewrite L.
  - right. split; [exact L|].
    unfold run, submitBugReport, tryCatch. cbn [Req.body].
    rewrite Hva, Ed. cbn [validDescription]. rewrite Htd.
    apply Nat.leb_gt in L. rewrite L. reflexivity.
Qed.

Lemma schema_leaves_one_rejection_witness :
  let body := Req.mkSubmitBody (JsString "app1") (JsString "  ab     ")
                (JsString "low") JsUndefined JsUndefined None None None None None in
  exists a d p,
    Req.appId body = JsString a /\ Req.description body = JsString d /\
    Req.priority body = JsString p /\
    ((5 <= Js.length (Js.trim d) /\ validated (Req.mkSubmit body None) a d p) \/
     (Js.length (Js.trim d) < 5 /\
      run (submitBugReport (quietEnv 1000) (Req.mkSubmit body None)) emptyStore
      = (Some (mkResponse 400
                 (ErrorJson "description is required (min 5 characters)")),
         mkWorld emptyStore []))).
Proof.
  cbv zeta.
  apply (schema_leaves_one_rejection (quietEnv 1000)
           (Req.mkSubmitBody (JsString "app1") (JsString "  ab     ")
              (JsString "low") JsUndefined JsUndefined None None None None None)
           None emptyStore).
  reflexivity.
Defined.

(** X25: for a body the schema of the update accepts, supplied and written
    are the same: each of the four fields that is present goes to the store
    under its column with the value given, and the update of an existing
    record answers 200 and leaves the record holding that value in that
    column. *)
Theorem schema_valid_update_writes_what_is_supplied
    (env : Env) (target : nat) (body : list (string * JsValue)) (field : string)
    (st : Store) (r : Report) :
  Schema.UpdateBugReportSchema body = true ->
  In field ["status"; "fixStatus"; "suggestedFix"; "claudeAnalysis"] ->
  getProp body field <> JsUndefined ->
  updateFault env = None -> NoDup (map id (rows st)) ->
  In r (rows st) -> id r = target ->
  issued (updateBugReport env target body) st
  = [CallUpdate target (buildUpdates body)] /\
  In (columnOf field, getProp body field) (buildUpdates body) /\
  exists r',
    response (updateBugReport env target body) st
    = Some (mkResponse 200 (ReportJson r')) /\
    In r' (rows (after (updateBugReport env target body) st)) /\
    id r' = target /\
    columnValue field r' = getProp body field.
Proof.
  unfold Schema.UpdateBugReportSchema. intros H Hf Hdef Hok Hnd Hr Hid.
  repeat (apply andb_prop in H; destruct H as [H ?]).
  assert (Htruthy : (field = "status" \/ field = "fixStatus") ->
                    truthy (getProp body field) = true).
  { intros [->| ->].
    - destruct (enum_text _ _ (optional_defined _ _ H Hdef)) as (s & -> & Hs).
      destruct Hs as [<-|[<-|[<-|[<-|[<-|[]]]]]]; reflexivity.
    - match goal with
      | Hx : Schema.optional Schema.FixStatusEnum _ = true |- _ =>
          destruct (enum_text _ _ (optional_defined _ _ Hx Hdef)) as (s & -> & Hs)
      end.
      destruct Hs as [<-|[<-|[<-|[<-|[]]]]]; reflexivity. }
  assert (Hdefined : isUndefined (getProp body field) = false)
    by (destruct (getProp body field); try reflexivity; now elim Hdef).
  assert (Hin : In (columnOf field, getProp body field) (buildUpdates body)).
  { apply In_buildUpdates.
    destruct Hf as [<-|[<-|[<-|[<-|[]]]]]; cbn [columnOf String.eqb Ascii.eqb Bool.eqb].
    - left. auto.
    - right. left. auto.
    - right. right. left. auto.
    - right. right. right. auto. }
  assert (Hne : buildUpdates body <> [])
    by (intro E; rewrite E in Hin; destruct Hin).
  destruct (update_present env target body st r Hne Hok Hnd Hr Hid)
    as (Hresp & Hrow & Hcall).
  split; [exact Hcall|]. split; [exact Hin|].
  eexists. split; [exact Hresp|]. split; [exact Hrow|]. split.
  - pose proof (written_updated env target body r) as Hu. unfold updated in Hu.
    rewrite (proj2 (Nat.eqb_eq _ _) Hid) in Hu.
    rewrite <- Hid. exact (proj1 (proj1 Hu)).
  - unfold written.
    destruct Hf as [<-|[<-|[<-|[<-|[]]]]];
      cbn [columnValue String.eqb Ascii.eqb Bool.eqb].
    + rewrite (Htruthy (or_introl eq_refl)).
      destruct (truthy (getProp body "fixStatus")),
               (isUndefined (getProp body "suggestedFix")),
               (isUndefined (getProp body "claudeAnalysis")); reflexivity.
    + rewrite (Htruthy (or_intror eq_refl)).
      destruct (truthy (getProp body "status")),
               (isUndefined (getProp body "suggestedFix")),
               (isUndefined (getProp body "claudeAnalysis")); reflexivity.
    + rewrite Hdefined.
      destruct (truthy (getProp body "status")),
               (truthy (getProp body "fixStatus")),
               (isUndefined (getProp body "claudeAnalysis")); reflexivity.
    + rewrite Hdefined.
      destruct (truthy (getProp body "status")),
               (truthy (getProp body "fixStatus")),
               (isUndefined (getProp body "suggestedFix")); reflexivity.
Qed.

Lemma schema_valid_update_writes_what_is_supplied_witness :
  let body := [("status", JsString "resolved"); ("suggestedFix", JsString "")] in
  let h := updateBugReport (quietEnv 500) 1 body in
  issued h threeCanonicals = [CallUpdate 1 (buildUpdates body)] /\
  In ("suggested_fix", JsString "") (buildUpdates body) /\
  exists r',
    response h threeCanonicals = Some (mkResponse 200 (ReportJson r')) /\
    In r' (rows (after h threeCanonicals)) /\
    id r' = 1 /\ suggested_fix r' = JsString "".
Proof.
  cbv zeta.
  apply (schema_valid_update_writes_what_is_supplied (quietEnv 500) 1
           [("status", JsString "resolved"); ("suggestedFix", JsString "")]
           "suggestedFix" threeCanonicals (sampleRow 1 "app1" "fp" None 1 100)).
  - reflexivity.
  - right. right. left. reflexivity.
  - discriminate.
  - reflexivity.
  - cbn. repeat (constructor; [cbn; intuition discriminate|]). constructor.
  - right. left. reflexivity.
  - reflexivity.
Defined.

(* ================================================================== *)
(** ** Screenshots *)
(* ================================================================== *)

Section Screenshots.

Lemma uploadOne_truthy (env : Env) (appId base64 : string) :
  Forall (fun url => Js.truthy url = true) (uploadOne env appId base64).
Proof.
  unfold uploadOne. destruct (uploadScreenshot env appId base64) as [url|];
    [|constructor].
  destruct (Js.truthy url) eqn:E; repeat constructor. exact E.
Qed.

Lemma uploadScreenshots_truthy (env : Env) (appId : string) (b : Req.SubmitBody) :
  Forall (fun url => Js.truthy url = true) (uploadScreenshots env appId b).
Proof.
  unfold uploadScreenshots.
  destruct (Req.screenshotBase64s b) as [| | | | | items |];
    try (destruct (Req.screenshotBase64 b) as [| | | |legacy| |]; try constructor;
         destruct (Js.truthy legacy); [apply uploadOne_truthy | constructor]).
  induction items as [|x items IH]; [constructor|].
  cbn [flat_map]. apply Forall_app. split; [|exact IH].
  destruct x as [| | | |s| |]; try constructor.
  destruct (Js.truthy s); [apply uploadOne_truthy | constructor].
Qed.

Lemma screenshotsAgree_reachable (st : Store) (r : Report) :
  reachable st -> In r (rows st) -> screenshotsAgree r.
Proof.
  intros Hreach Hr. revert st Hreach r Hr. apply reachable_rows.
  - intros r r' (_&_&_&_&_&_&_&_&_& Hu & Hus) H. unfold screenshotsAgree in *.
    now rewrite Hu, Hus.
  - intros env req a d p st _ Hv. unfold payloadOf, screenshotsAgree.
    cbn [stamped set_id set_created_at set_updated_at newReport
         screenshot_url screenshot_urls].
    pose proof (uploadScreenshots_truthy env a (Req.body req)) as Ht.
    destruct (uploadScreenshots env a (Req.body req)) as [|url urls];
      [reflexivity|].
    split; [discriminate|]. split; [reflexivity | exact Ht].
Qed.

End Screenshots.

(** X26: the two screenshot columns agree on every table the service can
    reach: [screenshot_urls] is null or a non-empty list of non-empty
    addresses, and [screenshot_url] is the first address of the list, null
    when there is none. *)
Theorem screenshot_columns_agree (st : Store) (r : Report) :
  reachable st -> In r (rows st) -> screenshotsAgree r.
Proof. apply screenshotsAgree_reachable. Qed.

Lemma screenshot_columns_agree_witness :
  let env := mkEnv 1000 tableOrder 1000 utc None None None None
               (fun _ data => if String.eqb data "AAAA" then None
                              else Some ("https://cdn/" ++ data)%string) in
  let body := Req.mkSubmitBody (JsString "app1") (JsString "Crash on launch")
                (JsString "high") (JsString "unused")
                (JsArray [JsString "AAAA"; JsNumber 3; JsString "BBBB"; JsString "CCCC"])
                None None None None None in
  screenshotsAgree
    (nth 0 (rows (after (submitBugReport env (Req.mkSubmit body None)) emptyStore))
       (sampleRow 0 "" "" None 0 0)).
Proof.
  intros env body.
  apply (screenshot_columns_agree
           (after (handler (Submit env (Req.mkSubmit body None))) emptyStore)).
  - exact (reachable_step _ (Submit env (Req.mkSubmit body None)) reachable_empty).
  - vm_compute. left. reflexivity.
Defined.

(* ================================================================== *)
(** ** Submissions as the list shows them *)
(* ================================================================== *)

Section ListAfterSubmit.

Lemma matching_map (g : Report -> Report) (appId : string) (q : Query.ListQuery)
    (l : list Report) (n m : nat) :
  (forall r, app_id (g r) = app_id r /\ canonical_id (g r) = canonical_id r /\
             status (g r) = status r /\ priority (g r) = priority r) ->
  matching appId q (mkStore (map g l) n) = map g (matching appId q (mkStore l m)).
Proof.
  intro Hg. unfold matching. cbn [rows].
  assert (H0 : Supabase.is_null canonical_id
                 (Supabase.eq_text app_id appId (map g l))
               = map g (Supabase.is_null canonical_id
                          (Supabase.eq_text app_id appId l))).
  { unfold Supabase.is_null, Supabase.eq_text.
    rewrite (filter_map_commute _ g l); [|intro r; now rewrite (proj1 (Hg r))].
    apply filter_map_commute. intro r.
    now rewrite (proj1 (proj2 (Hg r))). }
  rewrite H0.
  set (l0 := Supabase.is_null canonical_id (Supabase.eq_text app_id appId l)).
  assert (H1 : withStatus (Query.status q) (map g l0)
               = map g (withStatus (Query.status q) l0)).
  { unfold withStatus. destruct (Query.status q) as [| | | |s| |]; try reflexivity.
    destruct (Js.truthy s); [|reflexivity].
    unfold SupabaseRead.eq_status. apply filter_map_commute. intro r.
    now rewrite (proj1 (proj2 (proj2 (Hg r)))). }
  rewrite H1. unfold withPriority.
  destruct (Query.priority q) as [| | | |s| |]; try reflexivity.
  destruct (Js.truthy s); [|reflexivity].
  unfold Supabase.eq_text. apply filter_map_commute. intro r.
  now rewrite (proj2 (proj2 (proj2 (Hg r)))).
Qed.

Lemma matching_linked (appId : string) (q : Query.ListQuery) (l : list Report)
    (x : Report) (n m : nat) :
  canonical_id x <> None ->
  matching appId q (mkStore (l ++ [x]) n) = matching appId q (mkStore l m).
Proof.
  intro Hx. unfold matching. cbn [rows]. f_equal. f_equal.
  unfold Supabase.is_null, Supabase.eq_text. rewrite !filter_app.
  cbn [filter]. destruct (String.eqb (app_id x) appId); cbn [filter].
  - destruct (canonical_id x); [now rewrite app_nil_r | now elim Hx].
  - now rewrite app_nil_r.
Qed.

End ListAfterSubmit.

(** X27: a submission answered as a duplicate does not show in the list of
    its tenant or of any other. When no two of the rows a list request asks
    for were created at the same instant, the request shows after the
    submission the rows it showed before, in the same order, and the only
    row that differs is the record the submission points at, which counts
    one more and has a new update time once the increment went through. *)
Theorem duplicate_submission_is_not_listed (env : Env) (req : Req.Submit)
    (st : Store) (i : nat) (s : JsValue) (c : option nat) (n : nat)
    (before before' : Report -> Report -> bool)
    (fault : option PostgrestError) (q : Query.ListQuery) :
  response (submitBugReport env req) st
  = Some (mkResponse 201 (SubmittedJson i s true c n)) ->
  (forall appId, validAppId (Query.appId q) = Some appId ->
                 distinctTimes (matching appId q st)) ->
  exists c0,
    c = Some c0 /\
    listed before' fault q (after (submitBugReport env req) st)
    = match rpcFault env with
      | None => map (incrementRow env c0) (listed before fault q st)
      | Some _ => listed before fault q st
      end.
Proof.
  intros Hresp Hd. unfold response, after in *.
  destruct (validated_dec req) as [(a & d & p & Hv)|Hinv].
  - destruct (insertFault env) as [e|] eqn:Hins.
    + unfold run in Hresp.
      rewrite (submitBugReport_valid env req a d p _ Hv), Hins in Hresp.
      discriminate Hresp.
    + rewrite (run_valid_submission env req a d p st Hv Hins) in *.
      set (fp := generateFingerprint a d (Req.screenName (Req.body req))) in *.
      set (data := stamped env st (payloadOf env req a d p st)) in *.
      assert (Hcan : canonical_id data = lookup env fp a st) by reflexivity.
      destruct (lookup env fp a st) as [c0|] eqn:Hl; cbn [fst snd db] in *;
        [|discriminate Hresp].
      assert (Hlinked : canonical_id data <> None) by (rewrite Hcan; discriminate).
      exists c0. split; [injection Hresp; intros; congruence|].
      rewrite increment_run, !listed_run.
      destruct (validAppId (Query.appId q)) as [appId|] eqn:Ea;
        [|destruct (rpcFault env); reflexivity].
      destruct fault; [destruct (rpcFault env); reflexivity|].
      specialize (Hd appId eq_refl).
      destruct (rpcFault env); cbn [snd].
      * rewrite (matching_linked appId q (rows st) data _ (next_id st) Hlinked).
        change (matching appId q (mkStore (rows st) (next_id st)))
          with (matching appId q st).
        now rewrite (order_desc_same before' before _ Hd).
      * cbn [rows next_id].
        change (map (fun r => if Nat.eqb (id r) c0 then incremented env r else r)
                    (rows st ++ [data]))
          with (map (incrementRow env c0) (rows st ++ [data])).
        rewrite (matching_map (incrementRow env c0) appId q (rows st ++ [data])
                   (S (next_id st)) (next_id st)).
        2:{ intro r. unfold incrementRow. destruct (Nat.eqb (id r) c0); repeat split. }
        rewrite (matching_linked appId q (rows st) data (next_id st) (next_id st)
                   Hlinked).
        change (matching appId q (mkStore (rows st) (next_id st)))
          with (matching appId q st).
        rewrite (order_desc_distinct before' before (incrementRow env c0) _).
        -- now rewrite skipn_map, firstn_map.
        -- intro r. unfold incrementRow. now destruct (Nat.eqb (id r) c0).
        -- exact Hd.
  - destruct (submitBugReport_invalid env req (mkWorld st []) Hinv) as [msg E].
    unfold run in Hresp. rewrite E in Hresp. discriminate Hresp.
Qed.

Lemma duplicate_submission_is_not_listed_witness :
  let q := Query.mkListQuery (JsString "app1") JsUndefined JsUndefined None None in
  exists c0,
    Some 0 = Some c0 /\
    listed tableOrder None q afterSecond
    = map (incrementRow (quietEnv 2000) c0)
          (listed (fun _ _ => false) None q afterFirst).
Proof.
  cbv zeta.
  apply (duplicate_submission_is_not_listed (quietEnv 2000) secondReport afterFirst
           1 (JsString "duplicate") (Some 0) 0 (fun _ _ => false) tableOrder None
           (Query.mkListQuery (JsString "app1") JsUndefined JsUndefined None None)).
  - vm_compute. reflexivity.
  - intros appId E. injection E as <-. vm_compute.
    constructor; [intros []|constructor].
Defined.
